(** * Content-management backend: transactional persistence and query layer

    A shallow embedding of the request handlers of the CMS backend
    (controllers for pages, posts and media) over a model of the storage
    layer they drive (GORM on PostgreSQL), followed by the properties of the
    specification that concern them.

    Layout:
    - [Page], [Media], [Post]: the entity structs of package [models];
    - [like]        the [ILIKE] operator applied by the list handlers;
    - [storage]     tables, sequences, transactions, the log of the calls
                    made on the handle and the environment's fault plan;
    - [gorm]        the calls the handlers make on the storage handle;
    - [controllers] the handlers, one definition per Go function;
    - [app]         the start-up of the server ([main] and [runMigrations]);
    - the notions the properties are stated with;
    - the properties, each after the lemmas it rests on. *)

From Stdlib Require Import ZArith NArith Ascii String List Bool Lia.
From stdpp Require Import base option list gmap strings.

Local Open Scope string_scope.
Local Open Scope N_scope.

(** ** Entity structs (package [models]) *)

(** Go's [time.Time] is kept as a number of clock ticks; the zero time is 0.
    Go's [uint] identifiers are kept as [N]; identifiers only ever come from
    the store's sequences or from a decoded request, never from arithmetic
    in the handlers, so no wrap-around is involved. *)

Definition is_empty (s : string) : bool :=
  match s with
  | EmptyString => true
  | String _ _ => false
  end.

Module Page.
Record t := mk {
  ID : N;
  Title : string;          (* binding:"required" *)
  Content : string;        (* binding:"required" *)
  Createdat : Z;           (* gorm:"autoCreateTime" *)
  UpodatedAt : Z           (* gorm:"autoUpdateTime" *)
}.
Definition zero : t := mk 0 "" "" 0%Z 0%Z.
Definition with_ID (v : N) (p : t) : t :=
  mk v (Title p) (Content p) (Createdat p) (UpodatedAt p).
Definition with_Title (v : string) (p : t) : t :=
  mk (ID p) v (Content p) (Createdat p) (UpodatedAt p).
Definition with_Content (v : string) (p : t) : t :=
  mk (ID p) (Title p) v (Createdat p) (UpodatedAt p).
Definition with_Createdat (v : Z) (p : t) : t :=
  mk (ID p) (Title p) (Content p) v (UpodatedAt p).
Definition with_UpodatedAt (v : Z) (p : t) : t :=
  mk (ID p) (Title p) (Content p) (Createdat p) v.
End Page.

Module Media.
(** Modelled from the spec: the file declaring [models.Media] is not among
    the sources.  The fields are those of the specification's data model
    ([id], [url], [type], [created_at], [updated_at]), under the names the
    tests read them by ([ID], [URL], [Type]).  [Type] is reserved in Rocq,
    hence [Type_].  Which fields carry a [binding:"required"] tag is not
    known and is a parameter of [CreateMedia]. *)
Record t := mk {
  ID : N;
  URL : string;
  Type_ : string;
  CreatedAt : Z;
  UpdatedAt : Z
}.
Definition zero : t := mk 0 "" "" 0%Z 0%Z.
Definition with_ID (v : N) (m : t) : t :=
  mk v (URL m) (Type_ m) (CreatedAt m) (UpdatedAt m).
Definition with_CreatedAt (v : Z) (m : t) : t :=
  mk (ID m) (URL m) (Type_ m) v (UpdatedAt m).
Definition with_UpdatedAt (v : Z) (m : t) : t :=
  mk (ID m) (URL m) (Type_ m) (CreatedAt m) v.
End Media.

Module Post.
(** [Media] is a Go slice: [None] is the nil slice (rendered [null] in
    JSON), [Some l] a non-nil slice (rendered as an array, [[]] when
    empty). *)
Record t := mk {
  ID : N;
  Title : string;          (* binding:"required" *)
  Content : string;        (* binding:"required" *)
  Author : string;
  Createdat : Z;           (* gorm:"autoCreateTime" *)
  UpodatedAt : Z;          (* gorm:"autoUpdateTime" *)
  Media : option (list Media.t)   (* gorm:"many2many:post_media" *)
}.
Definition zero : t := mk 0 "" "" "" 0%Z 0%Z None.
Definition with_ID (v : N) (p : t) : t :=
  mk v (Title p) (Content p) (Author p) (Createdat p) (UpodatedAt p) (Media p).
Definition with_Title (v : string) (p : t) : t :=
  mk (ID p) v (Content p) (Author p) (Createdat p) (UpodatedAt p) (Media p).
Definition with_Content (v : string) (p : t) : t :=
  mk (ID p) (Title p) v (Author p) (Createdat p) (UpodatedAt p) (Media p).
Definition with_Author (v : string) (p : t) : t :=
  mk (ID p) (Title p) (Content p) v (Createdat p) (UpodatedAt p) (Media p).
Definition with_Createdat (v : Z) (p : t) : t :=
  mk (ID p) (Title p) (Content p) (Author p) v (UpodatedAt p) (Media p).
Definition with_UpodatedAt (v : Z) (p : t) : t :=
  mk (ID p) (Title p) (Content p) (Author p) (Createdat p) v (Media p).
Definition with_Media (v : option (list Media.t)) (p : t) : t :=
  mk (ID p) (Title p) (Content p) (Author p) (Createdat p) (UpodatedAt p) v.
End Post.

(** ** The [ILIKE] operator

    The list handlers pass ["%" + title + "%"] as the right operand of
    [title ILIKE ?].  PostgreSQL reads that operand as a pattern: [%] stands
    for any run of characters, [_] for any one character, and a backslash
    makes the next character literal.  [ILIKE] compares without regard to
    letter case. *)

Module like.

Definition lower (c : ascii) : ascii :=
  let n := N_of_ascii c in
  if (65 <=? n) && (n <=? 90) then ascii_of_N (n + 32) else c.

Definition chars (s : string) : list ascii := list_ascii_of_string s.

Definition fold_case (s : string) : list ascii := map lower (chars s).

Definition ch_eqb (a b : ascii) : bool := Ascii.eqb a b.

Definition percent : ascii := "%"%char.
Definition underscore : ascii := "_"%char.
Definition backslash : ascii := "\"%char.

(** [matches p s]: the text [s] matches the LIKE pattern [p].  A pattern
    that ends in a lone backslash is refused by PostgreSQL; here it matches
    nothing. *)
Fixpoint matches (p : list ascii) : list ascii -> bool :=
  match p with
  | [] => fun s => match s with [] => true | _ :: _ => false end
  | c :: p' =>
      if ch_eqb c percent then
        fix any (s : list ascii) : bool :=
          matches p' s || match s with [] => false | _ :: s' => any s' end
      else if ch_eqb c underscore then
        fun s => match s with [] => false | _ :: s' => matches p' s' end
      else if ch_eqb c backslash then
        match p' with
        | [] => fun _ => false
        | d :: p'' =>
            fun s => match s with
                     | [] => false
                     | e :: s' => ch_eqb d e && matches p'' s'
                     end
        end
      else
        fun s => match s with
                 | [] => false
                 | e :: s' => ch_eqb c e && matches p' s'
                 end
  end.

(** [text ILIKE pattern] *)
Definition ilike (text pattern : string) : bool :=
  matches (fold_case pattern) (fold_case text).

(** A character with a special meaning in a pattern. *)
Definition meta (c : ascii) : bool :=
  ch_eqb c percent || ch_eqb c underscore || ch_eqb c backslash.

Definition plain (s : string) : bool := forallb (fun c => negb (meta c)) (chars s).

(** [is_prefix w s]: [s] starts with [w]. *)
Fixpoint is_prefix (w s : list ascii) : bool :=
  match w, s with
  | [], _ => true
  | _ :: _, [] => false
  | a :: w', b :: s' => ch_eqb a b && is_prefix w' s'
  end.

(** [occurs w s]: [w] occurs in [s] as a contiguous run. *)
Fixpoint occurs (w s : list ascii) : bool :=
  is_prefix w s || match s with [] => false | _ :: s' => occurs w s' end.

(** The title contains the value, letter case aside. *)
Definition contains_ci (text value : string) : bool :=
  occurs (fold_case value) (fold_case text).

End like.

(** ** The store, its transactions and the environment

    The handlers reach PostgreSQL through a GORM handle.  The model keeps the
    three tables and the join table, the sequences of their ids, the state
    of the transaction handle, the log of the calls made on the handle, and
    the environment's plan: call by call, whether the call goes well, comes
    back with an error, or panics. *)

Module storage.

(** How the environment lets one call go: it goes well, it comes back with
    an error, or it panics. *)
Inductive Outcome := Good | Bad | Fatal.

Inductive Err :=
| ErrRecordNotFound
| ErrInvalidTransaction
| ErrMissingWhereClause
| ErrSQL (msg : string).

Definition Error_ (e : Err) : string :=
  match e with
  | ErrRecordNotFound => "record not found"
  | ErrInvalidTransaction => "invalid transaction"
  | ErrMissingWhereClause => "WHERE conditions required"
  | ErrSQL msg => msg
  end.

Inductive result (A : Type) := Ok (a : A) | Error (e : Err).
Arguments Ok {A} a.
Arguments Error {A} e.

(** A [Where] clause of a list handler. *)
Inductive Cond :=
| ILike (column pattern : string)     (* Where("<column> ILIKE ?", pattern) *)
| Equal (column value : string).      (* Where("<column> = ?", value) *)

(** What is sent on the handle. *)
Inductive Call :=
| SELECT_BY_ID (table : string) (id : N)
| SELECT (table : string) (conds : list Cond)
| SELECT_IN (table column : string) (ids : list N)
| BEGIN
| INSERT (table : string)
| UPDATE (table : string) (id : N)
| DELETE (table : string) (id : N)
| COMMIT
| ROLLBACK.

Record DB := mkDB {
  pages : gmap N Page.t;
  posts : gmap N Post.t;
  media : gmap N Media.t;
  post_media : gset (N * N)           (* (post_id, media_id) *)
}.

Definition empty_db : DB := mkDB ∅ ∅ ∅ ∅.

(** The sequences the tables draw their ids from.  A value once drawn is
    not given back: the sequences stand outside the transactions. *)
Record Seqs := mkSeqs {
  pages_seq : N;
  posts_seq : N;
  media_seq : N
}.

(** The transaction handle [tx]: not begun, open on a working copy of the
    store, failed to begin, or finished. *)
Inductive Tx := Idle | Open (work : DB) | Broken | Closed.

(** A response body. *)
Inductive Payload :=
| HTTPError (Code : nat) (Message : string)
| OnePage (p : Page.t)
| Pages (l : list Page.t)
| OnePost (p : Post.t)
| Posts (l : list Post.t)
| OneMedia (m : Media.t)
| MediaList (l : list Media.t)
| H_message (msg : string).

Record World := mkWorld {
  store : DB;                         (* what is committed *)
  seqs : Seqs;                        (* not undone by a rollback *)
  tx : Tx;
  log : list (Call * Outcome);        (* each call with how it went, oldest first *)
  plan : list Outcome;                (* once used up, every call goes well *)
  clock : Z;                          (* NowFunc *)
  sent : list (nat * Payload)         (* c.JSON(status, body), oldest first *)
}.

Definition with_store (v : DB) (w : World) : World :=
  mkWorld v (seqs w) (tx w) (log w) (plan w) (clock w) (sent w).
Definition with_seqs (v : Seqs) (w : World) : World :=
  mkWorld (store w) v (tx w) (log w) (plan w) (clock w) (sent w).
Definition with_tx (v : Tx) (w : World) : World :=
  mkWorld (store w) (seqs w) v (log w) (plan w) (clock w) (sent w).
Definition with_log (v : list (Call * Outcome)) (w : World) : World :=
  mkWorld (store w) (seqs w) (tx w) v (plan w) (clock w) (sent w).
Definition with_plan (v : list Outcome) (w : World) : World :=
  mkWorld (store w) (seqs w) (tx w) (log w) v (clock w) (sent w).
Definition with_sent (v : list (nat * Payload)) (w : World) : World :=
  mkWorld (store w) (seqs w) (tx w) (log w) (plan w) (clock w) v.

(** A fresh request on a given store. *)
Definition request (db : DB) (sq : Seqs) (faults : list Outcome) (t : Z) : World :=
  mkWorld db sq Idle [] faults t [].

(** *** Computations: state plus panics *)

Inductive Res (A : Type) := Ret (a : A) | Panic.
Arguments Ret {A} a.
Arguments Panic {A}.

Definition M (A : Type) : Type := World -> Res A * World.

Definition ret {A} (a : A) : M A := fun w => (Ret a, w).

Definition bind {A B} (m : M A) (k : A -> M B) : M B :=
  fun w =>
    match m w with
    | (Ret a, w') => k a w'
    | (Panic, w') => (Panic, w')
    end.

Definition get : M World := fun w => (Ret w, w).
Definition modify (f : World -> World) : M unit := fun w => (Ret tt, f w).

(** The world a computation ends in. *)
Definition exec {A} (m : M A) (w : World) : World := snd (m w).

(** How the next call goes, and the plan moving on. *)
Definition peek (w : World) : Outcome :=
  match plan w with
  | [] => Good
  | o :: _ => o
  end.

Definition advance (w : World) : World := with_plan (tl (plan w)) w.

Definition record (c : Call) (o : Outcome) (w : World) : World :=
  with_log (log w ++ [(c, o)]) w.

(** One call on the handle: the environment decides how it goes, the log
    keeps it. *)
Definition call (c : Call) : M Outcome :=
  fun w =>
    let o := peek w in
    let w' := record c o (advance w) in
    match o with
    | Fatal => (Panic, w')
    | _ => (Ret o, w')
    end.

(** [defer func() { if r := recover(); r != nil { h } }()] around [body]. *)
Definition defer_recover (h : M unit) (body : M unit) : M unit :=
  fun w =>
    match body w with
    | (Ret a, w') => (Ret a, w')
    | (Panic, w') => h w'
    end.

(** [c.JSON(status, body)]; the write itself may panic. *)
Definition JSON (status : nat) (body : Payload) : M unit :=
  fun w =>
    let w' := advance w in
    match peek w with
    | Fatal => (Panic, w')
    | _ => (Ret tt, with_sent (sent w' ++ [(status, body)]) w')
    end.

End storage.

Export storage.

Declare Scope go_scope.
Delimit Scope go_scope with go.
Notation "'do' x <- m ; k" := (bind m (fun x => k))
  (at level 10, x name, m at level 100, k at level 200) : go_scope.
Notation "m ;; k" := (bind m (fun _ => k))
  (at level 100, k at level 200, right associativity) : go_scope.
Local Open Scope go_scope.

(** ** The calls on the storage handle (package [gorm])

    The handlers use [First], [Find], [Preload], [Begin], [Create], [Save],
    [Delete], [Commit] and [Rollback].  Their effect is given at the level of
    the statements they send, which are the ones the unit tests expect from
    the handle ([SELECT ... WHERE id = $1 ORDER BY id LIMIT 1], [INSERT ...
    RETURNING id], a full-row [UPDATE], [DELETE ... WHERE id = $1], and for a
    preloaded relation [SELECT * FROM post_media WHERE post_id IN (...)]). *)

Module gorm.

Definition with_pages (v : gmap N Page.t) (db : DB) : DB :=
  mkDB v (posts db) (media db) (post_media db).
Definition with_posts (v : gmap N Post.t) (db : DB) : DB :=
  mkDB (pages db) v (media db) (post_media db).
Definition with_media (v : gmap N Media.t) (db : DB) : DB :=
  mkDB (pages db) (posts db) v (post_media db).
Definition with_post_media (v : gset (N * N)) (db : DB) : DB :=
  mkDB (pages db) (posts db) (media db) v.

(** What the handle knows of a struct: its table, key and timestamps. *)
Record Model (R : Type) := mkModel {
  table : string;
  rows : DB -> gmap N R;
  with_rows : gmap N R -> DB -> DB;
  nextval : Seqs -> N * Seqs;               (* the id sequence *)
  key : R -> N;
  with_key : N -> R -> R;
  auto_create : Z -> R -> R;                (* autoCreateTime, autoUpdateTime on INSERT *)
  auto_update : Z -> R -> R;                (* autoUpdateTime on UPDATE *)
  columns_of : R -> R;                      (* the struct without its relations *)
  column : string -> option (R -> string);  (* the text columns, by name *)
  associations : Z -> R -> Seqs -> DB -> Seqs * (R * DB)  (* saved along with the row *)
}.
Arguments mkModel {R}.
Arguments table {R}.
Arguments rows {R}.
Arguments with_rows {R}.
Arguments nextval {R}.
Arguments key {R}.
Arguments with_key {R}.
Arguments auto_create {R}.
Arguments auto_update {R}.
Arguments columns_of {R}.
Arguments column {R}.
Arguments associations {R}.

Definition stamp (t old : Z) : Z := if (old =? 0)%Z then t else old.

Definition PageModel : Model Page.t :=
  mkModel "pages" pages with_pages
    (fun sq => (pages_seq sq + 1,
                mkSeqs (pages_seq sq + 1) (posts_seq sq) (media_seq sq)))
    Page.ID Page.with_ID
    (fun t p => Page.with_UpodatedAt (stamp t (Page.UpodatedAt p))
                  (Page.with_Createdat (stamp t (Page.Createdat p)) p))
    (fun t p => Page.with_UpodatedAt t p)
    (fun p => p)
    (fun c => if String.eqb c "title" then Some Page.Title
              else if String.eqb c "content" then Some Page.Content
              else None)
    (fun _ p sq db => (sq, (p, db))).

Definition MediaModel : Model Media.t :=
  mkModel "media" media with_media
    (fun sq => (media_seq sq + 1,
                mkSeqs (pages_seq sq) (posts_seq sq) (media_seq sq + 1)))
    Media.ID Media.with_ID
    (fun t m => Media.with_UpdatedAt (stamp t (Media.UpdatedAt m))
                  (Media.with_CreatedAt (stamp t (Media.CreatedAt m)) m))
    (fun t m => Media.with_UpdatedAt t m)
    (fun m => m)
    (fun c => if String.eqb c "url" then Some Media.URL
              else if String.eqb c "type" then Some Media.Type_
              else None)
    (fun _ m sq db => (sq, (m, db))).

(** One element of [post.Media] on saving the post: the handle sends
    [INSERT INTO media ... ON CONFLICT DO NOTHING] for it, so an element
    whose id names a stored row leaves that row alone, and any other
    element (no id, or an id that names no row) becomes a new row.  A
    sequence value that is already taken is a conflict like any other.  The
    element of the slice gets its id and timestamps either way. *)
Definition upsert_media (t : Z) (acc : list Media.t * Seqs * DB) (x : Media.t)
  : list Media.t * Seqs * DB :=
  let '(saved, sq, db) := acc in
  let '(id, sq1) :=
    if Media.ID x =? 0 then nextval MediaModel sq else (Media.ID x, sq) in
  let x' := auto_create MediaModel t (Media.with_ID id x) in
  match media db !! id with
  | Some _ => ((saved ++ [x'])%list, sq1, db)
  | None => ((saved ++ [x'])%list, sq1, with_media (<[id := x']> (media db)) db)
  end.

(** The many2many relation of a post: its elements are upserted, then one
    join row per element is added ([ON CONFLICT DO NOTHING] again). *)
Definition save_post_media (t : Z) (p : Post.t) (sq : Seqs) (db : DB)
  : Seqs * (Post.t * DB) :=
  match Post.Media p with
  | None => (sq, (p, db))
  | Some l =>
      let '(l', sq1, db1) := fold_left (upsert_media t) l ([], sq, db) in
      (sq1,
       (Post.with_Media (Some l') p,
        with_post_media
          (post_media db1 ∪ list_to_set (map (fun x => (Post.ID p, Media.ID x)) l'))
          db1))
  end.

Definition PostModel : Model Post.t :=
  mkModel "posts" posts with_posts
    (fun sq => (posts_seq sq + 1,
                mkSeqs (pages_seq sq) (posts_seq sq + 1) (media_seq sq)))
    Post.ID Post.with_ID
    (fun t p => Post.with_UpodatedAt (stamp t (Post.UpodatedAt p))
                  (Post.with_Createdat (stamp t (Post.Createdat p)) p))
    (fun t p => Post.with_UpodatedAt t p)
    (Post.with_Media None)
    (fun c => if String.eqb c "title" then Some Post.Title
              else if String.eqb c "content" then Some Post.Content
              else if String.eqb c "author" then Some Post.Author
              else None)
    save_post_media.

(** *** Statements on a store *)

Section Statements.
Context {R : Type} (m : Model R).

(** [INSERT INTO <table> ... RETURNING id], then the relations.  A struct
    without id is given the next value of the sequence. *)
Definition insert_row (t : Z) (r : R) (sq : Seqs) (db : DB) : Seqs * result (R * DB) :=
  let '(id, sq1) :=
    if key m r =? 0 then nextval m sq else (key m r, sq) in
  match rows m db !! id with
  | Some _ => (sq1, Error (ErrSQL "duplicate key value violates unique constraint"))
  | None =>
      let r' := auto_create m t (with_key m id r) in
      let db1 := with_rows m (<[id := columns_of m r']> (rows m db)) db in
      let '(sq2, saved) := associations m t r' sq1 db1 in
      (sq2, Ok saved)
  end.

(** [UPDATE <table> SET <every column> WHERE id = $n] for [Save]; a
    struct without id is inserted instead. *)
Definition save_row (t : Z) (r : R) (sq : Seqs) (db : DB) : Seqs * result (R * DB) :=
  if key m r =? 0 then insert_row t r sq db
  else
    let r' := auto_update m t r in
    let db1 := with_rows m (<[key m r := columns_of m r']> (rows m db)) db in
    let '(sq1, saved) := associations m t r' sq db1 in
    (sq1, Ok saved).

(** [DELETE FROM <table> WHERE id = $1]. *)
Definition delete_row (r : R) (sq : Seqs) (db : DB) : Seqs * result (unit * DB) :=
  if key m r =? 0 then (sq, Error ErrMissingWhereClause)
  else (sq, Ok (tt, with_rows m (delete (key m r) (rows m db)) db)).

(** One [Where] clause as a test on a row; [None] when the table has no
    such column. *)
Definition compile_cond (c : Cond) : option (R -> bool) :=
  match c with
  | ILike col pat => f ← column m col; Some (fun r => like.ilike (f r) pat)
  | Equal col v => f ← column m col; Some (fun r => String.eqb (f r) v)
  end.

Fixpoint compile (conds : list Cond) : option (R -> bool) :=
  match conds with
  | [] => Some (fun _ => true)
  | c :: rest =>
      f ← compile_cond c; g ← compile rest; Some (fun r => f r && g r)
  end.

(** The rows of the table, each scanned into a struct. *)
Definition scan_all (db : DB) : list R :=
  map (fun kr => with_key m (fst kr) (snd kr)) (map_to_list (rows m db)).

(** *** Reads, on the handle [db] *)

(** [db.First(&x, id)] *)
Definition First (id : N) : M (result R) :=
  do o <- call (SELECT_BY_ID (table m) id);
  do w <- get;
  match o with
  | Bad => ret (Error (ErrSQL "query failed"))
  | _ =>
      match rows m (store w) !! id with
      | Some r => ret (Ok (with_key m id r))
      | None => ret (Error ErrRecordNotFound)
      end
  end.

(** [query.Find(&xs)], [query] being [db] narrowed by [conds]. *)
Definition Find (conds : list Cond) : M (result (list R)) :=
  do o <- call (SELECT (table m) conds);
  do w <- get;
  match o with
  | Bad => ret (Error (ErrSQL "query failed"))
  | _ =>
      match compile conds with
      | None => ret (Error (ErrSQL "column does not exist"))
      | Some keep => ret (Ok (List.filter keep (scan_all (store w))))
      end
  end.

(** *** Writes, on the handle [tx] *)

(** A statement on the working copy of an open transaction; what it draws
    from the sequences is drawn for good. *)
Definition in_tx {A} (f : Z -> Seqs -> DB -> Seqs * result (A * DB)) (o : Outcome)
  : M (result A) :=
  fun w =>
    match o, tx w with
    | Bad, _ => (Ret (Error (ErrSQL "statement failed")), w)
    | _, Open work =>
        match f (clock w) (seqs w) work with
        | (sq, Ok (a, work')) => (Ret (Ok a), with_tx (Open work') (with_seqs sq w))
        | (sq, Error e) => (Ret (Error e), with_seqs sq w)
        end
    | _, _ => (Ret (Error ErrInvalidTransaction), w)
    end.

(** [tx.Create(&x)] *)
Definition Create (r : R) : M (result R) :=
  do o <- call (INSERT (table m));
  in_tx (fun t sq db => insert_row t r sq db) o.

(** [tx.Save(&x)] *)
Definition Save (r : R) : M (result R) :=
  do o <- call (UPDATE (table m) (key m r));
  in_tx (fun t sq db => save_row t r sq db) o.

(** [tx.Delete(&x)] *)
Definition Delete (r : R) : M (result unit) :=
  do o <- call (DELETE (table m) (key m r));
  in_tx (fun _ sq db => delete_row r sq db) o.

End Statements.

(** The handle [db] as a query with no clause yet, and [query.Where]. *)
Definition db : list Cond := [].
Definition Where (query : list Cond) (c : Cond) : list Cond := (query ++ [c])%list.

(** *** Transactions *)

(** [db.Begin()]: the handle it returns is open on the committed store, or
    carries the error of a failed [BEGIN]. *)
Definition Begin : M unit :=
  do o <- call BEGIN;
  modify (fun w =>
            match o with
            | Bad => with_tx Broken w
            | _ => with_tx (Open (store w)) w
            end).

(** [tx.Commit()]: the working copy becomes the store; after a failed
    commit nothing of it is kept.  Either way the transaction is over. *)
Definition Commit : M (result unit) :=
  do o <- call COMMIT;
  fun w =>
    match tx w with
    | Open work =>
        match o with
        | Bad => (Ret (Error (ErrSQL "commit failed")), with_tx Closed w)
        | _ => (Ret (Ok tt), with_tx Closed (with_store work w))
        end
    | _ => (Ret (Error ErrInvalidTransaction), w)
    end.

(** [tx.Rollback()]: the working copy is dropped. *)
Definition Rollback : M (result unit) :=
  do o <- call ROLLBACK;
  fun w =>
    match tx w with
    | Open _ =>
        match o with
        | Bad => (Ret (Error (ErrSQL "rollback failed")), with_tx Closed w)
        | _ => (Ret (Ok tt), with_tx Closed w)
        end
    | _ => (Ret (Error ErrInvalidTransaction), w)
    end.

(** *** [Preload("Media")]

    After the posts are read, the relation is resolved for all of them at
    once: nothing is sent when there is no post; otherwise one lookup of
    the join table for the ids of all the posts, then (when it found join
    rows) one read of the media they name.  Every post's [Media] is reset
    to an empty slice and the media read are handed to their posts. *)

Definition joins_of (ids : list N) (db : DB) : list (N * N) :=
  List.filter (fun pm => bool_decide (fst pm ∈ ids)) (elements (post_media db)).

Definition media_in (mids : list N) (db : DB) : list Media.t :=
  List.filter (fun x => bool_decide (Media.ID x ∈ mids)) (scan_all MediaModel db).

Definition media_of (joins : list (N * N)) (found : list Media.t) (p : Post.t)
  : list Media.t :=
  List.filter (fun x => bool_decide ((Post.ID p, Media.ID x) ∈ joins)) found.

Definition Preload_Media (ps : list Post.t) : M (result (list Post.t)) :=
  match ps with
  | [] => ret (Ok [])
  | _ :: _ =>
      let ids := map Post.ID ps in
      do o <- call (SELECT_IN "post_media" "post_id" ids);
      do w <- get;
      match o with
      | Bad => ret (Error (ErrSQL "query failed"))
      | _ =>
          let joins := joins_of ids (store w) in
          let mids := map snd joins in
          do found <-
            match mids with
            | [] => ret (Ok [])
            | _ :: _ =>
                do o' <- call (SELECT_IN "media" "id" mids);
                match o' with
                | Bad => ret (Error (ErrSQL "query failed"))
                | _ => ret (Ok (media_in mids (store w)))
                end
            end;
          match found with
          | Error e => ret (Error e)
          | Ok ms =>
              ret (Ok (map (fun p => Post.with_Media (Some (media_of joins ms p)) p) ps))
          end
      end
  end.

(** [query.Preload("Media").Find(&posts)] *)
Definition Find_Preload_Media (conds : list Cond) : M (result (list Post.t)) :=
  do r <- Find PostModel conds;
  match r with
  | Error e => ret (Error e)
  | Ok ps => Preload_Media ps
  end.

(** [db.Preload("Media").First(&post, id)] *)
Definition First_Preload_Media (id : N) : M (result Post.t) :=
  do r <- First PostModel id;
  match r with
  | Error e => ret (Error e)
  | Ok p =>
      do r' <- Preload_Media [p];
      match r' with
      | Error e => ret (Error e)
      | Ok [p'] => ret (Ok p')
      | Ok _ => ret (Ok p)
      end
  end.

End gorm.

(** ** The handlers (package [controllers])

    A handler takes what it reads from the gin context: the decoded body,
    the query parameters, and the [:id] path parameter as the number it
    denotes (a path parameter that is no number is outside the model). *)

Module controllers.

Definition StatusOK : nat := 200%nat.
Definition StatusCreated : nat := 201%nat.
Definition StatusBadRequest : nat := 400%nat.
Definition StatusNotFound : nat := 404%nat.
Definition StatusInternalServerError : nat := 500%nat.

(** A request body as the JSON decoder leaves it: not decodable, or
    decoded into the struct, a field the document omits being left at its
    zero value. *)
Inductive Body (A : Type) := Malformed | Json (a : A).
Arguments Malformed {A}.
Arguments Json {A} a.

Inductive bound (A : Type) := Bound (a : A) | BindError (msg : string).
Arguments Bound {A} a.
Arguments BindError {A} msg.

(** [c.ShouldBindJSON(&x)]: decode, then check the [binding:"required"]
    fields, which must not be at their zero value.  [required] lists the
    values of those fields. *)
Definition ShouldBindJSON {A} (required : A -> list string) (b : Body A) : bound A :=
  match b with
  | Malformed => BindError "invalid character"
  | Json a =>
      if forallb (fun s => negb (is_empty s)) (required a) then Bound a
      else BindError "Field validation failed on the 'required' tag"
  end.

Definition Page_required (p : Page.t) : list string := [Page.Title p; Page.Content p].
Definition Post_required (p : Post.t) : list string := [Post.Title p; Post.Content p].

(** [c.Query(k)]: the empty string when the request has no such
    parameter. *)
Definition Query (q : gmap string string) (k : string) : string := default "" (q !! k).

(** The deferred closure of the write handlers:
    [if r := recover(); r != nil { tx.Rollback() }]. *)
Definition rollback_on_panic : M unit := gorm.Rollback ;; ret tt.

Definition fail (status : nat) (msg : string) : M unit :=
  JSON status (HTTPError status msg).

(** *** Pages *)

Definition GetPages (q : gmap string string) : M unit :=
  let title := Query q "title" in
  let author := Query q "author" in
  let query := gorm.db in
  let query := if negb (is_empty title)
               then gorm.Where query (ILike "title" ("%" ++ title ++ "%")) else query in
  let query := if negb (is_empty author)
               then gorm.Where query (Equal "author" author) else query in
  do r <- gorm.Find gorm.PageModel query;
  match r with
  | Error err => fail StatusInternalServerError (Error_ err)
  | Ok pages => JSON StatusOK (Pages pages)
  end.

Definition GetPage (id : N) : M unit :=
  do r <- gorm.First gorm.PageModel id;
  match r with
  | Error ErrRecordNotFound => fail StatusNotFound "Page not found"
  | Error err => fail StatusInternalServerError (Error_ err)
  | Ok page => JSON StatusOK (OnePage page)
  end.

Definition CreatePage (body : Body Page.t) : M unit :=
  match ShouldBindJSON Page_required body with
  | BindError msg => fail StatusBadRequest msg
  | Bound page =>
      if is_empty (Page.Title page) then fail StatusBadRequest "Title is required"
      else if is_empty (Page.Content page) then fail StatusBadRequest "Content is required"
      else
        gorm.Begin ;;
        defer_recover rollback_on_panic
          (do r <- gorm.Create gorm.PageModel page;
           match r with
           | Error err =>
               gorm.Rollback ;;
               fail StatusInternalServerError (Error_ err)
           | Ok page =>
               do c <- gorm.Commit;
               match c with
               | Error err => fail StatusInternalServerError (Error_ err)
               | Ok _ => JSON StatusCreated (OnePage page)
               end
           end)
  end.

Definition UpdatePage (id : N) (body : Body Page.t) : M unit :=
  do r <- gorm.First gorm.PageModel id;
  match r with
  | Error ErrRecordNotFound => fail StatusNotFound "Page not found"
  | Error err => fail StatusInternalServerError (Error_ err)
  | Ok existingPage =>
      match ShouldBindJSON Page_required body with
      | BindError msg => fail StatusBadRequest msg
      | Bound updateData =>
          let existingPage :=
            if negb (is_empty (Page.Title updateData))
            then Page.with_Title (Page.Title updateData) existingPage
            else existingPage in
          let existingPage :=
            if negb (is_empty (Page.Content updateData))
            then Page.with_Content (Page.Content updateData) existingPage
            else existingPage in
          gorm.Begin ;;
          defer_recover rollback_on_panic
            (do r <- gorm.Save gorm.PageModel existingPage;
             match r with
             | Error err =>
                 gorm.Rollback ;;
                 fail StatusInternalServerError (Error_ err)
             | Ok existingPage =>
                 do c <- gorm.Commit;
                 match c with
                 | Error err => fail StatusInternalServerError (Error_ err)
                 | Ok _ => JSON StatusOK (OnePage existingPage)
                 end
             end)
      end
  end.

Definition DeletePage (id : N) : M unit :=
  do r <- gorm.First gorm.PageModel id;
  match r with
  | Error ErrRecordNotFound => fail StatusNotFound "Page not found"
  | Error err => fail StatusInternalServerError (Error_ err)
  | Ok page =>
      gorm.Begin ;;
      defer_recover rollback_on_panic
        (do r <- gorm.Delete gorm.PageModel page;
         match r with
         | Error err =>
             gorm.Rollback ;;
             fail StatusInternalServerError (Error_ err)
         | Ok _ =>
             do c <- gorm.Commit;
             match c with
             | Error err => fail StatusInternalServerError (Error_ err)
             | Ok _ => JSON StatusOK (H_message "Page deleted successfully")
             end
         end)
  end.

(** *** Posts *)

Definition GetPosts (q : gmap string string) : M unit :=
  let title := Query q "title" in
  let author := Query q "author" in
  let query := gorm.db in
  let query := if negb (is_empty title)
               then gorm.Where query (ILike "title" ("%" ++ title ++ "%")) else query in
  let query := if negb (is_empty author)
               then gorm.Where query (Equal "author" author) else query in
  do r <- gorm.Find_Preload_Media query;
  match r with
  | Error err => fail StatusInternalServerError (Error_ err)
  | Ok posts => JSON StatusOK (Posts posts)
  end.

Definition GetPost (id : N) : M unit :=
  do r <- gorm.First_Preload_Media id;
  match r with
  | Error ErrRecordNotFound => fail StatusNotFound "Post not found"
  | Error err => fail StatusInternalServerError (Error_ err)
  | Ok post => JSON StatusOK (OnePost post)
  end.

Definition CreatePost (body : Body Post.t) : M unit :=
  match ShouldBindJSON Post_required body with
  | BindError msg => fail StatusBadRequest msg
  | Bound post =>
      if is_empty (Post.Title post) then fail StatusBadRequest "Title is required"
      else if is_empty (Post.Content post) then fail StatusBadRequest "Content is required"
      else
        gorm.Begin ;;
        defer_recover rollback_on_panic
          (do r <- gorm.Create gorm.PostModel post;
           match r with
           | Error err =>
               gorm.Rollback ;;
               fail StatusInternalServerError (Error_ err)
           | Ok post =>
               do c <- gorm.Commit;
               match c with
               | Error err => fail StatusInternalServerError (Error_ err)
               | Ok _ => JSON StatusCreated (OnePost post)
               end
           end)
  end.

Definition UpdatePost (id : N) (body : Body Post.t) : M unit :=
  do r <- gorm.First gorm.PostModel id;
  match r with
  | Error ErrRecordNotFound => fail StatusNotFound "Post not found"
  | Error err => fail StatusInternalServerError (Error_ err)
  | Ok existingPost =>
      match ShouldBindJSON Post_required body with
      | BindError msg => fail StatusBadRequest msg
      | Bound updateData =>
          let existingPost :=
            if negb (is_empty (Post.Title updateData))
            then Post.with_Title (Post.Title updateData) existingPost
            else existingPost in
          let existingPost :=
            if negb (is_empty (Post.Content updateData))
            then Post.with_Content (Post.Content updateData) existingPost
            else existingPost in
          let existingPost :=
            if negb (is_empty (Post.Author updateData))
            then Post.with_Author (Post.Author updateData) existingPost
            else existingPost in
          gorm.Begin ;;
          defer_recover rollback_on_panic
            (do r <- gorm.Save gorm.PostModel existingPost;
             match r with
             | Error err =>
                 gorm.Rollback ;;
                 fail StatusInternalServerError (Error_ err)
             | Ok existingPost =>
                 do c <- gorm.Commit;
                 match c with
                 | Error err => fail StatusInternalServerError (Error_ err)
                 | Ok _ => JSON StatusOK (OnePost existingPost)
                 end
             end)
      end
  end.

Definition DeletePost (id : N) : M unit :=
  do r <- gorm.First gorm.PostModel id;
  match r with
  | Error ErrRecordNotFound => fail StatusNotFound "Post not found"
  | Error err => fail StatusInternalServerError (Error_ err)
  | Ok post =>
      gorm.Begin ;;
      defer_recover rollback_on_panic
        (do r <- gorm.Delete gorm.PostModel post;
         match r with
         | Error err =>
             gorm.Rollback ;;
             fail StatusInternalServerError (Error_ err)
         | Ok _ =>
             do c <- gorm.Commit;
             match c with
             | Error err => fail StatusInternalServerError (Error_ err)
             | Ok _ => JSON StatusOK (H_message "Post deleted successfully")
             end
         end)
  end.

(** *** Media *)

Definition GetMedia (q : gmap string string) : M unit :=
  let mediaType := Query q "type" in
  let query := gorm.db in
  let query := if negb (is_empty mediaType)
               then gorm.Where query (Equal "type" mediaType) else query in
  do r <- gorm.Find gorm.MediaModel query;
  match r with
  | Error err => fail StatusInternalServerError (Error_ err)
  | Ok media => JSON StatusOK (MediaList media)
  end.

Definition GetMediaByID (id : N) : M unit :=
  do r <- gorm.First gorm.MediaModel id;
  match r with
  | Error ErrRecordNotFound => fail StatusNotFound "Media not found"
  | Error err => fail StatusInternalServerError (Error_ err)
  | Ok media => JSON StatusOK (OneMedia media)
  end.

Section MediaBinding.
(** Whether [models.Media] tags [URL] and [Type] as
    [binding:"required"]; see [Media.t]. *)
Variables url_required type_required : bool.

Definition Media_required (m : Media.t) : list string :=
  ((if url_required then [Media.URL m] else []) ++
   (if type_required then [Media.Type_ m] else []))%list.

Definition CreateMedia (body : Body Media.t) : M unit :=
  match ShouldBindJSON Media_required body with
  | BindError msg => fail StatusBadRequest msg
  | Bound media =>
      if is_empty (Media.URL media) then fail StatusBadRequest "URL is required"
      else if is_empty (Media.Type_ media) then fail StatusBadRequest "Type is required"
      else
        gorm.Begin ;;
        defer_recover rollback_on_panic
          (do r <- gorm.Create gorm.MediaModel media;
           match r with
           | Error err =>
               gorm.Rollback ;;
               fail StatusInternalServerError (Error_ err)
           | Ok media =>
               do c <- gorm.Commit;
               match c with
               | Error err => fail StatusInternalServerError (Error_ err)
               | Ok _ => JSON StatusCreated (OneMedia media)
               end
           end)
  end.
End MediaBinding.

Definition DeleteMedia (id : N) : M unit :=
  do r <- gorm.First gorm.MediaModel id;
  match r with
  | Error ErrRecordNotFound => fail StatusNotFound "Media not found"
  | Error err => fail StatusInternalServerError (Error_ err)
  | Ok media =>
      gorm.Begin ;;
      defer_recover rollback_on_panic
        (do r <- gorm.Delete gorm.MediaModel media;
         match r with
         | Error err =>
             gorm.Rollback ;;
             fail StatusInternalServerError (Error_ err)
         | Ok _ =>
             do c <- gorm.Commit;
             match c with
             | Error err => fail StatusInternalServerError (Error_ err)
             | Ok _ => JSON StatusOK (H_message "Media deleted successfully")
             end
         end)
  end.

End controllers.

(** ** Start-up (package [main])

    [main] connects to the database, runs the migrations, sets up the
    router and serves.  What it meets on the outside is given by an
    environment; what it does is kept as the list of the calls it makes, in
    order.  [log.Fatalf] prints and exits the process at once: no deferred
    call runs after it. *)

Module app.

(** How [m.Up()] comes back. *)
Inductive UpResult := UpDone | ErrNoChange | UpError (msg : string).

(** The environment variables, and how each call on the outside comes back
    ([None]: without error). *)
Record Env := mkEnv {
  Getenv : string -> string;
  ConnectDB : option string;          (* utils.ConnectDB() *)
  DB_ : option string;                (* db.DB() *)
  migrate_New : option string;        (* migrate.New(source, databaseURL) *)
  Up : UpResult;                      (* m.Up() *)
  Run : option string                 (* router.Run(":8080") *)
}.

Inductive Event :=
| Connect
| MigrateNew (source url : string)
| MigrateUp
| MigrateClose                        (* the deferred m.Close() *)
| Println (msg : string)
| Fatalf (msg : string)
| SetReleaseMode                      (* gin.SetMode(gin.ReleaseMode) *)
| InitializeRoutes
| RouterRun
| SqlClose.                           (* the deferred sqlDB.Close() *)

(** [fmt.Sprintf("postgres://%s:%s@%s:%s/%s?sslmode=disable", ...)] *)
Definition databaseURL (e : Env) : string :=
  "postgres://" ++ Getenv e "DB_USER" ++ ":" ++ Getenv e "DB_PASSWORD" ++
  "@" ++ Getenv e "DB_HOST" ++ ":" ++ Getenv e "DB_PORT" ++
  "/" ++ Getenv e "DB_NAME" ++ "?sslmode=disable".

(** [runMigrations]: the calls it makes and the error it returns. *)
Definition runMigrations (e : Env) : list Event * option string :=
  let new := MigrateNew "file://migrations" (databaseURL e) in
  match migrate_New e with
  | Some err => ([new], Some ("failed to create migrate instance: " ++ err))
  | None =>
      match Up e with
      | UpError err =>
          ([new; MigrateUp; MigrateClose], Some ("failed to run migrations: " ++ err))
      | _ =>
          ([new; MigrateUp; Println "Migrations completed successfully"; MigrateClose],
           None)
      end
  end.

(** [main]: the calls it makes until the process ends. *)
Definition main (e : Env) : list Event :=
  Connect ::
  match ConnectDB e with
  | Some err => [Fatalf ("Could not connect to the database: " ++ err)]
  | None =>
      match DB_ e with
      | Some err => [Fatalf ("Failed to get database instance: " ++ err)]
      | None =>
          let env := Getenv e "ENV" in
          let env := if is_empty env then "development" else env in
          Println "Running database migrations..." ::
          (fst (runMigrations e) ++
           match snd (runMigrations e) with
           | Some err => [Fatalf ("Failed to run migrations: " ++ err)]
           | None =>
               (if String.eqb env "production" then [SetReleaseMode] else []) ++
               [InitializeRoutes; RouterRun] ++
               match Run e with
               | Some err => [Fatalf ("Failed to run server: " ++ err)]
               | None => [SqlClose]
               end
           end)%list
      end
  end.

(** The environment lets the server start. *)
Definition ready (e : Env) : Prop :=
  ConnectDB e = None /\ DB_ e = None /\ migrate_New e = None /\
  (Up e = UpDone \/ Up e = ErrNoChange).

Definition is_Fatalf (ev : Event) : bool :=
  match ev with
  | Fatalf _ => true
  | _ => false
  end.

End app.

(** ** The error taxonomy of the boundary

    The boundary renders a validation error as 400, a not-found error as 404
    and a storage error as 500. *)

Inductive ErrorKind := ValidationError | NotFoundError | StorageError.

Definition kind_of (status : nat) : option ErrorKind :=
  if Nat.eqb status controllers.StatusBadRequest then Some ValidationError
  else if Nat.eqb status controllers.StatusNotFound then Some NotFoundError
  else if Nat.eqb status controllers.StatusInternalServerError then Some StorageError
  else None.

(** The kinds of the errors a run has answered with. *)
Definition errors_of (w : World) : list ErrorKind :=
  omap (fun r => kind_of (fst r)) (sent w).

(** * What the properties are stated with *)

Import controllers.

(** ** The write operations

    The routes map the create, update and delete requests of the three
    entities to their handlers.  [Create_Media] carries the two facts about
    [models.Media] that the sources do not show. *)

Inductive Operation :=
| Create_Page (body : Body Page.t)
| Update_Page (id : N) (body : Body Page.t)
| Delete_Page (id : N)
| Create_Post (body : Body Post.t)
| Update_Post (id : N) (body : Body Post.t)
| Delete_Post (id : N)
| Create_Media (url_required type_required : bool) (body : Body Media.t)
| Delete_Media (id : N).

Definition handle (op : Operation) : M unit :=
  match op with
  | Create_Page body => CreatePage body
  | Update_Page id body => UpdatePage id body
  | Delete_Page id => DeletePage id
  | Create_Post body => CreatePost body
  | Update_Post id body => UpdatePost id body
  | Delete_Post id => DeletePost id
  | Create_Media u t body => CreateMedia u t body
  | Delete_Media id => DeleteMedia id
  end.

(** A create request whose decoded payload has a required field empty. *)
Definition lacks_required (op : Operation) : bool :=
  match op with
  | Create_Page (Json p) => is_empty (Page.Title p) || is_empty (Page.Content p)
  | Create_Post (Json p) => is_empty (Post.Title p) || is_empty (Post.Content p)
  | Create_Media _ _ (Json m) => is_empty (Media.URL m) || is_empty (Media.Type_ m)
  | _ => false
  end.

(** An update or delete request whose identifier names no row. *)
Definition target_missing (op : Operation) (db : DB) : Prop :=
  match op with
  | Update_Page id _ | Delete_Page id => pages db !! id = None
  | Update_Post id _ | Delete_Post id => posts db !! id = None
  | Delete_Media id => media db !! id = None
  | _ => False
  end.

(** An update or delete request whose identifier names a row. *)
Definition target_stored (op : Operation) (db : DB) : Prop :=
  match op with
  | Update_Page id _ | Delete_Page id => is_Some (pages db !! id)
  | Update_Post id _ | Delete_Post id => is_Some (posts db !! id)
  | Delete_Media id => is_Some (media db !! id)
  | _ => False
  end.

(** An update request whose decoded payload leaves the title or the content
    empty: a partial payload. *)
Definition partial_update (op : Operation) : bool :=
  match op with
  | Update_Page _ (Json u) => is_empty (Page.Title u) || is_empty (Page.Content u)
  | Update_Post _ (Json u) => is_empty (Post.Title u) || is_empty (Post.Content u)
  | _ => false
  end.

(** ** Transactions *)

(** The statements of [Create], [Save] and [Delete]. *)
Definition is_statement (c : Call) : bool :=
  match c with
  | INSERT _ | UPDATE _ _ | DELETE _ _ => true
  | _ => false
  end.

(** The transactional block every write handler ends with, [c] being the
    statement sent by its [Create], [Save] or [Delete], [f] what the
    statement does to the working copy, and [status] and [payload] the
    answer once the commit went well. *)
Definition tx_block {A} (c : Call) (f : Z -> Seqs -> DB -> Seqs * result (A * DB))
    (status : nat) (payload : A -> Payload) : M unit :=
  gorm.Begin ;;
  defer_recover rollback_on_panic
    (do r <- (do o <- call c; gorm.in_tx f o);
     match r with
     | Error err =>
         gorm.Rollback ;;
         fail StatusInternalServerError (Error_ err)
     | Ok a =>
         do c <- gorm.Commit;
         match c with
         | Error err => fail StatusInternalServerError (Error_ err)
         | Ok _ => JSON status (payload a)
         end
     end).

(** How a run that opened a transaction leaves it, [w] being the world
    before, [new] the calls made and [w'] the world after:
    - the last call on the handle is a commit or a rollback;
    - unless that call panicked, the transaction is over;
    - unless a commit went well, the store is as before;
    - a statement that did not go well, and a panic of any call, make the
      last call a rollback;
    - after a commit that failed, an answer is sent only with that commit
      as the last call, and it is a storage error;
    - an error is answered only after a rollback, or after a commit that
      failed. *)
Definition settled (w : World) (new : list (Call * Outcome)) (w' : World) : Prop :=
  exists c o,
    last new = Some (c, o) /\ (c = COMMIT \/ c = ROLLBACK) /\
    (o <> Fatal -> tx w' = Closed) /\
    ((COMMIT, Good) ∉ new -> store w' = store w) /\
    (forall s o', is_statement s = true -> (s, o') ∈ new -> o' <> Good -> c = ROLLBACK) /\
    (forall c', (c', Fatal) ∈ new -> c = ROLLBACK) /\
    ((COMMIT, Bad) ∈ new -> sent w' <> sent w ->
       c = COMMIT /\ errors_of w' = (errors_of w ++ [StorageError])%list) /\
    (errors_of w' <> errors_of w -> c = ROLLBACK \/ (c = COMMIT /\ o = Bad)).

(** What a run leaves alone when it only reads. *)
Definition same_data (w w' : World) : Prop :=
  store w' = store w /\ seqs w' = seqs w /\ tx w' = tx w /\ clock w' = clock w.

(** A run of a write handler either stops before any transaction, having
    sent nothing but its lookup, or goes on into the transactional block. *)
Definition stops_early (w w' : World) : Prop :=
  store w' = store w /\ tx w' = tx w /\
  (log w' = log w \/ exists t id, log w' = (log w ++ [(SELECT_BY_ID t id, peek w)])%list).

Definition goes_on (w w' : World) : Prop :=
  exists (A : Type) (c : Call) (f : Z -> Seqs -> DB -> Seqs * result (A * DB))
         (status : nat) (payload : A -> Payload) (w1 : World),
    is_statement c = true /\ kind_of status = None /\
    w' = exec (tx_block c f status payload) w1 /\
    store w1 = store w /\ tx w1 = tx w /\ sent w1 = sent w /\
    (log w1 = log w \/ exists t id, log w1 = (log w ++ [(SELECT_BY_ID t id, Good)])%list).

(** ** The relation between posts and media *)

(** The join-table lookups in a log, each as the list of post ids that keys
    it. *)
Definition join_lookups (l : list (Call * Outcome)) : list (list N) :=
  omap (fun e => match fst e with
                 | SELECT_IN t _ ids => if String.eqb t "post_media" then Some ids else None
                 | _ => None
                 end) l.

(** The stored media a post is joined to. *)
Definition linked (db : DB) (p : Post.t) : list Media.t :=
  List.filter (fun x => bool_decide ((Post.ID p, Media.ID x) ∈ post_media db))
              (gorm.scan_all gorm.MediaModel db).

(** The posts of a batch with their relation resolved. *)
Definition resolved (db : DB) (ps : list Post.t) : list Post.t :=
  map (fun p => Post.with_Media (Some (linked db p)) p) ps.

(** The id a post is inserted under: the next value of the sequence, unless
    the payload brings its own. *)
Definition new_post_id (sq : Seqs) (p : Post.t) : N :=
  if Post.ID p =? 0 then posts_seq sq + 1 else Post.ID p.

(** ** Filters *)

(** The selection of the specification for posts: the title contains the
    [title] value without regard to case, the author equals the [author]
    value; a value that is empty selects nothing out. *)
Definition posts_selected (title author : string) (p : Post.t) : bool :=
  (is_empty title || like.contains_ci (Post.Title p) title) &&
  (is_empty author || String.eqb (Post.Author p) author).


(** What [GetPosts] and [GetPages] answer on a store that works. *)
Definition list_posts (db : DB) (sq : Seqs) (t : Z) (q : gmap string string)
  : list (nat * Payload) :=
  sent (exec (GetPosts q) (request db sq [] t)).


(** ** The non-empty fields *)

(** No stored page or post has an empty title or content, no stored media an
    empty url or type. *)
Definition required_filled (db : DB) : Prop :=
  (forall id p, pages db !! id = Some p ->
     is_empty (Page.Title p) = false /\ is_empty (Page.Content p) = false) /\
  (forall id p, posts db !! id = Some p ->
     is_empty (Post.Title p) = false /\ is_empty (Post.Content p) = false) /\
  (forall id m, media db !! id = Some m ->
     is_empty (Media.URL m) = false /\ is_empty (Media.Type_ m) = false).

(** ** Stores and payloads of the scenarios *)

(** Two posts, the first joined to the one stored media. *)
Definition two_posts : DB :=
  mkDB ∅
       (<[1 := Post.mk 1 "Test Post" "Body" "Test Author" 5 5 None]>
          (<[2 := Post.mk 2 "abc" "Body" "Other" 6 6 None]> ∅))
       (<[7 := Media.mk 7 "http://example.com/test.jpg" "image" 1 1]> ∅)
       {[ (1, 7) ]}.

Definition two_pages : DB :=
  mkDB (<[1 := Page.mk 1 "First Page" "Content 1" 5 5]>
          (<[2 := Page.mk 2 "Second Page" "Content 2" 6 6]> ∅))
       ∅ ∅ ∅.

Definition one_post : DB :=
  mkDB ∅ (<[1 := Post.mk 1 "Old Title" "Old Content" "Old Author" 5 5 None]> ∅)
       ∅ ∅.

Definition with_media_7 : DB :=
  mkDB ∅ ∅ (<[7 := Media.mk 7 "http://example.com/test.jpg" "image" 1 1]> ∅) ∅.

(** Sequences that have given out nothing yet, and sequences that have given
    out every id of the stores above. *)
Definition unused : Seqs := mkSeqs 0 0 0.
Definition used : Seqs := mkSeqs 2 2 7.

Definition a_post : Post.t := Post.mk 0 "Hello" "World" "Bob" 0 0 None.

(** The body [{"title": ..., "content": ..., "author": ..., "media": [{"id": 7}]}]. *)
Definition post_with_ref : Post.t :=
  Post.mk 0 "Test Post with Media" "This is a test post with media attachment"
          "Test Author" 0 0 (Some [Media.mk 7 "" "" 0 0]).

(** The body [{"title": "Updated Title"}]. *)
Definition title_only : Post.t := Post.mk 0 "Updated Title" "" "" 0 0 None.

(** ** Requests *)

(** The read handlers, and every handler of the three controllers. *)
Inductive Read :=
| List_Pages (q : gmap string string)
| Get_Page (id : N)
| List_Posts (q : gmap string string)
| Get_Post (id : N)
| List_Media (q : gmap string string)
| Get_Media (id : N).

Definition serve (r : Read) : M unit :=
  match r with
  | List_Pages q => GetPages q
  | Get_Page id => GetPage id
  | List_Posts q => GetPosts q
  | Get_Post id => GetPost id
  | List_Media q => GetMedia q
  | Get_Media id => GetMediaByID id
  end.

Inductive Request :=
| Reading (r : Read)
| Writing (op : Operation).

Definition run (req : Request) : M unit :=
  match req with
  | Reading r => serve r
  | Writing op => handle op
  end.

(** The calls that only read. *)
Definition is_query (c : Call) : bool :=
  match c with
  | SELECT_BY_ID _ _ | SELECT _ _ | SELECT_IN _ _ _ => true
  | _ => false
  end.

(** A response as the handlers mean it: an error body carries the status it
    is sent with, and that status is 400, 404 or 500; any other body goes
    with a status that is none of these. *)
Definition well_formed (x : nat * Payload) : bool :=
  match snd x with
  | HTTPError code _ =>
      Nat.eqb code (fst x) && match kind_of (fst x) with Some _ => true | None => false end
  | _ => match kind_of (fst x) with Some _ => false | None => true end
  end.

(** What a run has answered: one well-formed response, or nothing, and
    nothing only when the plan held a panic. *)
Definition answered (w w' : World) : Prop :=
  (exists x, sent w' = (sent w ++ [x])%list /\ well_formed x = true) \/
  (sent w' = sent w /\ Fatal ∈ plan w).

(** The plan of [w'] is what is left of the plan of [w]. *)
Definition later (w w' : World) : Prop :=
  exists used, plan w = (used ++ plan w')%list.

(** A computation that answers nothing, and panics only on a planned
    panic. *)
Definition silent {A} (m : M A) : Prop :=
  forall w r w', m w = (r, w') ->
    sent w' = sent w /\ later w w' /\ (r = Panic -> Fatal ∈ plan w).

(** A computation that only queries. *)
Definition quiet {A} (m : M A) : Prop :=
  forall w r w', m w = (r, w') ->
    same_data w w' /\
    exists new, log w' = (log w ++ new)%list /\
                Forall (fun e => is_query (fst e) = true) new.

(** A computation that answers once, unless it panics. *)
Definition once (m : M unit) : Prop :=
  forall w r w', m w = (r, w') ->
    later w w' /\
    match r with
    | Ret _ => exists x, sent w' = (sent w ++ [x])%list /\ well_formed x = true
    | Panic => sent w' = sent w /\ Fatal ∈ plan w
    end.

Definition answers (m : M unit) : Prop := forall w, answered w (exec m w).


Definition not_found (r : Read) : string :=
  match r with
  | Get_Page _ => "Page not found"
  | Get_Post _ => "Post not found"
  | Get_Media _ => "Media not found"
  | _ => ""
  end.

(** The handlers whose first call on the handle is a query: all but the
    create handlers. *)
Definition queries_first (req : Request) : bool :=
  match req with
  | Writing (Create_Page _) | Writing (Create_Post _) | Writing (Create_Media _ _ _) => false
  | _ => true
  end.

(** The selection of [GetMedia]: the type equals the [type] value; a value
    that is empty selects nothing out. *)
Definition media_selected (type : string) (m : Media.t) : bool :=
  is_empty type || String.eqb (Media.Type_ m) type.

Definition list_media (db : DB) (sq : Seqs) (t : Z) (q : gmap string string)
  : list (nat * Payload) :=
  sent (exec (GetMedia q) (request db sq [] t)).

(** ** Creates *)

(** The id a struct is inserted under: its own when it brings one, the next
    value of the sequence otherwise. *)
Definition given_or_next (given next : N) : N := if given =? 0 then next else given.

(** The get-by-id handler for the entity of a response body. *)
Definition fetch (x : Payload) : M unit :=
  match x with
  | OnePage p => GetPage (Page.ID p)
  | OnePost p => GetPost (Post.ID p)
  | OneMedia m => GetMediaByID (Media.ID m)
  | _ => ret tt
  end.

(** A response body without the media list of its post. *)
Definition sans_media (x : Payload) : Payload :=
  match x with
  | OnePost p => OnePost (Post.with_Media None p)
  | _ => x
  end.

Definition is_create (op : Operation) : bool :=
  match op with
  | Create_Page _ | Create_Post _ | Create_Media _ _ _ => true
  | _ => false
  end.

(** ** Updates and deletes *)

Definition is_delete (op : Operation) : bool :=
  match op with
  | Delete_Page _ | Delete_Post _ | Delete_Media _ => true
  | _ => false
  end.

(** The identifier in the path of an update or delete request. *)
Definition target (op : Operation) : N :=
  match op with
  | Update_Page id _ | Delete_Page id
  | Update_Post id _ | Delete_Post id
  | Delete_Media id => id
  | _ => 0
  end.

(** The store without the row a delete request names. *)
Definition without (op : Operation) (db : DB) : DB :=
  match op with
  | Delete_Page id => gorm.with_pages (delete id (pages db)) db
  | Delete_Post id => gorm.with_posts (delete id (posts db)) db
  | Delete_Media id => gorm.with_media (delete id (media db)) db
  | _ => db
  end.

Definition deleted_message (op : Operation) : string :=
  match op with
  | Delete_Page _ => "Page deleted successfully"
  | Delete_Post _ => "Post deleted successfully"
  | Delete_Media _ => "Media deleted successfully"
  | _ => ""
  end.

(** No join row names the post or media of a delete request. *)
Definition unjoined (op : Operation) (db : DB) : Prop :=
  match op with
  | Delete_Post id => forall m, (id, m) ∉ post_media db
  | Delete_Media id => forall p, (p, id) ∉ post_media db
  | _ => True
  end.

(** The read that shows what a write request worked on. *)
Definition reread (op : Operation) : Read :=
  match op with
  | Update_Page id _ | Delete_Page id => Get_Page id
  | Update_Post id _ | Delete_Post id => Get_Post id
  | Delete_Media id => Get_Media id
  | Create_Page _ => List_Pages ∅
  | Create_Post _ => List_Posts ∅
  | Create_Media _ _ _ => List_Media ∅
  end.

(** A create or update request whose body cannot be decoded. *)
Definition malformed (op : Operation) : bool :=
  match op with
  | Create_Page Malformed | Update_Page _ Malformed
  | Create_Post Malformed | Update_Post _ Malformed
  | Create_Media _ _ Malformed => true
  | _ => false
  end.

(** The id the row of a create request is inserted under. *)
Definition new_id (op : Operation) (sq : Seqs) : N :=
  match op with
  | Create_Page (Json p) => given_or_next (Page.ID p) (pages_seq sq + 1)
  | Create_Post (Json p) => given_or_next (Post.ID p) (posts_seq sq + 1)
  | Create_Media _ _ (Json m) => given_or_next (Media.ID m) (media_seq sq + 1)
  | _ => 0
  end.

(** A create request whose row would take the id of a stored row. *)
Definition id_taken (op : Operation) (db : DB) (sq : Seqs) : Prop :=
  match op with
  | Create_Page (Json _) => is_Some (pages db !! new_id op sq)
  | Create_Post (Json _) => is_Some (posts db !! new_id op sq)
  | Create_Media _ _ (Json _) => is_Some (media db !! new_id op sq)
  | _ => False
  end.

(** What a write request leaves alone: a page request the posts, the media
    and the join rows; a media request the pages, the posts and the join
    rows; a delete of a post the pages, the media and the join rows; a create
    or update of a post the pages. *)
Definition others_same (op : Operation) (db db' : DB) : Prop :=
  match op with
  | Create_Page _ | Update_Page _ _ | Delete_Page _ =>
      posts db' = posts db /\ media db' = media db /\ post_media db' = post_media db
  | Create_Media _ _ _ | Delete_Media _ =>
      pages db' = pages db /\ posts db' = posts db /\ post_media db' = post_media db
  | Delete_Post _ =>
      pages db' = pages db /\ media db' = media db /\ post_media db' = post_media db
  | Create_Post _ | Update_Post _ _ =>
      pages db' = pages db
  end.

Definition is_update (op : Operation) : bool :=
  match op with
  | Update_Page _ _ | Update_Post _ _ => true
  | _ => false
  end.

(** A computation that makes at most [n] calls on the handle. *)
Definition within {A} (n : nat) (m : M A) : Prop :=
  forall w r w', m w = (r, w') ->
    exists new, log w' = (log w ++ new)%list /\ (length new <= n)%nat.

(** The calls a handler may make on the handle: a read three (the query,
    and for posts the join lookup and the media read), a create four (begin,
    insert, commit or rollback, and the rollback of the deferred closure),
    an update or delete one more for its lookup. *)
Definition budget (req : Request) : nat :=
  match req with
  | Reading _ => 3%nat
  | Writing op => if is_create op then 4%nat else 5%nat
  end.

(** ** The required fields *)

(** No stored page or post has an empty title or content. *)
Definition titles_filled (db : DB) : Prop :=
  (forall id p, pages db !! id = Some p ->
     is_empty (Page.Title p) = false /\ is_empty (Page.Content p) = false) /\
  (forall id p, posts db !! id = Some p ->
     is_empty (Post.Title p) = false /\ is_empty (Post.Content p) = false).

(** No stored media has an empty url or type. *)
Definition urls_filled (db : DB) : Prop :=
  forall id m, media db !! id = Some m ->
    is_empty (Media.URL m) = false /\ is_empty (Media.Type_ m) = false.

(** The requests that save a post. *)
Definition saves_post (op : Operation) : bool :=
  match op with
  | Create_Post _ | Update_Post _ _ => true
  | _ => false
  end.

(** What a write request keeps of the two, [db] being the store before. *)
Definition kept (op : Operation) (db db' : DB) : Prop :=
  (titles_filled db -> titles_filled db') /\
  (saves_post op = false -> urls_filled db -> urls_filled db').

(** * Properties *)

(** ** [ILIKE] against containment *)

Module like_facts.
Import like.

Lemma chars_app (a b : string) : chars (a ++ b) = (chars a ++ chars b)%list.
Proof.
  unfold chars. induction a as [|c a IH]; simpl; [reflexivity|].
  now rewrite IH.
Qed.

Lemma fold_case_wrap (v : string) :
  fold_case ("%" ++ v ++ "%") = (percent :: fold_case v ++ [percent])%list.
Proof.
  unfold fold_case. rewrite !chars_app. simpl.
  rewrite map_app. reflexivity.
Qed.

Lemma meta_lower (c : ascii) : meta c = false -> meta (lower c) = false.
Proof.
  destruct c as [[] [] [] [] [] [] [] []]; vm_compute; congruence.
Qed.

Lemma plain_fold_case (v : string) :
  plain v = true -> forallb (fun c => negb (meta c)) (fold_case v) = true.
Proof.
  unfold plain, fold_case. induction (chars v) as [|c l IH]; simpl; [reflexivity|].
  intros H. apply andb_prop in H as [Hc Hl].
  apply negb_true_iff in Hc. rewrite (meta_lower _ Hc). simpl. auto.
Qed.

Lemma matches_percent (p s : list ascii) :
  matches (percent :: p) s =
  matches p s || match s with [] => false | _ :: s' => matches (percent :: p) s' end.
Proof. destruct s; reflexivity. Qed.

Lemma matches_literal (c : ascii) (p s : list ascii) :
  meta c = false ->
  matches (c :: p) s =
  match s with [] => false | e :: s' => ch_eqb c e && matches p s' end.
Proof.
  unfold meta. intros H.
  apply orb_false_elim in H as [H Hb]. apply orb_false_elim in H as [Hp Hu].
  simpl. rewrite Hp, Hu, Hb. reflexivity.
Qed.

Lemma matches_any (s : list ascii) : matches [percent] s = true.
Proof.
  induction s as [|e s IH]; [reflexivity|].
  rewrite matches_percent, IH. apply orb_true_r.
Qed.

(** A run of literal characters followed by [%] asks for a prefix. *)
Lemma matches_prefix (w s : list ascii) :
  forallb (fun c => negb (meta c)) w = true ->
  matches (w ++ [percent]) s = is_prefix w s.
Proof.
  revert s. induction w as [|c w IH]; intros s Hw.
  - simpl app. rewrite matches_any. destruct s; reflexivity.
  - simpl in Hw. apply andb_prop in Hw as [Hc Hw].
    apply negb_true_iff in Hc.
    simpl app. rewrite (matches_literal _ _ _ Hc).
    destruct s as [|e s]; [reflexivity|]. simpl. now rewrite IH.
Qed.

Lemma matches_infix (w s : list ascii) :
  forallb (fun c => negb (meta c)) w = true ->
  matches (percent :: w ++ [percent]) s = occurs w s.
Proof.
  intros Hw. induction s as [|e s IH].
  - rewrite matches_percent, (matches_prefix _ _ Hw). reflexivity.
  - rewrite matches_percent, (matches_prefix _ _ Hw), IH. reflexivity.
Qed.

(** For a value without pattern characters, [title ILIKE '%value%'] is
    containment without regard to case. *)
Lemma ilike_contains (text v : string) :
  plain v = true -> ilike text ("%" ++ v ++ "%") = contains_ci text v.
Proof.
  intros Hv. unfold ilike, contains_ci.
  rewrite fold_case_wrap. apply matches_infix, plain_fold_case, Hv.
Qed.

End like_facts.

(** ** Runs of the storage calls *)

Lemma same_data_refl (w : World) : same_data w w.
Proof. repeat split. Qed.

Lemma same_data_trans (w1 w2 w3 : World) :
  same_data w1 w2 -> same_data w2 w3 -> same_data w1 w3.
Proof. unfold same_data. intros (-> & -> & -> & ->) (-> & -> & -> & ->). repeat split. Qed.

Lemma filter_filter_bool {A} (f g : A -> bool) (l : list A) :
  List.filter f (List.filter g l) = List.filter (fun x => g x && f x) l.
Proof.
  induction l as [|a l IH]; simpl; [reflexivity|].
  destruct (g a); simpl; [destruct (f a)|]; now rewrite IH.
Qed.

Lemma join_lookups_app (l1 l2 : list (Call * Outcome)) :
  join_lookups (l1 ++ l2) = (join_lookups l1 ++ join_lookups l2)%list.
Proof. apply omap_app. Qed.

(** Handing the media read for a batch back to one of its posts gives that
    post exactly the media it is joined to. *)
Lemma media_of_linked (db : DB) (ids : list N) (p : Post.t) :
  Post.ID p ∈ ids ->
  gorm.media_of (gorm.joins_of ids db)
    (gorm.media_in (map snd (gorm.joins_of ids db)) db) p = linked db p.
Proof.
  intros Hp. unfold gorm.media_of, gorm.media_in, linked.
  rewrite filter_filter_bool. apply List.filter_ext_in. intros x _.
  unfold gorm.joins_of.
  destruct (bool_decide_reflect ((Post.ID p, Media.ID x) ∈ post_media db)) as [Hin|Hout].
  - assert (Hj : (Post.ID p, Media.ID x) ∈
        List.filter (fun pm => bool_decide (pm.1 ∈ ids)) (elements (post_media db))).
    { apply list_elem_of_In, List.filter_In. split.
      - apply list_elem_of_In, elem_of_elements, Hin.
      - simpl. apply bool_decide_eq_true, Hp. }
    rewrite (bool_decide_eq_true_2 _ Hj), andb_true_r.
    apply bool_decide_eq_true, list_elem_of_fmap.
    exists (Post.ID p, Media.ID x). split; [reflexivity|exact Hj].
  - rewrite andb_comm, bool_decide_eq_false_2; [reflexivity|].
    intros Hj. apply Hout.
    apply list_elem_of_In, List.filter_In in Hj as [Hj _].
    apply list_elem_of_In, elem_of_elements in Hj. exact Hj.
Qed.

Lemma media_of_nil (joins : list (N * N)) (p : Post.t) : gorm.media_of joins [] p = [].
Proof. reflexivity. Qed.

Lemma media_in_nil (db : DB) : gorm.media_in [] db = [].
Proof.
  unfold gorm.media_in.
  induction (gorm.scan_all gorm.MediaModel db) as [|x l IH]; simpl in *; auto.
Qed.

Lemma resolve_batch (db : DB) (ps : list Post.t) :
  let joins := gorm.joins_of (map Post.ID ps) db in
  map (fun p => Post.with_Media
                  (Some (gorm.media_of joins (gorm.media_in (map snd joins) db) p)) p) ps
  = resolved db ps.
Proof.
  intros joins. unfold resolved. apply map_ext_in. intros p Hp.
  unfold joins. rewrite media_of_linked; [reflexivity|].
  apply list_elem_of_fmap. exists p. split; [reflexivity|].
  apply list_elem_of_In, Hp.
Qed.

Ltac finish := repeat split; intros; try assumption; try reflexivity; try discriminate;
  try (match goal with H : Ret (Ok _) = Ret (Ok _) |- _ => injection H as <- end; reflexivity).

Local Opaque gorm.joins_of gorm.media_in gorm.media_of.

(** [Preload("Media")] on a batch: one join-table lookup keyed by the ids of
    the whole batch, none for an empty batch; a batch that comes back has
    every post's relation resolved. *)
Lemma Preload_Media_run (ps : list Post.t) (w : World) :
  forall r w', gorm.Preload_Media ps w = (r, w') ->
    same_data w w' /\ sent w' = sent w /\
    join_lookups (log w') =
      (join_lookups (log w) ++ match ps with [] => [] | _ :: _ => [map Post.ID ps] end)%list /\
    (forall l, r = Ret (Ok l) -> l = resolved (store w) ps) /\
    (plan w = [] -> plan w' = [] /\ r = Ret (Ok (resolved (store w) ps))).
Proof.
  intros r w'. destruct ps as [|p0 ps].
  { intros [= <- <-]. rewrite app_nil_r. finish. }
  unfold gorm.Preload_Media. cbv beta iota zeta.
  pose proof (resolve_batch (store w) (p0 :: ps)) as Hres. cbv zeta in Hres.
  remember (p0 :: ps) as batch eqn:Hb.
  remember (map Post.ID batch) as ids eqn:Hids.
  remember (map snd (gorm.joins_of ids (store w))) as mids eqn:Hmids.
  assert (Hnil : mids = [] ->
                 map (fun p => Post.with_Media
                                 (Some (gorm.media_of (gorm.joins_of ids (store w)) [] p)) p) batch
                 = resolved (store w) batch).
  { intros E. rewrite E, media_in_nil in Hres. exact Hres. }
  clear Hb Hids.
  destruct w as [st sq t lg pl ck sn].
  unfold bind, call, get, ret, peek, advance, record.
  cbn [plan log store seqs tx clock sent with_plan with_log] in *.
  destruct pl as [|[] pl]; cbn [tl];
    try (intros [= <- <-]; cbn; rewrite join_lookups_app; cbn; finish; fail).
  - (* no plan left *)
    cbn. rewrite <- Hmids. destruct mids as [|mid mids].
    + intros [= <- <-]. cbn. rewrite join_lookups_app. cbn.
      rewrite (Hnil eq_refl). finish.
    + cbn. intros [= <- <-]. cbn. rewrite !join_lookups_app. cbn.
      rewrite app_nil_r. rewrite Hres. finish.
  - (* the lookup goes well *)
    cbn. rewrite <- Hmids. destruct mids as [|mid mids].
    + intros [= <- <-]. cbn. rewrite join_lookups_app. cbn.
      rewrite (Hnil eq_refl). finish.
    + destruct pl as [|[] pl]; cbn; intros [= <- <-]; cbn;
        rewrite !join_lookups_app; cbn; rewrite app_nil_r, ?Hres; finish.
Qed.
Lemma Find_run {R} (m : gorm.Model R) (conds : list Cond) (w : World) :
  forall r w', gorm.Find m conds w = (r, w') ->
    same_data w w' /\ sent w' = sent w /\
    log w' = (log w ++ [(SELECT (gorm.table m) conds, peek w)])%list /\
    (forall l, r = Ret (Ok l) ->
       exists keep, gorm.compile m conds = Some keep /\
                    l = List.filter keep (gorm.scan_all m (store w))) /\
    (plan w = [] ->
       plan w' = [] /\
       r = Ret (match gorm.compile m conds with
                | None => Error (ErrSQL "column does not exist")
                | Some keep => Ok (List.filter keep (gorm.scan_all m (store w)))
                end)).
Proof.
  intros r w'. unfold gorm.Find, bind, call, get, ret.
  destruct w as [st sq t lg pl ck sn]. unfold peek, advance, record. cbn.
  destruct pl as [|[] pl]; cbn; try (intros [= <- <-]; cbn; finish; fail).
  - destruct (gorm.compile m conds) as [keep|]; intros [= <- <-]; cbn; finish.
    injection H as <-. eauto.
  - destruct (gorm.compile m conds) as [keep|]; intros [= <- <-]; cbn; finish.
    injection H as <-. eauto.
Qed.

Lemma First_run {R} (m : gorm.Model R) (id : N) (w : World) :
  forall r w', gorm.First m id w = (r, w') ->
    same_data w w' /\ sent w' = sent w /\ plan w' = tl (plan w) /\
    log w' = (log w ++ [(SELECT_BY_ID (gorm.table m) id, peek w)])%list /\
    match r with
    | Panic => peek w = Fatal
    | Ret (Error e) =>
        (peek w = Bad /\ e <> ErrRecordNotFound) \/
        (peek w = Good /\ e = ErrRecordNotFound /\ gorm.rows m (store w) !! id = None)
    | Ret (Ok x) =>
        peek w = Good /\
        exists x0, gorm.rows m (store w) !! id = Some x0 /\ x = gorm.with_key m id x0
    end.
Proof.
  intros r w'. unfold gorm.First, bind, call, get, ret.
  destruct w as [st sq t lg pl ck sn]. unfold peek, advance, record. cbn.
  destruct pl as [|[] pl]; cbn;
    try destruct (gorm.rows m st !! id) as [x0|] eqn:E;
    intros [= <- <-]; cbn; finish; eauto.
Qed.

Lemma JSON_run (status : nat) (body : Payload) (w : World) :
  forall r w', JSON status body w = (r, w') ->
    same_data w w' /\ log w' = log w /\ plan w' = tl (plan w) /\
    match r with
    | Panic => sent w' = sent w /\ peek w = Fatal
    | Ret _ => sent w' = (sent w ++ [(status, body)])%list
    end.
Proof.
  intros r w'. unfold JSON. destruct w as [st sq t lg pl ck sn].
  unfold peek, advance. cbn.
  destruct pl as [|[] pl]; cbn; intros [= <- <-]; cbn; finish.
Qed.

Lemma exec_bind {A B} (m : M A) (k : A -> M B) (w : World) :
  exec (bind m k) w =
  match m w with
  | (Ret a, w1) => exec (k a) w1
  | (Panic, w1) => w1
  end.
Proof. unfold exec, bind. destruct (m w) as [[a|] w1]; reflexivity. Qed.

Lemma sent_panic_absurd {A} (s : list A) (x : A) : s <> (s ++ [x])%list.
Proof.
  intros H. apply (f_equal length) in H. rewrite length_app in H. cbn in H. lia.
Qed.

Lemma exec_as {A} (m : M A) (w : World) : exists r, m w = (r, exec m w).
Proof. unfold exec. destruct (m w) as [r w']. eauto. Qed.

(** The run of a list handler for posts, whatever its clauses. *)
Lemma list_posts_run (conds : list Cond) (w : World) :
  let w' := exec (do r <- gorm.Find_Preload_Media conds;
                  match r with
                  | Error err => fail StatusInternalServerError (Error_ err)
                  | Ok posts => JSON StatusOK (Posts posts)
                  end) w in
  same_data w w' /\
  (forall l, sent w' = (sent w ++ [(StatusOK, Posts l)])%list ->
     join_lookups (log w') =
       (join_lookups (log w) ++ match l with [] => [] | _ :: _ => [map Post.ID l] end)%list /\
     exists keep, gorm.compile gorm.PostModel conds = Some keep /\
       l = resolved (store w) (List.filter keep (gorm.scan_all gorm.PostModel (store w)))) /\
  (plan w = [] ->
     forall keep, gorm.compile gorm.PostModel conds = Some keep ->
       sent w' = (sent w ++ [(StatusOK,
          Posts (resolved (store w) (List.filter keep (gorm.scan_all gorm.PostModel (store w)))))])%list).
Proof.
  intros w'. assert (Hw' : w' = w') by reflexivity. unfold w' at 2 in Hw'. clearbody w'.
  rewrite exec_bind in Hw'. unfold gorm.Find_Preload_Media, bind in Hw'.
  destruct (gorm.Find gorm.PostModel conds w) as [r1 w1] eqn:E1.
  apply Find_run in E1 as (Hd1 & Hs1 & Hl1 & Hok1 & Hp1).
  pose proof Hd1 as (Hst1 & _).
  destruct r1 as [[l1|e1]|].
  - destruct (gorm.Preload_Media l1 w1) as [r2 w2] eqn:E2.
    apply Preload_Media_run in E2 as (Hd2 & Hs2 & Hl2 & Hok2 & Hp2).
    destruct (Hok1 _ eq_refl) as (keep & Hkeep & ->).
    pose proof (same_data_trans _ _ _ Hd1 Hd2) as Hd12.
    destruct r2 as [[l2|e2]|].
    + specialize (Hok2 _ eq_refl). subst l2.
      destruct (exec_as (JSON StatusOK (Posts (resolved (store w1)
                  (List.filter keep (gorm.scan_all gorm.PostModel (store w)))))) w2) as [r3 E3].
      rewrite <- Hw' in E3.
      apply JSON_run in E3 as (Hd3 & Hl3 & Hp3 & Hr3).
      split; [exact (same_data_trans _ _ _ Hd12 Hd3)|].
      split.
      * intros l Hl. destruct r3 as [[]|].
        -- rewrite Hr3, Hs2, Hs1 in Hl. apply app_inj_tail in Hl as [_ [= <-]].
           rewrite Hl3, Hl2, Hl1, join_lookups_app. cbn. rewrite app_nil_r.
           rewrite Hst1. split; [|eauto].
           unfold resolved. rewrite map_map. cbn.
           destruct (List.filter keep _); reflexivity.
        -- destruct Hr3 as [Hr3 _]. rewrite Hr3, Hs2, Hs1 in Hl.
           now apply sent_panic_absurd in Hl.
      * intros Hplan keep' Hkeep'. destruct (Hp1 Hplan) as [Hplan1 _].
        destruct (Hp2 Hplan1) as [Hplan2 _].
        rewrite Hkeep in Hkeep'. injection Hkeep' as <-.
        destruct r3 as [[]|].
        -- rewrite Hr3, Hs2, Hs1, Hst1. reflexivity.
        -- destruct Hr3 as [_ Hr3]. unfold peek in Hr3. rewrite Hplan2 in Hr3. discriminate.
    + destruct (exec_as (fail StatusInternalServerError (Error_ e2)) w2) as [r3 E3].
      rewrite <- Hw' in E3. unfold fail in E3.
      apply JSON_run in E3 as (Hd3 & Hl3 & Hp3 & Hr3).
      split; [exact (same_data_trans _ _ _ Hd12 Hd3)|].
      split.
      * intros l Hl. destruct r3 as [[]|].
        -- rewrite Hr3, Hs2, Hs1 in Hl. apply app_inj_tail in Hl as [_ Hl]. discriminate.
        -- destruct Hr3 as [Hr3 _]. rewrite Hr3, Hs2, Hs1 in Hl.
           now apply sent_panic_absurd in Hl.
      * intros Hplan keep' Hkeep'. destruct (Hp1 Hplan) as [Hplan1 _].
        destruct (Hp2 Hplan1) as [_ Hr2]. discriminate.
    + subst w'. split; [exact Hd12|]. split.
      * intros l Hl. rewrite Hs2, Hs1 in Hl. now apply sent_panic_absurd in Hl.
      * intros Hplan keep' Hkeep'. destruct (Hp1 Hplan) as [Hplan1 _].
        destruct (Hp2 Hplan1) as [_ Hr2]. discriminate.
  - destruct (exec_as (fail StatusInternalServerError (Error_ e1)) w1) as [r3 E3].
    cbn in Hw'. rewrite <- Hw' in E3. unfold fail in E3.
    apply JSON_run in E3 as (Hd3 & Hl3 & Hp3 & Hr3).
    split; [exact (same_data_trans _ _ _ Hd1 Hd3)|].
    split.
    * intros l Hl. destruct r3 as [[]|].
      -- rewrite Hr3, Hs1 in Hl. apply app_inj_tail in Hl as [_ Hl]. discriminate.
      -- destruct Hr3 as [Hr3 _]. rewrite Hr3, Hs1 in Hl.
         now apply sent_panic_absurd in Hl.
    * intros Hplan keep' Hkeep'. destruct (Hp1 Hplan) as [_ Hr1].
      rewrite Hkeep' in Hr1. discriminate.
  - subst w'. split; [exact Hd1|]. split.
    * intros l Hl. rewrite Hs1 in Hl. now apply sent_panic_absurd in Hl.
    * intros Hplan keep' Hkeep'. destruct (Hp1 Hplan) as [_ Hr1]. discriminate.
Qed.

(** ** Listing posts and pages *)

Lemma GetPosts_selects (db : DB) (sq : Seqs) (t : Z) (q : gmap string string) :
  list_posts db sq t q =
    [(StatusOK,
      Posts (resolved db
               (List.filter
                  (fun p => (is_empty (Query q "title") ||
                             like.ilike (Post.Title p) ("%" ++ Query q "title" ++ "%")) &&
                            (is_empty (Query q "author") ||
                             String.eqb (Post.Author p) (Query q "author")))
                  (gorm.scan_all gorm.PostModel db))))].
Proof.
  unfold list_posts, GetPosts. cbv zeta.
  generalize (Query q "title") (Query q "author"). intros title author.
  match goal with |- context [gorm.Find_Preload_Media ?c] => set (conds := c) end.
  destruct (list_posts_run conds (request db sq [] t)) as (_ & _ & H).
  specialize (H eq_refl). cbn [sent request store app] in H.
  destruct title as [|a title], author as [|b author]; cbn in conds; subst conds;
    (erewrite H; [|reflexivity]);
    apply (f_equal (fun l => [(StatusOK, Posts (resolved db l))]));
    apply List.filter_ext; intros p; cbn; rewrite ?andb_true_r; reflexivity.
Qed.

Lemma Query_delete_empty (q : gmap string string) (k k' : string) :
  q !! k = Some "" -> Query (delete k q) k' = Query q k'.
Proof.
  intros Hk. unfold Query. destruct (decide (k = k')) as [<-|Hne].
  - now rewrite lookup_delete_eq, Hk.
  - now rewrite lookup_delete_ne.
Qed.

(** C6 (as amended).  On a store that works, [GetPosts] answers with exactly
    the stored posts that the filters select, each with its media: no filter
    selects every post; a [title] value free of the pattern characters [%],
    [_] and backslash selects the posts whose title contains it without
    regard to case; an [author] value selects the posts whose author equals
    it; both filters together select the posts that pass both; and a filter
    given as the empty string counts as not given. *)
Theorem GetPosts_filters (db : DB) (sq : Seqs) (t : Z) (q : gmap string string) :
  like.plain (Query q "title") = true ->
  list_posts db sq t q =
    [(StatusOK,
      Posts (resolved db
               (List.filter (posts_selected (Query q "title") (Query q "author"))
                            (gorm.scan_all gorm.PostModel db))))] /\
  (forall k, q !! k = Some "" -> list_posts db sq t (delete k q) = list_posts db sq t q).
Proof.
  intros Hplain. split.
  - rewrite GetPosts_selects.
    apply (f_equal (fun l => [(StatusOK, Posts (resolved db l))])).
    apply List.filter_ext. intros p. unfold posts_selected.
    now rewrite (like_facts.ilike_contains _ _ Hplain).
  - intros k Hk. rewrite !GetPosts_selects.
    now rewrite !(Query_delete_empty q k _ Hk).
Qed.

Lemma GetPosts_filters_witness :
  like.plain (Query {[ "title" := "tEsT" ]} "title") = true /\
  list_posts two_posts used 9 {[ "title" := "tEsT" ]} =
    [(StatusOK,
      Posts [Post.mk 1 "Test Post" "Body" "Test Author" 5 5
               (Some [Media.mk 7 "http://example.com/test.jpg" "image" 1 1])])].
Proof.
  split; [reflexivity|].
  etransitivity;
    [exact (proj1 (GetPosts_filters two_posts used 9 {[ "title" := "tEsT" ]} eq_refl))|].
  vm_compute. reflexivity.
Defined.

(** C6 (as stated) fails: with [title=_] the post titled "abc" is returned
    although its title does not contain an underscore. *)
Lemma GetPosts_wildcard_counterexample :
  let q : gmap string string := {[ "title" := "_" ]} in
  list_posts two_posts used 9 q <>
    [(StatusOK,
      Posts (resolved two_posts
               (List.filter (posts_selected (Query q "title") (Query q "author"))
                            (gorm.scan_all gorm.PostModel two_posts))))].
Proof. vm_compute. discriminate. Qed.

(** ** Batches of posts *)

Lemma resolved_media (db : DB) (ps : list Post.t) (p : Post.t) :
  p ∈ resolved db ps -> Post.Media p = Some (linked db p).
Proof.
  unfold resolved. intros Hp. apply list_elem_of_fmap in Hp as (p' & -> & _).
  reflexivity.
Qed.

Lemma resolved_ids (db : DB) (ps : list Post.t) :
  map Post.ID (resolved db ps) = map Post.ID ps.
Proof. unfold resolved. rewrite map_map. reflexivity. Qed.

(** C5.  Whatever number of posts [GetPosts] returns, resolving their media
    takes one lookup of the join table, keyed by the ids of all the posts
    returned, and none when no post is returned; every returned post carries
    the stored media it is joined to. *)
Theorem GetPosts_one_lookup (db : DB) (sq : Seqs) (faults : list Outcome) (t : Z)
    (q : gmap string string) (l : list Post.t) :
  let w' := exec (GetPosts q) (request db sq faults t) in
  sent w' = [(StatusOK, Posts l)] ->
  join_lookups (log w') = match l with [] => [] | _ :: _ => [map Post.ID l] end /\
  length (join_lookups (log w')) = Nat.min 1 (length l) /\
  (forall p, p ∈ l -> Post.Media p = Some (linked db p)).
Proof.
  intros w' Hsent. unfold GetPosts in w'. cbv zeta in w'.
  match goal with w' := exec (bind (gorm.Find_Preload_Media ?c) _) _ |- _ =>
    destruct (list_posts_run c (request db sq faults t)) as (_ & H & _) end.
  destruct (H l Hsent) as (Hlog & keep & _ & Hl).
  cbn [log request join_lookups omap app] in Hlog. fold w' in Hlog.
  split; [exact Hlog|]. split.
  - rewrite Hlog. destruct l; reflexivity.
  - intros p Hp. rewrite Hl in Hp. cbn [store request] in Hp.
    exact (resolved_media _ _ _ Hp).
Qed.

Lemma GetPosts_one_lookup_witness :
  let w' := exec (GetPosts ∅) (request two_posts used [] 9) in
  sent w' =
    [(StatusOK,
      Posts [Post.mk 2 "abc" "Body" "Other" 6 6 (Some []);
             Post.mk 1 "Test Post" "Body" "Test Author" 5 5
               (Some [Media.mk 7 "http://example.com/test.jpg" "image" 1 1])])] /\
  join_lookups (log w') = [[2; 1]].
Proof.
  split; [vm_compute; reflexivity|].
  exact (proj1 (GetPosts_one_lookup two_posts used [] 9 ∅ _ eq_refl)).
Defined.

Lemma GetPost_found (db : DB) (sq : Seqs) (t : Z) (id : N) (r : Post.t) :
  posts db !! id = Some r ->
  sent (exec (GetPost id) (request db sq [] t)) =
    [(StatusOK, OnePost (Post.with_Media (Some (linked db (Post.with_ID id r)))
                                         (Post.with_ID id r)))].
Proof.
  intros Hr.
  pose proof (resolve_batch db [Post.with_ID id r]) as Hres. cbv zeta in Hres.
  unfold resolved in Hres. cbn in Hres. injection Hres as Hres.
  unfold GetPost, gorm.First_Preload_Media, gorm.First, gorm.Preload_Media.
  unfold exec, bind, call, get, ret, peek, advance, record, request.
  cbn. rewrite Hr. cbn.
  destruct (map snd (gorm.joins_of [id] db)) as [|mid mids] eqn:E.
  - cbn. rewrite media_in_nil in Hres. rewrite Hres. reflexivity.
  - cbn. rewrite Hres. reflexivity.
Qed.







(** ** The transactional block *)

Ltac mem_cases H :=
  repeat first
    [ apply elem_of_nil in H; contradiction
    | apply elem_of_cons in H as [H|H];
      [ try discriminate H;
        try (inversion H; subst;
             try match goal with
                 | Hs : is_statement _ = true |- _ => discriminate Hs
                 end)
      | ] ].

Ltac settle :=
  eexists; split; [reflexivity|]; intros Hopen;
  first
    [ exfalso; mem_cases Hopen; fail
    | do 2 eexists; split; [reflexivity|];
      split; [first [left; reflexivity|right; reflexivity]|];
      split; [first [reflexivity|intros Ho; exfalso; apply Ho; reflexivity]|];
      split; [first [reflexivity
                    |intros Hnc; exfalso; apply Hnc; repeat constructor]|];
      split;
      [ intros s o' Hs Hin Ho; mem_cases Hin;
        first [reflexivity|discriminate|exfalso; apply Ho; reflexivity]
      | split;
        [ intros c' Hin; mem_cases Hin; reflexivity
        | split;
          [ intros Hin Hsent; mem_cases Hin;
            first [ exfalso; apply Hsent; reflexivity
                  | split; [reflexivity|];
                    unfold errors_of; cbn [sent]; rewrite omap_app; reflexivity ]
          | intros Herr;
            first [ left; reflexivity
                  | right; split; reflexivity
                  | exfalso; apply Herr; reflexivity
                  | exfalso; apply Herr; unfold errors_of; cbn [sent];
                    rewrite omap_app; cbn;
                    match goal with
                    | Hk : kind_of _ = None |- _ => rewrite Hk
                    end; apply app_nil_r ] ] ] ] ].

Lemma tx_block_run {A} (c : Call) (f : Z -> Seqs -> DB -> Seqs * result (A * DB))
    (status : nat) (payload : A -> Payload) (w : World) :
  is_statement c = true -> kind_of status = None -> tx w = Idle ->
  let w' := exec (tx_block c f status payload) w in
  exists new, log w' = (log w ++ new)%list /\
              ((BEGIN, Good) ∈ new -> settled w new w').
Proof.
  intros Hc Hkind Htx w'.
  assert (Hw' : w' = exec (tx_block c f status payload) w) by reflexivity.
  clearbody w'.
  destruct w as [st sq t lg pl ck sn]. cbn in Htx. subst t.
  vm_compute in Hw'.
  repeat (first
         [ match type of Hw' with
           | context [match ?l with [] => _ | _ :: _ => _ end] =>
               is_var l; destruct l as [|[] ?]
           end
         | match type of Hw' with
           | context [f ?a ?b ?c] => destruct (f a b c) as [?sq [[? ?]|?]]
           end ]; vm_compute in Hw').
  all: fold (@app (Call * Outcome)) in Hw'; fold (@app (nat * Payload)) in Hw'.
  all: subst w'; unfold settled, errors_of; cbn [log store tx sent].
  all: rewrite <- ?app_assoc; cbn [app].
  all: settle.
Qed.

Lemma fail_run (status : nat) (msg : string) (w : World) :
  let w' := exec (fail status msg) w in
  same_data w w' /\ log w' = log w /\
  (plan w = [] -> sent w' = (sent w ++ [(status, HTTPError status msg)])%list).
Proof.
  intros w'. destruct (exec_as (fail status msg) w) as [r E]. fold w' in E.
  unfold fail in E. apply JSON_run in E as (Hd & Hl & _ & Hr).
  split; [exact Hd|]. split; [exact Hl|].
  intros Hp. destruct r as [[]|]; [exact Hr|].
  destruct Hr as [_ Hr]. unfold peek in Hr. rewrite Hp in Hr. discriminate.
Qed.

Lemma early_now (status : nat) (msg : string) (w : World) :
  stops_early w (exec (fail status msg) w).
Proof.
  destruct (fail_run status msg w) as ((Hst & _ & Htx & _) & Hlg & _).
  unfold stops_early. rewrite Hst, Htx, Hlg.
  split; [reflexivity|]. split; [reflexivity|]. left. reflexivity.
Qed.

Lemma early_after_lookup (status : nat) (msg : string) (w w1 : World) (t : string) (id : N) :
  same_data w w1 ->
  log w1 = (log w ++ [(SELECT_BY_ID t id, peek w)])%list ->
  stops_early w (exec (fail status msg) w1).
Proof.
  intros (Hst1 & _ & Htx1 & _) Hlg1.
  destruct (fail_run status msg w1) as ((Hst & _ & Htx & _) & Hlg & _).
  unfold stops_early. rewrite Hst, Htx, Hlg, Hst1, Htx1, Hlg1.
  split; [reflexivity|]. split; [reflexivity|]. right. eauto.
Qed.

Ltac after_lookup m id w :=
  rewrite exec_bind;
  let r1 := fresh "r" in let w1 := fresh "w" in let E := fresh "E" in
  destruct (gorm.First m id w) as [r1 w1] eqn:E;
  apply First_run in E as (Hd & Hs & _ & Hl & Hr);
  destruct r1 as [[x|[]]|];
  [ destruct Hr as (Hgood & _); pose proof Hl as Hl'; rewrite Hgood in Hl'
  | right; eapply early_after_lookup; eassumption ..
  | right; destruct Hd as (Hst & _ & Htx & _); unfold stops_early;
    rewrite Hst, Htx, Hl; split; [reflexivity|]; split; [reflexivity|]; right; eauto ].

Lemma handle_cases (op : Operation) (w : World) :
  let w' := exec (handle op) w in
  goes_on w w' \/ stops_early w w'.
Proof.
  intros w'. subst w'.
  destruct op as [body|id body|id|body|id body|id|u t body|id]; cbn [handle].
  - unfold CreatePage. destruct (ShouldBindJSON Page_required body) as [page|msg].
    + destruct (is_empty (Page.Title page)); [|destruct (is_empty (Page.Content page))].
      * right. apply early_now.
      * right. apply early_now.
      * left. exists Page.t, (INSERT "pages"),
          (fun t sq => gorm.insert_row gorm.PageModel t page sq), StatusCreated, OnePage, w.
        split; [reflexivity|]. split; [reflexivity|]. split; [exact eq_refl|].
        split; [reflexivity|]. split; [reflexivity|]. split; [reflexivity|].
        left. reflexivity.
    + right. apply early_now.
  - unfold UpdatePage. after_lookup gorm.PageModel id w.
    destruct (ShouldBindJSON Page_required body) as [upd|msg].
    + left. destruct Hd as (Hst & _ & Htx & _).
      eexists Page.t, (UPDATE "pages" _), (fun t sq => gorm.save_row gorm.PageModel t _ sq),
        StatusOK, OnePage, w0.
      split; [reflexivity|]. split; [reflexivity|]. split; [exact eq_refl|].
      split; [exact Hst|]. split; [exact Htx|]. split; [exact Hs|]. right. eauto.
    + right. eapply early_after_lookup; eassumption.
  - unfold DeletePage. after_lookup gorm.PageModel id w.
    left. destruct Hd as (Hst & _ & Htx & _).
    eexists unit, (DELETE "pages" _), (fun _ sq => gorm.delete_row gorm.PageModel x sq),
      StatusOK, (fun _ => H_message "Page deleted successfully"), w0.
    split; [reflexivity|]. split; [reflexivity|]. split; [exact eq_refl|].
      split; [exact Hst|]. split; [exact Htx|]. split; [exact Hs|]. right. eauto.
  - unfold CreatePost. destruct (ShouldBindJSON Post_required body) as [post|msg].
    + destruct (is_empty (Post.Title post)); [|destruct (is_empty (Post.Content post))].
      * right. apply early_now.
      * right. apply early_now.
      * left. exists Post.t, (INSERT "posts"),
          (fun t sq => gorm.insert_row gorm.PostModel t post sq), StatusCreated, OnePost, w.
        split; [reflexivity|]. split; [reflexivity|]. split; [exact eq_refl|].
        split; [reflexivity|]. split; [reflexivity|]. split; [reflexivity|].
        left. reflexivity.
    + right. apply early_now.
  - unfold UpdatePost. after_lookup gorm.PostModel id w.
    destruct (ShouldBindJSON Post_required body) as [upd|msg].
    + left. destruct Hd as (Hst & _ & Htx & _).
      eexists Post.t, (UPDATE "posts" _), (fun t sq => gorm.save_row gorm.PostModel t _ sq),
        StatusOK, OnePost, w0.
      split; [reflexivity|]. split; [reflexivity|]. split; [exact eq_refl|].
      split; [exact Hst|]. split; [exact Htx|]. split; [exact Hs|]. right. eauto.
    + right. eapply early_after_lookup; eassumption.
  - unfold DeletePost. after_lookup gorm.PostModel id w.
    left. destruct Hd as (Hst & _ & Htx & _).
    eexists unit, (DELETE "posts" _), (fun _ sq => gorm.delete_row gorm.PostModel x sq),
      StatusOK, (fun _ => H_message "Post deleted successfully"), w0.
    split; [reflexivity|]. split; [reflexivity|]. split; [exact eq_refl|].
      split; [exact Hst|]. split; [exact Htx|]. split; [exact Hs|]. right. eauto.
  - unfold CreateMedia. destruct (ShouldBindJSON (Media_required u t) body) as [media|msg].
    + destruct (is_empty (Media.URL media)); [|destruct (is_empty (Media.Type_ media))].
      * right. apply early_now.
      * right. apply early_now.
      * left. exists Media.t, (INSERT "media"),
          (fun t sq => gorm.insert_row gorm.MediaModel t media sq), StatusCreated, OneMedia, w.
        split; [reflexivity|]. split; [reflexivity|]. split; [exact eq_refl|].
        split; [reflexivity|]. split; [reflexivity|]. split; [reflexivity|].
        left. reflexivity.
    + right. apply early_now.
  - unfold DeleteMedia. after_lookup gorm.MediaModel id w.
    left. destruct Hd as (Hst & _ & Htx & _).
    eexists unit, (DELETE "media" _), (fun _ sq => gorm.delete_row gorm.MediaModel x sq),
      StatusOK, (fun _ => H_message "Media deleted successfully"), w0.
    split; [reflexivity|]. split; [reflexivity|]. split; [exact eq_refl|].
      split; [exact Hst|]. split; [exact Htx|]. split; [exact Hs|]. right. eauto.
Qed.
Lemma settled_after_lookup (w w1 w' : World) (new : list (Call * Outcome))
    (t : string) (id : N) :
  store w1 = store w -> sent w1 = sent w ->
  settled w1 new w' -> settled w ((SELECT_BY_ID t id, Good) :: new) w'.
Proof.
  intros Hst Hsn (c & o & Hlast & Hc & Htx & Hstore & Hstmt & Hfatal & Hcommit & Herr).
  assert (Hne : forall e, e ∈ (SELECT_BY_ID t id, Good) :: new ->
                          e = (SELECT_BY_ID t id, Good) \/ e ∈ new).
  { intros e He. apply elem_of_cons in He. exact He. }
  exists c, o. split.
  { destruct new as [|e new]; [discriminate Hlast|]. exact Hlast. }
  split; [exact Hc|]. split; [exact Htx|]. split.
  { intros Hno. rewrite <- Hst. apply Hstore. intros Hin. apply Hno.
    apply elem_of_cons. right. exact Hin. }
  split.
  { intros s o' Hs Hin Ho. destruct (Hne _ Hin) as [[= -> ->]|Hin'].
    - discriminate Hs.
    - exact (Hstmt s o' Hs Hin' Ho). }
  split.
  { intros c' Hin. destruct (Hne _ Hin) as [[= _]|Hin']. exact (Hfatal c' Hin'). }
  split.
  { intros Hin Hsent. destruct (Hne _ Hin) as [[= _]|Hin'].
    unfold errors_of in *. rewrite <- Hsn. apply Hcommit; [exact Hin'|].
    rewrite Hsn. exact Hsent. }
  unfold errors_of in *. rewrite <- Hsn. exact Herr.
Qed.

(** C1 (as amended).  For every create, update and delete handler, on any
    store and under any faults: once its transaction has been opened, the
    last call the handler makes on the handle is a commit or a rollback, and
    unless that very call panicked the transaction is over; the store is the
    one before the request unless a commit went well; a statement that fails
    and a panic of any call are followed by a rollback; a commit that fails
    is answered with a storage error and no rollback. *)
Theorem writes_settle (op : Operation) (db : DB) (sq : Seqs) (faults : list Outcome) (t : Z) :
  let w := request db sq faults t in
  let w' := exec (handle op) w in
  (BEGIN, Good) ∈ log w' -> settled w (log w') w'.
Proof.
  intros w w' Hopen.
  destruct (handle_cases op w) as [Hon|Hearly]; fold w' in Hon || fold w' in Hearly.
  - destruct Hon
      as (A & c & f & status & payload & w1 & Hc & Hkind & Hw' & Hst & Htx & Hsn & Hlog).
    destruct (tx_block_run c f status payload w1 Hc Hkind) as (new & Hnew & Hset).
    { rewrite Htx. reflexivity. }
    rewrite <- Hw' in Hnew, Hset.
    destruct Hlog as [Hlog|(tb & id & Hlog)]; rewrite Hlog in Hnew; cbn in Hnew;
      rewrite Hnew in Hopen |- *.
    + destruct (Hset Hopen) as (c0 & o & H). exists c0, o.
      rewrite <- Hst. unfold errors_of in *. rewrite <- Hsn. exact H.
    + apply (settled_after_lookup w w1 w' new tb id Hst Hsn). apply Hset.
      apply elem_of_cons in Hopen as [[=]|Hopen]. exact Hopen.
  - exfalso. destruct Hearly as (_ & _ & [Hlog|(tb & id & Hlog)]);
      rewrite Hlog in Hopen; cbn in Hopen.
    + apply elem_of_nil in Hopen. exact Hopen.
    + apply elem_of_cons in Hopen as [[=]|Hopen]. apply elem_of_nil in Hopen. exact Hopen.
Qed.

Lemma writes_settle_witness :
  let w := request empty_db unused [Good; Bad] 5 in
  let w' := exec (handle (Create_Post (Json a_post))) w in
  (BEGIN, Good) ∈ log w' /\ settled w (log w') w'.
Proof.
  assert (H : (BEGIN, Good) ∈
              log (exec (handle (Create_Post (Json a_post)))
                        (request empty_db unused [Good; Bad] 5))).
  { vm_compute. apply list_elem_of_here. }
  split; [exact H|].
  exact (writes_settle (Create_Post (Json a_post)) empty_db unused [Good; Bad] 5 H).
Defined.

(** C1 (as stated) fails: when the commit fails the handler answers with a
    storage error and never calls rollback. *)
Lemma commit_failure_counterexample :
  let w' := exec (handle (Create_Post (Json a_post)))
                 (request empty_db unused [Good; Good; Bad] 5) in
  (BEGIN, Good) ∈ log w' /\
  errors_of w' = [StorageError] /\
  forall o, (ROLLBACK, o) ∉ log w'.
Proof.
  split; [vm_compute; apply list_elem_of_here|].
  split; [vm_compute; reflexivity|].
  intros o H. vm_compute in H. mem_cases H.
Qed.

(** A create request whose commit fails leaves the store as it was, yet the
    id drawn from the sequence is spent. *)
Example failed_commit_spends_id :
  let w' := exec (handle (Create_Post (Json a_post)))
                 (request empty_db unused [Good; Good; Bad] 5) in
  store w' = empty_db /\ posts_seq (seqs w') = 1.
Proof. split; vm_compute; reflexivity. Qed.

(** ** Requests that are turned down before any transaction *)

Lemma bound_same {A} (required : A -> list string) (a x : A) :
  ShouldBindJSON required (Json a) = Bound x -> x = a.
Proof.
  unfold ShouldBindJSON. destruct (forallb _ _); [|discriminate].
  intros [= <-]. reflexivity.
Qed.

Lemma errors_of_sent (w w' : World) (status : nat) (body : Payload) (k : ErrorKind) :
  sent w' = (sent w ++ [(status, body)])%list -> kind_of status = Some k ->
  errors_of w' = (errors_of w ++ [k])%list.
Proof.
  intros Hs Hk. unfold errors_of. rewrite Hs, omap_app. cbn. now rewrite Hk.
Qed.

Lemma rejected (msg : string) (w : World) :
  let w' := exec (fail StatusBadRequest msg) w in
  store w' = store w /\ tx w' = tx w /\ log w' = log w /\
  (plan w = [] -> errors_of w' = (errors_of w ++ [ValidationError])%list).
Proof.
  intros w'. destruct (fail_run StatusBadRequest msg w) as ((Hst & _ & Htx & _) & Hlg & Hs).
  fold w' in Hst, Htx, Hlg, Hs.
  split; [exact Hst|]. split; [exact Htx|]. split; [exact Hlg|].
  intros Hp. exact (errors_of_sent _ _ _ _ _ (Hs Hp) eq_refl).
Qed.

(** C3.  A create request for a page, post or media whose payload has a
    required field empty (title or content; url or type) is answered with a
    validation error; no call is made on the storage handle, so no
    transaction is opened, and the store is left as it was. *)
Theorem create_rejects_empty (op : Operation) (w : World) :
  lacks_required op = true ->
  let w' := exec (handle op) w in
  store w' = store w /\ tx w' = tx w /\ log w' = log w /\
  (plan w = [] -> errors_of w' = (errors_of w ++ [ValidationError])%list).
Proof.
  intros Hop.
  destruct op as [[|p]|? ?|?|[|p]|? ?|?|u t [|m]|?]; try discriminate Hop;
    cbn [handle lacks_required] in *.
  - unfold CreatePage.
    destruct (ShouldBindJSON Page_required (Json p)) as [x|msg] eqn:E;
      [|apply rejected].
    apply bound_same in E as ->. apply orb_prop in Hop.
    destruct (is_empty (Page.Title p)); [apply rejected|].
    destruct Hop as [Hop|Hop]; [discriminate|]. rewrite Hop. apply rejected.
  - unfold CreatePost.
    destruct (ShouldBindJSON Post_required (Json p)) as [x|msg] eqn:E;
      [|apply rejected].
    apply bound_same in E as ->. apply orb_prop in Hop.
    destruct (is_empty (Post.Title p)); [apply rejected|].
    destruct Hop as [Hop|Hop]; [discriminate|]. rewrite Hop. apply rejected.
  - unfold CreateMedia.
    destruct (ShouldBindJSON (Media_required u t) (Json m)) as [x|msg] eqn:E;
      [|apply rejected].
    apply bound_same in E as ->. apply orb_prop in Hop.
    destruct (is_empty (Media.URL m)); [apply rejected|].
    destruct Hop as [Hop|Hop]; [discriminate|]. rewrite Hop. apply rejected.
Qed.

Lemma create_rejects_empty_witness :
  let op := Create_Page (Json (Page.mk 0 "" "x" 0 0)) in
  let w := request two_pages used [] 9 in
  let w' := exec (handle op) w in
  lacks_required op = true /\
  store w' = two_pages /\ log w' = [] /\ errors_of w' = [ValidationError].
Proof.
  pose proof (create_rejects_empty (Create_Page (Json (Page.mk 0 "" "x" 0 0)))
                (request two_pages used [] 9) eq_refl) as (Hst & _ & Hlg & Herr).
  split; [reflexivity|]. split; [exact Hst|]. split; [exact Hlg|]. exact (Herr eq_refl).
Defined.



(** ** Writes that go through *)

(** The transactional block on a store that works: what the statement does
    to the working copy is what ends up in the store. *)
Lemma tx_block_commits {A} (c : Call) (f : Z -> Seqs -> DB -> Seqs * result (A * DB))
    (status : nat) (payload : A -> Payload) (w : World) :
  plan w = [] -> tx w = Idle ->
  let w' := exec (tx_block c f status payload) w in
  match f (clock w) (seqs w) (store w) with
  | (sq', Ok (a, work')) =>
      store w' = work' /\ seqs w' = sq' /\
      sent w' = (sent w ++ [(status, payload a)])%list
  | (sq', Error e) =>
      store w' = store w /\ seqs w' = sq' /\
      sent w' = (sent w ++ [(StatusInternalServerError,
                             HTTPError StatusInternalServerError (Error_ e))])%list
  end.
Proof.
  destruct w as [st sq t lg pl ck sn]. cbn. intros -> ->.
  unfold tx_block, rollback_on_panic, fail, defer_recover,
    gorm.Begin, gorm.Commit, gorm.Rollback, gorm.in_tx, JSON,
    exec, bind, call, modify, get, ret, peek, advance, record.
  cbn. destruct (f ck sq st) as [sq' [[a work']|e]]; cbn;
    (split; [|split]; reflexivity).
Qed.

Lemma CreatePost_valid (p : Post.t) :
  is_empty (Post.Title p) = false -> is_empty (Post.Content p) = false ->
  CreatePost (Json p) =
  tx_block (INSERT "posts") (fun t sq => gorm.insert_row gorm.PostModel t p sq)
           StatusCreated OnePost.
Proof.
  intros Ht Hc. unfold CreatePost, ShouldBindJSON, Post_required. cbn [forallb].
  rewrite Ht, Hc. cbn [negb andb]. rewrite Ht, Hc. reflexivity.
Qed.

(** Saving references that all name stored media writes no media row. *)
Lemma upsert_existing (t : Z) (sq : Seqs) (db : DB) (refs saved : list Media.t) :
  (forall x, x ∈ refs -> Media.ID x <> 0 /\ is_Some (media db !! Media.ID x)) ->
  fold_left (gorm.upsert_media t) refs (saved, sq, db) =
    ((saved ++ map (fun x => gorm.auto_create gorm.MediaModel t
                               (Media.with_ID (Media.ID x) x)) refs)%list, sq, db).
Proof.
  revert saved. induction refs as [|x refs IH]; intros saved Hrefs.
  - cbn. now rewrite app_nil_r.
  - destruct (Hrefs x (list_elem_of_here _ _)) as (Hid & [y Hy]).
    cbn [fold_left]. unfold gorm.upsert_media at 2.
    apply N.eqb_neq in Hid. rewrite Hid, Hy.
    rewrite IH.
    + cbn [map]. now rewrite <- app_assoc.
    + intros z Hz. apply Hrefs. now apply list_elem_of_further.
Qed.

Lemma save_post_media_existing (t : Z) (q : Post.t) (sq : Seqs) (d : DB)
    (refs : list Media.t) :
  Post.Media q = Some refs ->
  (forall x, x ∈ refs -> Media.ID x <> 0 /\ is_Some (media d !! Media.ID x)) ->
  exists l,
    gorm.save_post_media t q sq d =
      (sq,
       (Post.with_Media (Some l) q,
        gorm.with_post_media
          (post_media d ∪ list_to_set (map (fun x => (Post.ID q, Media.ID x)) refs)) d)).
Proof.
  intros Hm Hrefs. unfold gorm.save_post_media. rewrite Hm.
  rewrite (upsert_existing t sq d refs [] Hrefs). cbn [app].
  eexists. rewrite map_map. reflexivity.
Qed.

Lemma insert_post_existing_media (t : Z) (sq : Seqs) (db : DB) (p : Post.t)
    (refs : list Media.t) :
  Post.Media p = Some refs ->
  (forall x, x ∈ refs -> Media.ID x <> 0 /\ is_Some (media db !! Media.ID x)) ->
  posts db !! new_post_id sq p = None ->
  exists sq' p' db',
    gorm.insert_row gorm.PostModel t p sq db = (sq', Ok (p', db')) /\
    Post.ID p' = new_post_id sq p /\
    is_Some (posts db' !! new_post_id sq p) /\
    pages db' = pages db /\
    media db' = media db /\
    post_media db' =
      post_media db ∪ list_to_set (map (fun x => (new_post_id sq p, Media.ID x)) refs).
Proof.
  intros Hm Hrefs Hfree. unfold gorm.insert_row, new_post_id in *.
  cbn [gorm.key gorm.PostModel gorm.nextval gorm.rows gorm.with_rows gorm.with_key
       gorm.auto_create gorm.columns_of gorm.associations].
  destruct (Post.ID p =? 0) eqn:Hid; cbn [posts]; rewrite Hfree;
    match goal with
    | |- context [gorm.save_post_media t ?q ?s ?d] =>
        destruct (save_post_media_existing t q s d refs Hm Hrefs) as [l Hl];
        rewrite Hl
    end;
    (do 3 eexists; split; [reflexivity|]; cbn;
     split; [reflexivity|]; split; [rewrite lookup_insert_eq; eauto|];
     split; [reflexivity|]; split; reflexivity).
Qed.

(** C7 (as amended).  On a store that works, a create request for a post
    whose media references all name stored media, and whose own id is free,
    is answered with the created post; the media table is left as it was,
    and the join rows added are exactly those that join the new post to the
    referenced media. *)
Theorem CreatePost_links_existing (db : DB) (sq : Seqs) (t : Z) (p : Post.t) (refs : list Media.t) :
  is_empty (Post.Title p) = false -> is_empty (Post.Content p) = false ->
  Post.Media p = Some refs ->
  (forall x, x ∈ refs -> Media.ID x <> 0 /\ is_Some (media db !! Media.ID x)) ->
  posts db !! new_post_id sq p = None ->
  let w' := exec (CreatePost (Json p)) (request db sq [] t) in
  (exists p', sent w' = [(StatusCreated, OnePost p')] /\ Post.ID p' = new_post_id sq p) /\
  is_Some (posts (store w') !! new_post_id sq p) /\
  pages (store w') = pages db /\
  media (store w') = media db /\
  post_media (store w') =
    post_media db ∪ list_to_set (map (fun x => (new_post_id sq p, Media.ID x)) refs).
Proof.
  intros Ht Hc Hm Hrefs Hfree w'. subst w'. rewrite (CreatePost_valid p Ht Hc).
  pose proof (tx_block_commits (INSERT "posts")
                (fun t sq => gorm.insert_row gorm.PostModel t p sq)
                StatusCreated OnePost (request db sq [] t) eq_refl eq_refl) as Hrun.
  cbv zeta in Hrun. cbn [clock store seqs sent request app] in Hrun.
  destruct (insert_post_existing_media t sq db p refs Hm Hrefs Hfree)
    as (sq' & p' & db' & Hins & Hid & Hrow & Hpages & Hmedia & Hjoin).
  rewrite Hins in Hrun. destruct Hrun as (Hstore & _ & Hsent).
  rewrite Hstore. split; [eauto|]. split; [exact Hrow|].
  split; [exact Hpages|]. split; [exact Hmedia|exact Hjoin].
Qed.

Lemma CreatePost_links_existing_witness :
  let w' := exec (CreatePost (Json post_with_ref)) (request with_media_7 used [] 9) in
  media (store w') = media with_media_7 /\
  post_media (store w') = {[ (3, 7) ]}.
Proof.
  assert (Hrefs : forall x, x ∈ [Media.mk 7 "" "" 0 0] ->
                    Media.ID x <> 0 /\ is_Some (media with_media_7 !! Media.ID x)).
  { intros x Hx. apply list_elem_of_singleton in Hx as ->. split; [discriminate|].
    vm_compute. eauto. }
  destruct (CreatePost_links_existing with_media_7 used 9 post_with_ref _
              eq_refl eq_refl eq_refl Hrefs eq_refl) as (_ & _ & _ & Hmedia & Hjoin).
  split; [exact Hmedia|]. rewrite Hjoin. vm_compute. reflexivity.
Defined.

(** C7 (as stated) fails: a reference that names no stored media makes the
    create request write a media row. *)
Lemma CreatePost_creates_media_counterexample :
  let w' := exec (CreatePost (Json post_with_ref)) (request empty_db unused [] 9) in
  (exists p', sent w' = [(StatusCreated, OnePost p')]) /\
  media empty_db !! 7 = None /\
  media (store w') !! 7 = Some (Media.mk 7 "" "" 9 9).
Proof.
  split; [eexists; vm_compute; reflexivity|].
  split; vm_compute; reflexivity.
Qed.

(** ** Partial updates *)

(** What an update of a post does once its payload is bound: title and
    content are taken from the payload, the author too unless the payload
    leaves it empty, and the row is saved with the clock's time as its
    [updated_at]. *)
Lemma UpdatePost_merges (db : DB) (sq : Seqs) (t : Z) (id : N) (r upd : Post.t) :
  posts db !! id = Some r -> id <> 0 -> Post.Media r = None ->
  is_empty (Post.Title upd) = false -> is_empty (Post.Content upd) = false ->
  let merged :=
    Post.mk id (Post.Title upd) (Post.Content upd)
            (if is_empty (Post.Author upd) then Post.Author r else Post.Author upd)
            (Post.Createdat r) t None in
  let w' := exec (UpdatePost id (Json upd)) (request db sq [] t) in
  sent w' = [(StatusOK, OnePost merged)] /\
  posts (store w') = <[id := merged]> (posts db).
Proof.
  intros Hr Hid Hm Ht Hc merged w'. subst w' merged.
  destruct r as [rid rt rc ra rcr ru rm]. cbn in Hm. subst rm.
  unfold UpdatePost, ShouldBindJSON, Post_required. cbn [forallb].
  rewrite Ht, Hc. cbn [negb andb].
  unfold exec, gorm.First, gorm.Save, gorm.save_row, gorm.in_tx,
    rollback_on_panic, fail, defer_recover,
    gorm.Begin, gorm.Commit, gorm.Rollback, JSON,
    bind, call, modify, get, ret, peek, advance, record, request.
  cbn. rewrite Hr. cbn. rewrite !Ht, !Hc. cbn.
  apply N.eqb_neq in Hid.
  destruct (is_empty (Post.Author upd)); cbn; rewrite Hid; cbn;
    split; reflexivity.
Qed.

Lemma required_missing {A} (required : A -> list string) (a : A) (s1 s2 : string) :
  required a = [s1; s2] -> is_empty s1 || is_empty s2 = true ->
  exists msg, ShouldBindJSON required (Json a) = BindError msg.
Proof.
  intros Hreq Hempty. unfold ShouldBindJSON. rewrite Hreq. cbn [forallb].
  destruct (is_empty s1); [cbn; eauto|]. cbn in Hempty. rewrite Hempty. cbn. eauto.
Qed.

(** C2, the defect.  On an existing page or post, an update whose payload
    leaves the title or the content empty is not merged: the payload is
    bound to the model struct, whose title and content are tagged
    [binding:"required"], so the request is answered with a validation
    error after the lookup, no transaction is opened and the row keeps all
    its values. *)
Theorem partial_update_rejected (op : Operation) (db : DB) (sq : Seqs) (t : Z) :
  partial_update op = true -> target_stored op db ->
  let w' := exec (handle op) (request db sq [] t) in
  errors_of w' = [ValidationError] /\ store w' = db /\
  exists tb key, log w' = [(SELECT_BY_ID tb key, Good)].
Proof.
  intros Hop Hrow.
  destruct op as [b|k [|u]|k|b|k [|u]|k|f1 f2 b|k]; try discriminate Hop;
    cbn [partial_update target_stored handle] in *; destruct Hrow as [r Hr].
  - destruct (required_missing Page_required u _ _ eq_refl Hop) as [msg Hmsg].
    unfold UpdatePage. rewrite Hmsg.
    unfold exec, gorm.First, bind, call, get, ret, peek, advance, record, request, fail, JSON.
    cbn. rewrite Hr. cbn. eauto.
  - destruct (required_missing Post_required u _ _ eq_refl Hop) as [msg Hmsg].
    unfold UpdatePost. rewrite Hmsg.
    unfold exec, gorm.First, bind, call, get, ret, peek, advance, record, request, fail, JSON.
    cbn. rewrite Hr. cbn. eauto.
Qed.

Lemma partial_update_rejected_witness :
  let w' := exec (UpdatePost 1 (Json title_only)) (request one_post used [] 9) in
  partial_update (Update_Post 1 (Json title_only)) = true /\
  target_stored (Update_Post 1 (Json title_only)) one_post /\
  sent w' = [(StatusBadRequest,
              HTTPError StatusBadRequest "Field validation failed on the 'required' tag")] /\
  posts (store w') !! 1 = Some (Post.mk 1 "Old Title" "Old Content" "Old Author" 5 5 None).
Proof.
  assert (Hrow : target_stored (Update_Post 1 (Json title_only)) one_post).
  { vm_compute. eauto. }
  destruct (partial_update_rejected (Update_Post 1 (Json title_only)) one_post used 9
              eq_refl Hrow) as (_ & Hstore & _).
  split; [reflexivity|]. split; [exact Hrow|]. split; [vm_compute; reflexivity|].
  cbn [handle] in Hstore. rewrite Hstore. reflexivity.
Defined.

(** ** The non-empty fields *)

(** C8, the defect.  Creating a post whose media reference names no stored
    media takes a store in which every required field is filled to one that
    holds a media row with an empty url and an empty type. *)
Theorem CreatePost_breaks_required_filled :
  let w' := exec (handle (Create_Post (Json post_with_ref))) (request empty_db unused [] 9) in
  required_filled empty_db /\
  errors_of w' = [] /\
  media (store w') !! 7 = Some (Media.mk 7 "" "" 9 9) /\
  ~ required_filled (store w').
Proof.
  assert (Hrow : media (store (exec (handle (Create_Post (Json post_with_ref)))
                                    (request empty_db unused [] 9))) !! 7
                 = Some (Media.mk 7 "" "" 9 9)).
  { vm_compute. reflexivity. }
  split.
  { unfold required_filled. split; [|split]; intros k x Hx; cbn in Hx;
      rewrite lookup_empty in Hx; discriminate. }
  split; [vm_compute; reflexivity|]. split; [exact Hrow|].
  intros (_ & _ & Hmedia). destruct (Hmedia _ _ Hrow) as [Hurl _]. discriminate.
Qed.

(** * Further properties of the handlers and of the start-up *)
(** ** What every handler answers *)

Lemma later_refl (w : World) : later w w.
Proof. exists []. reflexivity. Qed.

Lemma later_trans (w1 w2 w3 : World) : later w1 w2 -> later w2 w3 -> later w1 w3.
Proof.
  intros [u1 H1] [u2 H2]. exists (u1 ++ u2)%list.
  rewrite H1, H2. apply app_assoc.
Qed.

Lemma later_fatal (w w' : World) : later w w' -> Fatal ∈ plan w' -> Fatal ∈ plan w.
Proof. intros [u H] Hin. rewrite H. apply elem_of_app. right. exact Hin. Qed.

Lemma later_advance (w : World) : later w (advance w).
Proof.
  unfold later, advance. destruct w as [st sq t lg pl ck sn]. cbn.
  destruct pl as [|o pl]; [exists []|exists [o]]; reflexivity.
Qed.

Lemma peek_fatal (w : World) : peek w = Fatal -> Fatal ∈ plan w.
Proof.
  unfold peek. destruct (plan w) as [|o pl]; [discriminate|].
  intros ->. apply list_elem_of_here.
Qed.

Lemma silent_ret {A} (a : A) : silent (ret a).
Proof.
  intros w r w' [= <- <-]. split; [reflexivity|]. split; [apply later_refl|discriminate].
Qed.

Lemma silent_get : silent get.
Proof.
  intros w r w' [= <- <-]. split; [reflexivity|]. split; [apply later_refl|discriminate].
Qed.

Lemma silent_bind {A B} (m : M A) (k : A -> M B) :
  silent m -> (forall a, silent (k a)) -> silent (bind m k).
Proof.
  intros Hm Hk w r w'. unfold bind.
  destruct (m w) as [[a|] w1] eqn:E; destruct (Hm _ _ _ E) as (Hs & Hl & Hp).
  - intros E2. destruct (Hk a _ _ _ E2) as (Hs2 & Hl2 & Hp2).
    split; [congruence|]. split; [exact (later_trans _ _ _ Hl Hl2)|].
    intros Hr. exact (later_fatal _ _ Hl (Hp2 Hr)).
  - intros [= <- <-]. split; [exact Hs|]. split; [exact Hl|]. intros _. exact (Hp eq_refl).
Qed.

Lemma silent_call (c : Call) : silent (call c).
Proof.
  intros w r w'. unfold call. pose proof (peek_fatal w) as Hf.
  pose proof (later_advance w) as Hl.
  destruct (peek w); intros [= <- <-];
    (split; [reflexivity|]; split; [exact Hl|]; intros; try discriminate; auto).
Qed.

Lemma silent_step {A} (f : World -> Res A * World) :
  (forall w, sent (snd (f w)) = sent w /\ plan (snd (f w)) = plan w /\ fst (f w) <> Panic) ->
  silent f.
Proof.
  intros H w r w' E. destruct (H w) as (Hs & Hp & Hr). rewrite E in Hs, Hp, Hr. cbn in *.
  split; [exact Hs|]. split; [exists []; now rewrite Hp|]. intros ->. contradiction.
Qed.

Lemma silent_in_tx {A} (f : Z -> Seqs -> DB -> Seqs * result (A * DB)) (o : Outcome) :
  silent (gorm.in_tx f o).
Proof.
  apply silent_step. intros w. unfold gorm.in_tx.
  destruct o, (tx w) as [|work| |]; cbn; try (repeat split; discriminate);
    destruct (f (clock w) (seqs w) work) as [sq [[a work']|e]]; cbn;
    repeat split; discriminate.
Qed.

Lemma silent_First {R} (m : gorm.Model R) (id : N) : silent (gorm.First m id).
Proof.
  unfold gorm.First. apply silent_bind; [apply silent_call|]. intros o.
  apply silent_bind; [apply silent_get|]. intros w.
  destruct o; try apply silent_ret; destruct (gorm.rows m (store w) !! id); apply silent_ret.
Qed.

Lemma silent_Find {R} (m : gorm.Model R) (conds : list Cond) : silent (gorm.Find m conds).
Proof.
  unfold gorm.Find. apply silent_bind; [apply silent_call|]. intros o.
  apply silent_bind; [apply silent_get|]. intros w.
  destruct o; try apply silent_ret; destruct (gorm.compile m conds); apply silent_ret.
Qed.

Lemma silent_Preload_Media (ps : list Post.t) : silent (gorm.Preload_Media ps).
Proof.
  unfold gorm.Preload_Media. destruct ps as [|p ps]; [apply silent_ret|].
  cbv zeta. apply silent_bind; [apply silent_call|]. intros o.
  apply silent_bind; [apply silent_get|]. intros w.
  destruct o; try apply silent_ret;
    (apply silent_bind;
     [ destruct (map snd _); [apply silent_ret|];
       apply silent_bind; [apply silent_call|]; intros []; apply silent_ret
     | intros [ms|e]; apply silent_ret ]).
Qed.

Lemma silent_Find_Preload_Media (conds : list Cond) : silent (gorm.Find_Preload_Media conds).
Proof.
  unfold gorm.Find_Preload_Media. apply silent_bind; [apply silent_Find|].
  intros [ps|e]; [apply silent_Preload_Media|apply silent_ret].
Qed.

Lemma silent_First_Preload_Media (id : N) : silent (gorm.First_Preload_Media id).
Proof.
  unfold gorm.First_Preload_Media. apply silent_bind; [apply silent_First|].
  intros [p|e]; [|apply silent_ret].
  apply silent_bind; [apply silent_Preload_Media|].
  intros [[|p' [|? ?]]|e]; apply silent_ret.
Qed.

Lemma silent_Begin : silent gorm.Begin.
Proof.
  unfold gorm.Begin. apply silent_bind; [apply silent_call|]. intros o.
  apply silent_step. intros w. destruct o; cbn; repeat split; discriminate.
Qed.

Lemma silent_Commit : silent gorm.Commit.
Proof.
  unfold gorm.Commit. apply silent_bind; [apply silent_call|]. intros o.
  apply silent_step. intros w. destruct (tx w), o; cbn; repeat split; discriminate.
Qed.

Lemma silent_Rollback : silent gorm.Rollback.
Proof.
  unfold gorm.Rollback. apply silent_bind; [apply silent_call|]. intros o.
  apply silent_step. intros w. destruct (tx w), o; cbn; repeat split; discriminate.
Qed.

Lemma silent_rollback_on_panic : silent rollback_on_panic.
Proof.
  unfold rollback_on_panic. apply silent_bind; [apply silent_Rollback|].
  intros _. apply silent_ret.
Qed.

Lemma silent_Create {R} (m : gorm.Model R) (r : R) : silent (gorm.Create m r).
Proof.
  unfold gorm.Create. apply silent_bind; [apply silent_call|]. intros o. apply silent_in_tx.
Qed.

Lemma silent_Save {R} (m : gorm.Model R) (r : R) : silent (gorm.Save m r).
Proof.
  unfold gorm.Save. apply silent_bind; [apply silent_call|]. intros o. apply silent_in_tx.
Qed.

Lemma silent_Delete {R} (m : gorm.Model R) (r : R) : silent (gorm.Delete m r).
Proof.
  unfold gorm.Delete. apply silent_bind; [apply silent_call|]. intros o. apply silent_in_tx.
Qed.

Lemma once_JSON (status : nat) (body : Payload) :
  well_formed (status, body) = true -> once (JSON status body).
Proof.
  intros Hwf w r w'. unfold JSON. pose proof (peek_fatal w) as Hf.
  pose proof (later_advance w) as Hl.
  destruct (peek w); intros [= <- <-]; (split; [exact Hl|]); cbn; eauto.
Qed.

Lemma once_fail (status : nat) (msg : string) :
  kind_of status <> None -> once (fail status msg).
Proof.
  intros Hk. apply once_JSON. unfold well_formed. cbn.
  rewrite Nat.eqb_refl. destruct (kind_of status); [reflexivity|contradiction].
Qed.

Lemma once_bind {A} (m : M A) (k : A -> M unit) :
  silent m -> (forall a, once (k a)) -> once (bind m k).
Proof.
  intros Hm Hk w r w'. unfold bind.
  destruct (m w) as [[a|] w1] eqn:E; destruct (Hm _ _ _ E) as (Hs & Hl & Hp).
  - intros E2. destruct (Hk a _ _ _ E2) as (Hl2 & Hr).
    split; [exact (later_trans _ _ _ Hl Hl2)|].
    destruct r as [[]|].
    + rewrite <- Hs. exact Hr.
    + destruct Hr as [Hr1 Hr2]. split; [congruence|exact (later_fatal _ _ Hl Hr2)].
  - intros [= <- <-]. split; [exact Hl|]. split; [exact Hs|exact (Hp eq_refl)].
Qed.

Lemma answers_once (m : M unit) : once m -> answers m.
Proof.
  intros Hm w. destruct (exec_as m w) as [r E]. destruct (Hm _ _ _ E) as [_ Hr].
  destruct r as [[]|]; [left|right]; exact Hr.
Qed.

Lemma answers_bind {A} (m : M A) (k : A -> M unit) :
  silent m -> (forall a, answers (k a)) -> answers (bind m k).
Proof.
  intros Hm Hk w. rewrite exec_bind.
  destruct (m w) as [[a|] w1] eqn:E; destruct (Hm _ _ _ E) as (Hs & Hl & Hp).
  - destruct (Hk a w1) as [(x & Hx & Hwf)|[Hx Hf]].
    + left. exists x. rewrite <- Hs. auto.
    + right. split; [congruence|exact (later_fatal _ _ Hl Hf)].
  - right. split; [exact Hs|exact (Hp eq_refl)].
Qed.

Lemma answers_defer (h body : M unit) :
  silent h -> once body -> answers (defer_recover h body).
Proof.
  intros Hh Hb w. unfold exec, defer_recover.
  destruct (body w) as [[[]|] w1] eqn:E; destruct (Hb _ _ _ E) as [Hl Hr]; cbn.
  - left. exact Hr.
  - destruct Hr as [Hs Hf]. destruct (h w1) as [r w2] eqn:E2.
    destruct (Hh _ _ _ E2) as (Hs2 & _ & _). cbn. right. split; [congruence|exact Hf].
Qed.

Ltac hush :=
  first [ apply silent_First | apply silent_Find | apply silent_Find_Preload_Media
        | apply silent_First_Preload_Media | apply silent_Begin | apply silent_Commit
        | apply silent_Rollback | apply silent_Create | apply silent_Save
        | apply silent_Delete | apply silent_rollback_on_panic ].

Ltac reply :=
  first [ apply once_JSON; reflexivity
        | apply once_fail; vm_compute; discriminate
        | apply once_bind; [hush|intros ?]
        | match goal with
          | |- once (match ?x with _ => _ end) => destruct x
          end ].

Ltac answer :=
  first [ apply answers_bind; [hush|intros ?]
        | apply answers_defer; [hush|solve [repeat reply]]
        | match goal with
          | |- answers (match ?x with _ => _ end) => destruct x
          end
        | apply answers_once; solve [repeat reply] ].

Lemma serve_answers (r : Read) : answers (serve r).
Proof.
  destruct r; cbn [serve];
    unfold GetPages, GetPage, GetPosts, GetPost, GetMedia, GetMediaByID; cbv zeta;
    apply answers_once; repeat reply.
Qed.

Lemma handle_answers (op : Operation) : answers (handle op).
Proof.
  destruct op; cbn [handle];
    unfold CreatePage, UpdatePage, DeletePage, CreatePost, UpdatePost, DeletePost,
      CreateMedia, DeleteMedia; cbv zeta; repeat answer.
Qed.

(** X1.  Every handler answers a request at most once: it sends exactly one
    response unless a call panics, and then none.  The response is well
    formed: an error body carries the status it is sent with, one of 400,
    404 and 500, and no other body is sent with one of these. *)
Theorem one_response (req : Request) (w : World) :
  let w' := exec (run req) w in
  (exists x, sent w' = (sent w ++ [x])%list /\ well_formed x = true) \/
  (sent w' = sent w /\ Fatal ∈ plan w).
Proof.
  destruct req as [r|op]; cbn [run]; [apply serve_answers|apply handle_answers].
Qed.

(** ** What the read handlers leave alone *)

Lemma quiet_ret {A} (a : A) : quiet (ret a).
Proof.
  intros w r w' [= <- <-]. split; [apply same_data_refl|].
  exists []. split; [now rewrite app_nil_r|constructor].
Qed.

Lemma quiet_get : quiet get.
Proof.
  intros w r w' [= <- <-]. split; [apply same_data_refl|].
  exists []. split; [now rewrite app_nil_r|constructor].
Qed.

Lemma quiet_bind {A B} (m : M A) (k : A -> M B) :
  quiet m -> (forall a, quiet (k a)) -> quiet (bind m k).
Proof.
  intros Hm Hk w r w'. unfold bind.
  destruct (m w) as [[a|] w1] eqn:E; destruct (Hm _ _ _ E) as (Hd & new & Hl & Hq).
  - intros E2. destruct (Hk a _ _ _ E2) as (Hd2 & new2 & Hl2 & Hq2).
    split; [exact (same_data_trans _ _ _ Hd Hd2)|].
    exists (new ++ new2)%list. split.
    + rewrite Hl2, Hl. symmetry. apply app_assoc.
    + apply Forall_app. split; assumption.
  - intros [= <- <-]. split; [exact Hd|]. exists new. split; assumption.
Qed.

Lemma quiet_call (c : Call) : is_query c = true -> quiet (call c).
Proof.
  intros Hc w r w'. unfold call, record, advance.
  destruct (peek w) eqn:Ho; intros [= <- <-]; cbn;
    (split; [repeat split|]; eexists; split; [reflexivity|];
     constructor; [exact Hc|constructor]).
Qed.

Lemma quiet_JSON (status : nat) (body : Payload) : quiet (JSON status body).
Proof.
  intros w r w'. unfold JSON, advance.
  destruct (peek w); intros [= <- <-]; cbn;
    (split; [repeat split|]; exists []; split; [now rewrite app_nil_r|constructor]).
Qed.

Lemma quiet_First {R} (m : gorm.Model R) (id : N) : quiet (gorm.First m id).
Proof.
  unfold gorm.First. apply quiet_bind; [now apply quiet_call|]. intros o.
  apply quiet_bind; [apply quiet_get|]. intros w.
  destruct o; try apply quiet_ret; destruct (gorm.rows m (store w) !! id); apply quiet_ret.
Qed.

Lemma quiet_Find {R} (m : gorm.Model R) (conds : list Cond) : quiet (gorm.Find m conds).
Proof.
  unfold gorm.Find. apply quiet_bind; [now apply quiet_call|]. intros o.
  apply quiet_bind; [apply quiet_get|]. intros w.
  destruct o; try apply quiet_ret; destruct (gorm.compile m conds); apply quiet_ret.
Qed.

Lemma quiet_Preload_Media (ps : list Post.t) : quiet (gorm.Preload_Media ps).
Proof.
  unfold gorm.Preload_Media. destruct ps as [|p ps]; [apply quiet_ret|].
  cbv zeta. apply quiet_bind; [now apply quiet_call|]. intros o.
  apply quiet_bind; [apply quiet_get|]. intros w.
  destruct o; try apply quiet_ret;
    (apply quiet_bind;
     [ destruct (map snd _); [apply quiet_ret|];
       apply quiet_bind; [now apply quiet_call|]; intros []; apply quiet_ret
     | intros [ms|e]; apply quiet_ret ]).
Qed.

Lemma quiet_Find_Preload_Media (conds : list Cond) : quiet (gorm.Find_Preload_Media conds).
Proof.
  unfold gorm.Find_Preload_Media. apply quiet_bind; [apply quiet_Find|].
  intros [ps|e]; [apply quiet_Preload_Media|apply quiet_ret].
Qed.

Lemma quiet_First_Preload_Media (id : N) : quiet (gorm.First_Preload_Media id).
Proof.
  unfold gorm.First_Preload_Media. apply quiet_bind; [apply quiet_First|].
  intros [p|e]; [|apply quiet_ret].
  apply quiet_bind; [apply quiet_Preload_Media|].
  intros [[|p' [|? ?]]|e]; apply quiet_ret.
Qed.

Ltac look :=
  first [ apply quiet_JSON
        | apply quiet_bind;
          [ first [ apply quiet_First | apply quiet_Find
                  | apply quiet_Find_Preload_Media | apply quiet_First_Preload_Media ]
          | intros ? ]
        | match goal with
          | |- quiet (match ?x with _ => _ end) => destruct x
          end ].

Lemma quiet_serve (r : Read) : quiet (serve r).
Proof.
  destruct r; cbn [serve];
    unfold GetPages, GetPage, GetPosts, GetPost, GetMedia, GetMediaByID, fail; cbv zeta;
    repeat look.
Qed.

(** X2.  A read handler (the three list handlers and the three get-by-id
    handlers) never writes, whatever the store and whatever goes wrong: the
    committed rows, the sequences and the transaction handle are as before,
    and every call it made on the handle is a query. *)
Theorem reads_only_query (r : Read) (w : World) :
  let w' := exec (serve r) w in
  store w' = store w /\ seqs w' = seqs w /\ tx w' = tx w /\
  exists new, log w' = (log w ++ new)%list /\
              forall c o, (c, o) ∈ new -> is_query c = true.
Proof.
  intros w'. destruct (exec_as (serve r) w) as [res E]. fold w' in E.
  destruct (quiet_serve r _ _ _ E) as ((Hst & Hsq & Htx & _) & new & Hl & Hq).
  split; [exact Hst|]. split; [exact Hsq|]. split; [exact Htx|].
  exists new. split; [exact Hl|].
  intros c o Hin. rewrite Forall_forall in Hq. exact (Hq _ Hin).
Qed.

(** ** Lookups that find nothing, and queries that fail *)

Ltac run_all :=
  unfold GetPages, GetPage, GetPosts, GetPost, GetMedia, GetMediaByID,
    UpdatePage, DeletePage, UpdatePost, DeletePost, DeleteMedia,
    gorm.Find_Preload_Media, gorm.First_Preload_Media, gorm.First, gorm.Find,
    fail, JSON, exec, bind, call, get, ret, peek, advance, record.



(** X4.  When the storage layer refuses the first query of a handler (any
    handler but the create handlers), the handler makes no further call and
    answers 500 with the storage layer's message: a get, update or delete of
    an identifier that names no row is then not answered with 404, and a
    list handler does not answer with a list. *)
Theorem failed_query_is_storage_error (req : Request) (w : World) (pl : list Outcome) :
  queries_first req = true ->
  plan w = Bad :: pl -> hd Good pl <> Fatal ->
  let w' := exec (run req) w in
  (exists msg, sent w' = (sent w ++ [(StatusInternalServerError,
                                     HTTPError StatusInternalServerError msg)])%list) /\
  store w' = store w /\ tx w' = tx w /\
  exists c, log w' = (log w ++ [(c, Bad)])%list /\ is_query c = true.
Proof.
  intros Hq Hplan Hnext. destruct w as [st sq t lg pl0 ck sn]. cbn in Hplan. subst pl0.
  destruct req as [[]|[]]; try discriminate Hq; cbn [run serve handle];
    run_all; cbv zeta; cbn;
    destruct pl as [|[] pl]; try (exfalso; apply Hnext; reflexivity); cbn;
    (split; [eauto|]; split; [reflexivity|]; split; [reflexivity|];
     eexists; split; [reflexivity|reflexivity]).
Qed.

Lemma failed_query_is_storage_error_witness :
  let w' := exec (run (Reading (Get_Page 99))) (request two_pages used [Bad] 9) in
  pages two_pages !! 99 = None /\
  errors_of w' = [StorageError].
Proof.
  split; [reflexivity|].
  destruct (failed_query_is_storage_error (Reading (Get_Page 99))
              (request two_pages used [Bad] 9) [] eq_refl eq_refl)
    as ((msg & Hs) & _); [discriminate|].
  exact (errors_of_sent (request two_pages used [Bad] 9) _ _ _ StorageError Hs eq_refl).
Defined.

(** ** Listing media *)

Lemma scan_all_spec {R} (m : gorm.Model R) (db : DB) (x : R) :
  x ∈ gorm.scan_all m db <->
  exists k r, gorm.rows m db !! k = Some r /\ x = gorm.with_key m k r.
Proof.
  unfold gorm.scan_all. rewrite list_elem_of_fmap. split.
  - intros ([k r] & -> & Hin). apply elem_of_map_to_list in Hin. eauto.
  - intros (k & r & Hr & ->). exists (k, r). split; [reflexivity|].
    apply elem_of_map_to_list. exact Hr.
Qed.

(** X5.  On a store that works, [GetMedia] answers 200 with the stored media
    whose type equals the [type] parameter exactly, and with every stored
    media when the parameter is absent or empty; a media is in the answer
    exactly when it is a stored row that passes the filter. *)
Theorem GetMedia_filters (db : DB) (sq : Seqs) (t : Z) (q : gmap string string) :
  let l := List.filter (media_selected (Query q "type"))
                       (gorm.scan_all gorm.MediaModel db) in
  list_media db sq t q = [(StatusOK, MediaList l)] /\
  (forall x, x ∈ l <->
     (exists id r, media db !! id = Some r /\ x = Media.with_ID id r) /\
     (Query q "type" = "" \/ Media.Type_ x = Query q "type")).
Proof.
  intros l. subst l. split.
  - unfold list_media, GetMedia, media_selected. cbv zeta.
    generalize (Query q "type"). intros ty.
    unfold exec, gorm.Find, bind, call, get, ret, peek, advance, record, request, JSON.
    destruct ty as [|a ty]; cbn; [reflexivity|].
    apply (f_equal (fun l => [(StatusOK, MediaList l)])).
    apply List.filter_ext. intros x. cbn. now rewrite andb_true_r.
  - intros x. rewrite list_elem_of_In, List.filter_In, <- list_elem_of_In.
    rewrite (scan_all_spec gorm.MediaModel db x). cbn [gorm.rows gorm.with_key gorm.MediaModel].
    unfold media_selected. split; intros [Hin Hsel]; (split; [exact Hin|]).
    + apply orb_prop in Hsel as [He|He].
      * left. destruct (Query q "type"); [reflexivity|discriminate].
      * right. apply String.eqb_eq. exact He.
    + destruct Hsel as [->| <-]; [reflexivity|].
      rewrite String.eqb_refl. apply orb_true_r.
Qed.

(** ** Creates that go through *)

Lemma CreatePage_valid (p : Page.t) :
  is_empty (Page.Title p) = false -> is_empty (Page.Content p) = false ->
  CreatePage (Json p) =
  tx_block (INSERT "pages") (fun t sq => gorm.insert_row gorm.PageModel t p sq)
           StatusCreated OnePage.
Proof.
  intros Ht Hc. unfold CreatePage, ShouldBindJSON, Page_required. cbn [forallb].
  rewrite Ht, Hc. cbn [negb andb]. rewrite Ht, Hc. reflexivity.
Qed.

Lemma CreateMedia_valid (u y : bool) (m : Media.t) :
  is_empty (Media.URL m) = false -> is_empty (Media.Type_ m) = false ->
  CreateMedia u y (Json m) =
  tx_block (INSERT "media") (fun t sq => gorm.insert_row gorm.MediaModel t m sq)
           StatusCreated OneMedia.
Proof.
  intros Hu Hy. unfold CreateMedia, ShouldBindJSON, Media_required.
  destruct u, y; cbn [forallb app]; rewrite ?Hu, ?Hy; cbn [negb andb];
    rewrite ?Hu, ?Hy; reflexivity.
Qed.

Lemma insert_page (t : Z) (sq : Seqs) (db : DB) (p : Page.t) :
  let id := given_or_next (Page.ID p) (pages_seq sq + 1) in
  pages db !! id = None ->
  let created :=
    Page.mk id (Page.Title p) (Page.Content p)
            (gorm.stamp t (Page.Createdat p)) (gorm.stamp t (Page.UpodatedAt p)) in
  gorm.insert_row gorm.PageModel t p sq db =
    (snd (if Page.ID p =? 0 then gorm.nextval gorm.PageModel sq else (Page.ID p, sq)),
     Ok (created, gorm.with_pages (<[id := created]> (pages db)) db)).
Proof.
  intros id Hfree created. subst id created. unfold gorm.insert_row, given_or_next in *.
  cbn [gorm.key gorm.PageModel gorm.nextval gorm.rows gorm.with_rows gorm.with_key
       gorm.auto_create gorm.columns_of gorm.associations].
  destruct (Page.ID p =? 0); rewrite Hfree; reflexivity.
Qed.

Lemma insert_media (t : Z) (sq : Seqs) (db : DB) (m : Media.t) :
  let id := given_or_next (Media.ID m) (media_seq sq + 1) in
  media db !! id = None ->
  let created :=
    Media.mk id (Media.URL m) (Media.Type_ m)
             (gorm.stamp t (Media.CreatedAt m)) (gorm.stamp t (Media.UpdatedAt m)) in
  gorm.insert_row gorm.MediaModel t m sq db =
    (snd (if Media.ID m =? 0 then gorm.nextval gorm.MediaModel sq else (Media.ID m, sq)),
     Ok (created, gorm.with_media (<[id := created]> (media db)) db)).
Proof.
  intros id Hfree created. subst id created. unfold gorm.insert_row, given_or_next in *.
  cbn [gorm.key gorm.MediaModel gorm.nextval gorm.rows gorm.with_rows gorm.with_key
       gorm.auto_create gorm.columns_of gorm.associations].
  destruct (Media.ID m =? 0); rewrite Hfree; reflexivity.
Qed.

(** X6.  On a store that works, [CreatePage] with a title and a content
    stores exactly one new page, under the id of the payload or else the
    next value of the sequence, provided that id is free; [created_at] and
    [updated_at] are set to the time of the request unless the payload
    brought its own; the answer is 201 with the page as stored, and nothing
    else in the store changes. *)
Theorem CreatePage_stores (db : DB) (sq : Seqs) (t : Z) (p : Page.t) :
  is_empty (Page.Title p) = false -> is_empty (Page.Content p) = false ->
  let id := given_or_next (Page.ID p) (pages_seq sq + 1) in
  pages db !! id = None ->
  let created :=
    Page.mk id (Page.Title p) (Page.Content p)
            (gorm.stamp t (Page.Createdat p)) (gorm.stamp t (Page.UpodatedAt p)) in
  let w' := exec (CreatePage (Json p)) (request db sq [] t) in
  sent w' = [(StatusCreated, OnePage created)] /\
  store w' = gorm.with_pages (<[id := created]> (pages db)) db.
Proof.
  intros Ht Hc id Hfree created w'. subst w'. rewrite (CreatePage_valid p Ht Hc).
  pose proof (tx_block_commits (INSERT "pages")
                (fun t sq => gorm.insert_row gorm.PageModel t p sq)
                StatusCreated OnePage (request db sq [] t) eq_refl eq_refl) as Hrun.
  cbv zeta in Hrun. cbn [clock store seqs sent request app] in Hrun.
  rewrite (insert_page t sq db p Hfree) in Hrun. destruct Hrun as (Hst & _ & Hsn).
  split; [exact Hsn|exact Hst].
Qed.

Lemma CreatePage_stores_witness :
  let w' := exec (CreatePage (Json (Page.mk 0 "About" "Us" 0 0)))
                 (request two_pages used [] 9) in
  sent w' = [(StatusCreated, OnePage (Page.mk 3 "About" "Us" 9 9))] /\
  pages (store w') !! 3 = Some (Page.mk 3 "About" "Us" 9 9).
Proof.
  destruct (CreatePage_stores two_pages used 9 (Page.mk 0 "About" "Us" 0 0)
              eq_refl eq_refl eq_refl) as [Hs Hst].
  split; [exact Hs|]. rewrite Hst. reflexivity.
Defined.

(** X7.  On a store that works, [CreateMedia] with a url and a type stores
    exactly one new media, under the id of the payload or else the next
    value of the sequence, provided that id is free, whichever of the two
    fields the model tags as required; the answer is 201 with the media as
    stored, and nothing else in the store changes. *)
Theorem CreateMedia_stores (u y : bool) (db : DB) (sq : Seqs) (t : Z) (m : Media.t) :
  is_empty (Media.URL m) = false -> is_empty (Media.Type_ m) = false ->
  let id := given_or_next (Media.ID m) (media_seq sq + 1) in
  media db !! id = None ->
  let created :=
    Media.mk id (Media.URL m) (Media.Type_ m)
             (gorm.stamp t (Media.CreatedAt m)) (gorm.stamp t (Media.UpdatedAt m)) in
  let w' := exec (CreateMedia u y (Json m)) (request db sq [] t) in
  sent w' = [(StatusCreated, OneMedia created)] /\
  store w' = gorm.with_media (<[id := created]> (media db)) db.
Proof.
  intros Hu Hy id Hfree created w'. subst w'. rewrite (CreateMedia_valid u y m Hu Hy).
  pose proof (tx_block_commits (INSERT "media")
                (fun t sq => gorm.insert_row gorm.MediaModel t m sq)
                StatusCreated OneMedia (request db sq [] t) eq_refl eq_refl) as Hrun.
  cbv zeta in Hrun. cbn [clock store seqs sent request app] in Hrun.
  rewrite (insert_media t sq db m Hfree) in Hrun. destruct Hrun as (Hst & _ & Hsn).
  split; [exact Hsn|exact Hst].
Qed.

Lemma CreateMedia_stores_witness :
  let w' := exec (CreateMedia true true (Json (Media.mk 0 "http://example.com/a.png" "image" 0 0)))
                 (request with_media_7 used [] 9) in
  sent w' = [(StatusCreated, OneMedia (Media.mk 8 "http://example.com/a.png" "image" 9 9))] /\
  media (store w') !! 7 = media with_media_7 !! 7.
Proof.
  destruct (CreateMedia_stores true true with_media_7 used 9
              (Media.mk 0 "http://example.com/a.png" "image" 0 0)
              eq_refl eq_refl eq_refl) as [Hs Hst].
  split; [exact Hs|]. rewrite Hst. reflexivity.
Defined.

(** ** What was created can be fetched *)

Lemma GetPage_found (db : DB) (sq : Seqs) (t : Z) (id : N) (r : Page.t) :
  pages db !! id = Some r ->
  sent (exec (GetPage id) (request db sq [] t)) = [(StatusOK, OnePage (Page.with_ID id r))].
Proof.
  intros Hr. unfold GetPage, gorm.First, exec, bind, call, get, ret, peek, advance,
    record, request, JSON.
  cbn. rewrite Hr. reflexivity.
Qed.

Lemma GetMediaByID_found (db : DB) (sq : Seqs) (t : Z) (id : N) (r : Media.t) :
  media db !! id = Some r ->
  sent (exec (GetMediaByID id) (request db sq [] t)) =
    [(StatusOK, OneMedia (Media.with_ID id r))].
Proof.
  intros Hr. unfold GetMediaByID, gorm.First, exec, bind, call, get, ret, peek, advance,
    record, request, JSON.
  cbn. rewrite Hr. reflexivity.
Qed.

Lemma upsert_media_posts (t : Z) (l : list Media.t) (acc : list Media.t * Seqs * DB) :
  posts (snd (fold_left (gorm.upsert_media t) l acc)) = posts (snd acc).
Proof.
  revert acc. induction l as [|x l IH]; intros acc; [reflexivity|].
  cbn [fold_left]. rewrite IH. destruct acc as [[saved sq] db].
  unfold gorm.upsert_media.
  destruct (if Media.ID x =? 0 then _ else _) as [id sq1].
  destruct (media db !! id); reflexivity.
Qed.

Lemma insert_page_stored (t : Z) (sq sq' : Seqs) (db db' : DB) (p p' : Page.t) :
  gorm.insert_row gorm.PageModel t p sq db = (sq', Ok (p', db')) ->
  pages db' !! Page.ID p' = Some p'.
Proof.
  unfold gorm.insert_row.
  cbn [gorm.key gorm.PageModel gorm.nextval gorm.rows gorm.with_rows gorm.with_key
       gorm.auto_create gorm.columns_of gorm.associations].
  destruct (Page.ID p =? 0); cbn;
    match goal with |- context [pages db !! ?k] => destruct (pages db !! k) end;
    intros [= <- <- <-]; cbn; apply lookup_insert_eq.
Qed.

Lemma insert_media_stored (t : Z) (sq sq' : Seqs) (db db' : DB) (m m' : Media.t) :
  gorm.insert_row gorm.MediaModel t m sq db = (sq', Ok (m', db')) ->
  media db' !! Media.ID m' = Some m'.
Proof.
  unfold gorm.insert_row.
  cbn [gorm.key gorm.MediaModel gorm.nextval gorm.rows gorm.with_rows gorm.with_key
       gorm.auto_create gorm.columns_of gorm.associations].
  destruct (Media.ID m =? 0); cbn;
    match goal with |- context [media db !! ?k] => destruct (media db !! k) end;
    intros [= <- <- <-]; cbn; apply lookup_insert_eq.
Qed.

Lemma save_post_media_posts (t : Z) (p p' : Post.t) (sq sq' : Seqs) (db db' : DB) :
  gorm.save_post_media t p sq db = (sq', (p', db')) ->
  posts db' = posts db /\ Post.with_Media None p' = Post.with_Media None p /\
  Post.ID p' = Post.ID p.
Proof.
  unfold gorm.save_post_media. destruct (Post.Media p) as [l|].
  - pose proof (upsert_media_posts t l ([], sq, db)) as Hp.
    destruct (fold_left (gorm.upsert_media t) l ([], sq, db)) as [[l' sq1] db1].
    cbn in Hp. intros [= <- <- <-]. cbn. auto.
  - intros [= <- <- <-]. auto.
Qed.

Lemma insert_post_stored (t : Z) (sq sq' : Seqs) (db db' : DB) (p p' : Post.t) :
  gorm.insert_row gorm.PostModel t p sq db = (sq', Ok (p', db')) ->
  posts db' !! Post.ID p' = Some (Post.with_Media None p').
Proof.
  unfold gorm.insert_row.
  cbn [gorm.key gorm.PostModel gorm.nextval gorm.rows gorm.with_rows gorm.with_key
       gorm.auto_create gorm.columns_of gorm.associations].
  destruct (Post.ID p =? 0); cbn [fst snd];
    match goal with |- context [posts db !! ?k] => destruct (posts db !! k) end;
    try discriminate;
    match goal with
    | |- context [gorm.save_post_media ?a ?b ?c ?d] =>
        destruct (gorm.save_post_media a b c d) as [sq2 [p2 db2]] eqn:E
    end;
    apply save_post_media_posts in E as (Hposts & Hsame & Hid);
    intros [= <- <- <-]; rewrite Hposts, Hid, Hsame; cbn; apply lookup_insert_eq.
Qed.

(** X8.  On a store that works, whatever a create handler answers with 201
    can be fetched: the get-by-id handler, asked for the id in that answer,
    answers 200 with the same page or media, and with the same post but for
    its media list. *)
Theorem created_is_found (op : Operation) (db : DB) (sq : Seqs) (t t' : Z) (x : Payload) :
  is_create op = true ->
  let w1 := exec (handle op) (request db sq [] t) in
  sent w1 = [(StatusCreated, x)] ->
  exists y,
    sent (exec (fetch x) (request (store w1) (seqs w1) [] t')) = [(StatusOK, y)] /\
    sans_media y = sans_media x.
Proof.
  intros Hop w1 Hsent. subst w1.
  destruct op as [[|p]| | |[|p]| | |u y [|m]|]; try discriminate Hop; cbn [handle] in *;
    try (vm_compute in Hsent; discriminate Hsent).
  - destruct (is_empty (Page.Title p)) eqn:Ht.
    { unfold CreatePage, ShouldBindJSON, Page_required in Hsent.
      cbn [forallb] in Hsent; rewrite ?Ht in Hsent; vm_compute in Hsent;
        discriminate Hsent. }
    destruct (is_empty (Page.Content p)) eqn:Hc.
    { unfold CreatePage, ShouldBindJSON, Page_required in Hsent.
      cbn [forallb] in Hsent; rewrite ?Ht, ?Hc in Hsent; vm_compute in Hsent;
        discriminate Hsent. }
    rewrite (CreatePage_valid p Ht Hc) in Hsent |- *.
    pose proof (tx_block_commits (INSERT "pages")
                  (fun t sq => gorm.insert_row gorm.PageModel t p sq)
                  StatusCreated OnePage (request db sq [] t) eq_refl eq_refl) as Hrun.
    cbv zeta in Hrun. cbn [clock store seqs sent request app] in Hrun.
    destruct (gorm.insert_row gorm.PageModel t p sq db) as [sq' [[p' db']|e]] eqn:Hins;
      destruct Hrun as (Hst & Hsq & Hsn); rewrite Hsn in Hsent; [|discriminate Hsent].
    injection Hsent as <-. rewrite Hst. cbn [fetch].
    apply insert_page_stored in Hins.
    rewrite (GetPage_found _ _ _ _ _ Hins). eexists. split; [reflexivity|].
    destruct p'; reflexivity.
  - destruct (is_empty (Post.Title p)) eqn:Ht.
    { unfold CreatePost, ShouldBindJSON, Post_required in Hsent.
      cbn [forallb] in Hsent; rewrite ?Ht in Hsent; vm_compute in Hsent;
        discriminate Hsent. }
    destruct (is_empty (Post.Content p)) eqn:Hc.
    { unfold CreatePost, ShouldBindJSON, Post_required in Hsent.
      cbn [forallb] in Hsent; rewrite ?Ht, ?Hc in Hsent; vm_compute in Hsent;
        discriminate Hsent. }
    rewrite (CreatePost_valid p Ht Hc) in Hsent |- *.
    pose proof (tx_block_commits (INSERT "posts")
                  (fun t sq => gorm.insert_row gorm.PostModel t p sq)
                  StatusCreated OnePost (request db sq [] t) eq_refl eq_refl) as Hrun.
    cbv zeta in Hrun. cbn [clock store seqs sent request app] in Hrun.
    destruct (gorm.insert_row gorm.PostModel t p sq db) as [sq' [[p' db']|e]] eqn:Hins;
      destruct Hrun as (Hst & Hsq & Hsn); rewrite Hsn in Hsent; [|discriminate Hsent].
    injection Hsent as <-. rewrite Hst. cbn [fetch].
    apply insert_post_stored in Hins.
    rewrite (GetPost_found _ _ _ _ _ Hins). eexists. split; [reflexivity|].
    destruct p'; reflexivity.
  - destruct (is_empty (Media.URL m)) eqn:Ht.
    { unfold CreateMedia, ShouldBindJSON, Media_required in Hsent.
      destruct u, y, (is_empty (Media.Type_ m)) eqn:Hc;
        cbn [forallb app negb andb] in Hsent; rewrite ?Ht, ?Hc in Hsent;
        cbn [forallb app negb andb] in Hsent; rewrite ?Ht, ?Hc in Hsent;
        vm_compute in Hsent; discriminate Hsent. }
    destruct (is_empty (Media.Type_ m)) eqn:Hc.
    { unfold CreateMedia, ShouldBindJSON, Media_required in Hsent.
      destruct u, y;
        cbn [forallb app negb andb] in Hsent; rewrite ?Ht, ?Hc in Hsent;
        cbn [forallb app negb andb] in Hsent; rewrite ?Ht, ?Hc in Hsent;
        vm_compute in Hsent; discriminate Hsent. }
    rewrite (CreateMedia_valid u y m Ht Hc) in Hsent |- *.
    pose proof (tx_block_commits (INSERT "media")
                  (fun t sq => gorm.insert_row gorm.MediaModel t m sq)
                  StatusCreated OneMedia (request db sq [] t) eq_refl eq_refl) as Hrun.
    cbv zeta in Hrun. cbn [clock store seqs sent request app] in Hrun.
    destruct (gorm.insert_row gorm.MediaModel t m sq db) as [sq' [[m' db']|e]] eqn:Hins;
      destruct Hrun as (Hst & Hsq & Hsn); rewrite Hsn in Hsent; [|discriminate Hsent].
    injection Hsent as <-. rewrite Hst. cbn [fetch].
    apply insert_media_stored in Hins.
    rewrite (GetMediaByID_found _ _ _ _ _ Hins). eexists. split; [reflexivity|].
    destruct m'; reflexivity.
Qed.

Lemma created_is_found_witness :
  let w1 := exec (handle (Create_Post (Json post_with_ref)))
                 (request with_media_7 used [] 9) in
  let created :=
    Post.mk 3 "Test Post with Media" "This is a test post with media attachment"
            "Test Author" 9 9 in
  sent w1 = [(StatusCreated, OnePost (created (Some [Media.mk 7 "" "" 9 9])))] /\
  exists y,
    sent (exec (GetPost 3) (request (store w1) (seqs w1) [] 10)) = [(StatusOK, y)] /\
    sans_media y = OnePost (created None).
Proof.
  split; [vm_compute; reflexivity|].
  exact (created_is_found (Create_Post (Json post_with_ref)) with_media_7 used 9 10
           _ eq_refl eq_refl).
Defined.

(** ** Deletes *)

Ltac run_write :=
  unfold DeletePage, DeletePost, DeleteMedia, UpdatePage, UpdatePost,
    exec, gorm.First, gorm.Save, gorm.Delete, gorm.save_row, gorm.delete_row, gorm.in_tx,
    rollback_on_panic, fail, defer_recover,
    gorm.Begin, gorm.Commit, gorm.Rollback, JSON,
    bind, call, modify, get, ret, peek, advance, record, request.

(** A delete request on a store that works, case by case. *)
Lemma delete_run (op : Operation) (db : DB) (sq : Seqs) (t : Z) :
  is_delete op = true ->
  let w' := exec (handle op) (request db sq [] t) in
  (target_missing op db /\ store w' = db /\
   exists msg, sent w' = [(StatusNotFound, HTTPError StatusNotFound msg)]) \/
  (target_stored op db /\ target op = 0 /\ store w' = db /\
   exists msg, sent w' = [(StatusInternalServerError,
                           HTTPError StatusInternalServerError msg)]) \/
  (target_stored op db /\ target op <> 0 /\ store w' = without op db /\
   seqs w' = sq /\
   sent w' = [(StatusOK, H_message (deleted_message op))]).
Proof.
  intros Hop.
  destruct op as [| |id| |  |id| |id]; try discriminate Hop;
    cbn [handle target_missing target_stored target without deleted_message];
    run_write; cbn.
  - destruct (pages db !! id) as [r|] eqn:Hr; cbn; [|left; eauto].
    right. destruct (id =? 0) eqn:Hid; cbn.
    + left. apply N.eqb_eq in Hid. eauto 10.
    + right. apply N.eqb_neq in Hid. eauto 10.
  - destruct (posts db !! id) as [r|] eqn:Hr; cbn; [|left; eauto].
    right. destruct (id =? 0) eqn:Hid; cbn.
    + left. apply N.eqb_eq in Hid. eauto 10.
    + right. apply N.eqb_neq in Hid. eauto 10.
  - destruct (media db !! id) as [r|] eqn:Hr; cbn; [|left; eauto].
    right. destruct (id =? 0) eqn:Hid; cbn.
    + left. apply N.eqb_eq in Hid. eauto 10.
    + right. apply N.eqb_neq in Hid. eauto 10.
Qed.

(** X9.  On a store that works, deleting a stored page, or a stored post or
    media that no join row names, answers 200 with the entity's message and
    removes that one row: every other row and table, and the sequences, are
    as before. *)
Theorem delete_removes_row (op : Operation) (db : DB) (sq : Seqs) (t : Z) :
  is_delete op = true -> target_stored op db -> target op <> 0 -> unjoined op db ->
  let w' := exec (handle op) (request db sq [] t) in
  sent w' = [(StatusOK, H_message (deleted_message op))] /\
  store w' = without op db /\ seqs w' = sq.
Proof.
  intros Hop Hst Hid _ w'.
  destruct (delete_run op db sq t Hop) as [(Hmiss & _)|[(_ & Hz & _)|(_ & _ & H)]].
  - exfalso. destruct op; try discriminate Hop;
      cbn [target_missing target_stored] in *; rewrite Hmiss in Hst;
      destruct Hst; discriminate.
  - contradiction.
  - destruct H as (H1 & H2 & H3). auto.
Qed.

Lemma delete_removes_row_witness :
  let w' := exec (handle (Delete_Page 1)) (request two_pages used [] 9) in
  sent w' = [(StatusOK, H_message "Page deleted successfully")] /\
  pages (store w') !! 1 = None /\
  pages (store w') !! 2 = pages two_pages !! 2.
Proof.
  assert (Hst : target_stored (Delete_Page 1) two_pages) by (vm_compute; eauto).
  destruct (delete_removes_row (Delete_Page 1) two_pages used 9 eq_refl Hst)
    as (Hs & Hstore & _); [discriminate|exact I|].
  split; [exact Hs|]. rewrite Hstore. split; reflexivity.
Defined.

(** X10.  On a store that works, once a delete request has been answered
    with 200 the row is gone: the get-by-id handler, asked for the same id,
    answers 404. *)
Theorem deleted_is_gone (op : Operation) (db : DB) (sq : Seqs) (t t' : Z) (b : Payload) :
  is_delete op = true ->
  let w1 := exec (handle op) (request db sq [] t) in
  sent w1 = [(StatusOK, b)] ->
  sent (exec (serve (reread op)) (request (store w1) (seqs w1) [] t')) =
    [(StatusNotFound, HTTPError StatusNotFound (not_found (reread op)))].
Proof.
  intros Hop w1 Hsent.
  destruct (delete_run op db sq t Hop)
    as [(_ & _ & msg & Hs)|[(_ & _ & _ & msg & Hs)|(_ & _ & Hst & _ & _)]];
    fold w1 in Hs || fold w1 in Hst;
    try (rewrite Hs in Hsent; discriminate Hsent).
  rewrite Hst. generalize (seqs w1). intros sq1.
  destruct op as [| |id| |  |id| |id]; try discriminate Hop;
    cbn [reread serve not_found without]; run_all; unfold request; cbn;
    rewrite lookup_delete_eq; reflexivity.
Qed.

Lemma deleted_is_gone_witness :
  let w1 := exec (handle (Delete_Media 7)) (request with_media_7 used [] 9) in
  sent w1 = [(StatusOK, H_message "Media deleted successfully")] /\
  sent (exec (serve (Get_Media 7)) (request (store w1) (seqs w1) [] 10)) =
    [(StatusNotFound, HTTPError StatusNotFound "Media not found")].
Proof.
  split; [vm_compute; reflexivity|].
  exact (deleted_is_gone (Delete_Media 7) with_media_7 used 9 10 _ eq_refl eq_refl).
Defined.

(** ** Updates that go through *)

(** X11.  On a store that works, [UpdatePage] of a stored page with a
    payload that has a title and a content overwrites both, keeps the id of
    the path and the [created_at] of the row whatever the payload says, sets
    [updated_at] to the time of the request, and answers 200 with the page
    as stored; nothing else in the store changes. *)
Theorem UpdatePage_overwrites (db : DB) (sq : Seqs) (t : Z) (id : N) (r upd : Page.t) :
  pages db !! id = Some r -> id <> 0 ->
  is_empty (Page.Title upd) = false -> is_empty (Page.Content upd) = false ->
  let merged := Page.mk id (Page.Title upd) (Page.Content upd) (Page.Createdat r) t in
  let w' := exec (UpdatePage id (Json upd)) (request db sq [] t) in
  sent w' = [(StatusOK, OnePage merged)] /\
  store w' = gorm.with_pages (<[id := merged]> (pages db)) db /\
  seqs w' = sq.
Proof.
  intros Hr Hid Ht Hc merged w'. subst w' merged.
  destruct r as [rid rt rc rcr ru].
  unfold UpdatePage, ShouldBindJSON, Page_required. cbn [forallb].
  rewrite Ht, Hc. cbn [negb andb].
  run_write. cbn. rewrite Hr. cbn. rewrite !Ht, !Hc. cbn.
  apply N.eqb_neq in Hid. rewrite Hid. cbn.
  split; [reflexivity|]. split; reflexivity.
Qed.

Lemma UpdatePage_overwrites_witness :
  let w' := exec (UpdatePage 1 (Json (Page.mk 77 "New" "Text" 3 3)))
                 (request two_pages used [] 9) in
  sent w' = [(StatusOK, OnePage (Page.mk 1 "New" "Text" 5 9))] /\
  pages (store w') !! 2 = pages two_pages !! 2.
Proof.
  destruct (UpdatePage_overwrites two_pages used 9 1 _ (Page.mk 77 "New" "Text" 3 3)
              eq_refl) as (Hs & Hst & _); [discriminate|reflexivity|reflexivity|].
  split; [exact Hs|]. rewrite Hst. reflexivity.
Defined.

(** X12.  On a store that works, [UpdatePost] of a stored post with a
    payload that has a title and a content overwrites both, overwrites the
    author only when the payload's is not empty, keeps the id of the path
    and the [created_at] of the row, sets [updated_at] to the time of the
    request and ignores the payload's media: the media table and the join
    rows are as before, and the 200 answer carries the post with no media
    list. *)
Theorem UpdatePost_overwrites (db : DB) (sq : Seqs) (t : Z) (id : N) (r upd : Post.t) :
  posts db !! id = Some r -> id <> 0 -> Post.Media r = None ->
  is_empty (Post.Title upd) = false -> is_empty (Post.Content upd) = false ->
  let merged :=
    Post.mk id (Post.Title upd) (Post.Content upd)
            (if is_empty (Post.Author upd) then Post.Author r else Post.Author upd)
            (Post.Createdat r) t None in
  let w' := exec (UpdatePost id (Json upd)) (request db sq [] t) in
  sent w' = [(StatusOK, OnePost merged)] /\
  store w' = gorm.with_posts (<[id := merged]> (posts db)) db /\
  seqs w' = sq.
Proof.
  intros Hr Hid Hm Ht Hc merged w'. subst w' merged.
  destruct r as [rid rt rc ra rcr ru rm]. cbn in Hm. subst rm.
  unfold UpdatePost, ShouldBindJSON, Post_required. cbn [forallb].
  rewrite Ht, Hc. cbn [negb andb].
  run_write. cbn. rewrite Hr. cbn. rewrite !Ht, !Hc. cbn.
  apply N.eqb_neq in Hid.
  destruct (is_empty (Post.Author upd)); cbn; rewrite Hid; cbn;
    (split; [reflexivity|]; split; reflexivity).
Qed.

Lemma UpdatePost_overwrites_witness :
  let upd := Post.mk 0 "New" "Text" "" 0 0 (Some [Media.mk 7 "" "" 0 0]) in
  let w' := exec (UpdatePost 2 (Json upd)) (request two_posts used [] 9) in
  sent w' = [(StatusOK, OnePost (Post.mk 2 "New" "Text" "Other" 6 9 None))] /\
  media (store w') = media two_posts /\
  post_media (store w') = post_media two_posts.
Proof.
  destruct (UpdatePost_overwrites two_posts used 9 2 _
              (Post.mk 0 "New" "Text" "" 0 0 (Some [Media.mk 7 "" "" 0 0]))
              eq_refl) as (Hs & Hst & _);
    [discriminate|reflexivity|reflexivity|reflexivity|].
  split; [exact Hs|]. rewrite Hst. split; reflexivity.
Defined.

(** ** Bodies that cannot be decoded, ids that are taken *)

(** X13.  On a store that works, a create request whose body cannot be
    decoded is answered with 400 before any call on the handle, and an
    update request of a stored row whose body cannot be decoded is answered
    with 400 after the lookup; no transaction is opened and the store is as
    before. *)
Theorem malformed_rejected (op : Operation) (db : DB) (sq : Seqs) (t : Z) :
  malformed op = true -> is_create op = true \/ target_stored op db ->
  let w' := exec (handle op) (request db sq [] t) in
  sent w' = [(StatusBadRequest, HTTPError StatusBadRequest "invalid character")] /\
  store w' = db /\ tx w' = Idle /\
  (log w' = [] \/ exists tb id, log w' = [(SELECT_BY_ID tb id, Good)]).
Proof.
  intros Hop Hrow.
  destruct op as [[|]|k [|]| |[|]|k [|]| |u y [|]|]; try discriminate Hop;
    cbn [handle]; try (vm_compute; auto; fail);
    destruct Hrow as [Hc|[r Hr]]; try discriminate Hc;
    cbn [target_stored] in Hr; run_write; unfold ShouldBindJSON; cbn; rewrite Hr; cbn;
    eauto 10.
Qed.

Lemma malformed_rejected_witness :
  let w' := exec (handle (Update_Post 1 Malformed)) (request one_post used [] 9) in
  errors_of w' = [ValidationError] /\ store w' = one_post.
Proof.
  assert (Hrow : target_stored (Update_Post 1 Malformed) one_post) by (vm_compute; eauto).
  destruct (malformed_rejected (Update_Post 1 Malformed) one_post used 9 eq_refl
              (or_intror Hrow)) as (Hs & Hst & _).
  split; [|exact Hst].
  exact (errors_of_sent (request one_post used [] 9) _ _ _ ValidationError Hs eq_refl).
Defined.

Lemma insert_taken {R} (m : gorm.Model R) (t : Z) (r : R) (sq : Seqs) (db : DB) :
  is_Some (gorm.rows m db !!
             (if gorm.key m r =? 0 then fst (gorm.nextval m sq) else gorm.key m r)) ->
  exists sq', gorm.insert_row m t r sq db =
              (sq', Error (ErrSQL "duplicate key value violates unique constraint")).
Proof.
  intros [x Hx]. unfold gorm.insert_row.
  destruct (gorm.key m r =? 0); [destruct (gorm.nextval m sq) as [id sq1]; cbn in Hx|];
    rewrite Hx; eauto.
Qed.

(** X14.  On a store that works, a create request with its required fields
    filled whose row would take the id of a stored row (the id of the
    payload, or else the next value of the sequence) is answered with 500:
    the insert is refused, the transaction is rolled back and the store is
    as before. *)
Theorem create_on_taken_id (op : Operation) (db : DB) (sq : Seqs) (t : Z) :
  lacks_required op = false -> id_taken op db sq ->
  let w' := exec (handle op) (request db sq [] t) in
  errors_of w' = [StorageError] /\ store w' = db /\
  last (log w') = Some (ROLLBACK, Good).
Proof.
  intros Hreq Htaken.
  assert (Hrun : forall (R : Type) (m : gorm.Model R) (r : R) (status : nat)
                        (payload : R -> Payload),
             is_Some (gorm.rows m db !!
                        (if gorm.key m r =? 0 then fst (gorm.nextval m sq)
                         else gorm.key m r)) ->
             let w' := exec (tx_block (INSERT (gorm.table m))
                               (fun t sq => gorm.insert_row m t r sq) status payload)
                            (request db sq [] t) in
             errors_of w' = [StorageError] /\ store w' = db /\
             last (log w') = Some (ROLLBACK, Good)).
  { intros R m r status payload Hin w'. subst w'.
    destruct (insert_taken m t r sq db Hin) as [sq' Hins].
    unfold tx_block, rollback_on_panic, fail, defer_recover,
      gorm.Begin, gorm.Commit, gorm.Rollback, gorm.in_tx, JSON,
      exec, bind, call, modify, get, ret, peek, advance, record, request.
    cbn. rewrite Hins. cbn. auto. }
  destruct op as [[|p]| | |[|p]| | |u y [|m]|]; try contradiction;
    cbn [handle lacks_required id_taken new_id] in *;
    apply orb_false_elim in Hreq as [H1 H2].
  - rewrite (CreatePage_valid p H1 H2). apply (Hrun _ gorm.PageModel). exact Htaken.
  - rewrite (CreatePost_valid p H1 H2). apply (Hrun _ gorm.PostModel). exact Htaken.
  - rewrite (CreateMedia_valid u y m H1 H2). apply (Hrun _ gorm.MediaModel). exact Htaken.
Qed.

Lemma create_on_taken_id_witness :
  let op := Create_Media true true (Json (Media.mk 7 "http://example.com/b.png" "image" 0 0)) in
  let w' := exec (handle op) (request with_media_7 used [] 9) in
  errors_of w' = [StorageError] /\ store w' = with_media_7.
Proof.
  assert (Ht : id_taken (Create_Media true true
                           (Json (Media.mk 7 "http://example.com/b.png" "image" 0 0)))
                        with_media_7 used) by (vm_compute; eauto).
  destruct (create_on_taken_id
              (Create_Media true true
                 (Json (Media.mk 7 "http://example.com/b.png" "image" 0 0)))
              with_media_7 used 9 eq_refl Ht) as (He & Hst & _).
  split; [exact He|exact Hst].
Defined.

(** ** What a write leaves alone *)

(** The store after the transactional block, under any faults, is the store
    before or what the statement made of it. *)
Lemma tx_block_keeps {A} (P : DB -> Prop) (c : Call)
    (f : Z -> Seqs -> DB -> Seqs * result (A * DB))
    (status : nat) (payload : A -> Payload) (w : World) :
  P (store w) ->
  (forall sq' a db', f (clock w) (seqs w) (store w) = (sq', Ok (a, db')) -> P db') ->
  P (store (exec (tx_block c f status payload) w)).
Proof.
  intros Hsame Hnew.
  remember (exec (tx_block c f status payload) w) as w' eqn:Hw'.
  destruct w as [st sq t lg pl ck sn]. cbn [store clock seqs] in *.
  vm_compute in Hw'.
  repeat (first
         [ match type of Hw' with
           | context [match ?l with [] => _ | _ :: _ => _ end] =>
               is_var l; destruct l as [|[] ?]
           end
         | match type of Hw' with
           | context [f ?a ?b ?c] =>
               let E := fresh "E" in
               destruct (f a b c) as [?sq [[? ?]|?]] eqn:E
           end ]; vm_compute in Hw').
  all: subst w'; cbn [store]; first [exact Hsame | eapply Hnew; reflexivity].
Qed.

Lemma fail_keeps (P : DB -> Prop) (status : nat) (msg : string) (w : World) :
  P (store w) -> P (store (exec (fail status msg) w)).
Proof.
  intros H. destruct (fail_run status msg w) as ((Hst & _) & _). now rewrite Hst.
Qed.

Lemma by_id_keeps {R} (P : DB -> Prop) (m : gorm.Model R) (id : N) (what : string)
    (k : R -> M unit) (w : World) :
  P (store w) ->
  (forall x w1, store w1 = store w -> P (store (exec (k x) w1))) ->
  P (store (exec (do r <- gorm.First m id;
                  match r with
                  | Error ErrRecordNotFound => fail StatusNotFound what
                  | Error err => fail StatusInternalServerError (Error_ err)
                  | Ok x => k x
                  end) w)).
Proof.
  intros Hsame Hk. rewrite exec_bind.
  destruct (gorm.First m id w) as [r w1] eqn:E.
  apply First_run in E as ((Hst & _) & _).
  destruct r as [[x|[]]|]; try (apply fail_keeps); try (now rewrite Hst).
  apply Hk. exact Hst.
Qed.

Lemma upsert_media_pages (t : Z) (l : list Media.t) (acc : list Media.t * Seqs * DB) :
  pages (snd (fold_left (gorm.upsert_media t) l acc)) = pages (snd acc).
Proof.
  revert acc. induction l as [|x l IH]; intros acc; [reflexivity|].
  cbn [fold_left]. rewrite IH. destruct acc as [[saved sq] db].
  unfold gorm.upsert_media.
  destruct (if Media.ID x =? 0 then _ else _) as [id sq1].
  destruct (media db !! id); reflexivity.
Qed.

Lemma save_post_media_pages (t : Z) (p p' : Post.t) (sq sq' : Seqs) (db db' : DB) :
  gorm.save_post_media t p sq db = (sq', (p', db')) -> pages db' = pages db.
Proof.
  unfold gorm.save_post_media. destruct (Post.Media p) as [l|].
  - pose proof (upsert_media_pages t l ([], sq, db)) as Hp.
    destruct (fold_left (gorm.upsert_media t) l ([], sq, db)) as [[l' sq1] db1].
    cbn in Hp. intros [= <- <- <-]. cbn. exact Hp.
  - intros [= <- <- <-]. reflexivity.
Qed.

Lemma insert_post_pages (t : Z) (sq sq' : Seqs) (db db' : DB) (p p' : Post.t) :
  gorm.insert_row gorm.PostModel t p sq db = (sq', Ok (p', db')) -> pages db' = pages db.
Proof.
  unfold gorm.insert_row.
  cbn [gorm.key gorm.PostModel gorm.nextval gorm.rows gorm.with_rows gorm.with_key
       gorm.auto_create gorm.columns_of gorm.associations].
  destruct (Post.ID p =? 0); cbn [fst snd];
    match goal with |- context [posts db !! ?k] => destruct (posts db !! k) end;
    try discriminate;
    match goal with
    | |- context [gorm.save_post_media ?a ?b ?c ?d] =>
        destruct (gorm.save_post_media a b c d) as [sq2 [p2 db2]] eqn:E
    end;
    apply save_post_media_pages in E; intros [= <- <- <-]; exact E.
Qed.

Lemma save_post_pages (t : Z) (sq sq' : Seqs) (db db' : DB) (p p' : Post.t) :
  gorm.save_row gorm.PostModel t p sq db = (sq', Ok (p', db')) -> pages db' = pages db.
Proof.
  unfold gorm.save_row. destruct (gorm.key gorm.PostModel p =? 0); [apply insert_post_pages|].
  cbn [gorm.key gorm.PostModel gorm.nextval gorm.rows gorm.with_rows gorm.with_key
       gorm.auto_update gorm.columns_of gorm.associations].
  match goal with
  | |- context [gorm.save_post_media ?a ?b ?c ?d] =>
      destruct (gorm.save_post_media a b c d) as [sq2 [p2 db2]] eqn:E
  end.
  apply save_post_media_pages in E. intros [= <- <- <-]. exact E.
Qed.

Ltac row_frame :=
  unfold gorm.save_row, gorm.delete_row; unfold gorm.insert_row;
  cbn [gorm.key gorm.PageModel gorm.MediaModel gorm.PostModel gorm.nextval gorm.rows
       gorm.with_rows gorm.with_key gorm.auto_create gorm.auto_update gorm.columns_of
       gorm.associations];
  repeat match goal with
         | |- context [if ?b then _ else _] => destruct b
         | |- context [match ?x !! ?k with _ => _ end] => destruct (x !! k)
         end;
  cbn; intros H; inversion H; subst; cbn; auto.

(** X15.  Whatever the store and whatever goes wrong, a write handler keeps
    to its own table: a page handler leaves the posts, the media and the
    join rows as they were, a media handler the pages, the posts and the
    join rows, the delete of a post the pages, the media and the join rows,
    and the create and the update of a post the pages. *)
Theorem writes_keep_to_their_table (op : Operation) (db : DB) (sq : Seqs)
    (faults : list Outcome) (t : Z) :
  others_same op db (store (exec (handle op) (request db sq faults t))).
Proof.
  set (w := request db sq faults t).
  assert (Hrefl : others_same op db (store w)).
  { destruct op; cbn; auto. }
  change db with (store w) in Hrefl |- * at 1.
  generalize dependent w. intros w Hrefl.
  destruct op as [body|id body|id|body|id body|id|u y body|id]; cbn [handle].
  - unfold CreatePage. destruct (ShouldBindJSON Page_required body) as [page|msg];
      [|now apply fail_keeps].
    destruct (is_empty (Page.Title page)); [now apply fail_keeps|].
    destruct (is_empty (Page.Content page)); [now apply fail_keeps|].
    apply (tx_block_keeps (others_same (Create_Page body) (store w)) (INSERT "pages")
             (fun t sq => gorm.insert_row gorm.PageModel t page sq) StatusCreated OnePage w Hrefl).
    intros sq' a db'. cbn [others_same]. row_frame.
  - unfold UpdatePage.
    apply (by_id_keeps (others_same (Update_Page id body) (store w))); [exact Hrefl|].
    intros x w1 Hst. destruct (ShouldBindJSON Page_required body) as [upd|msg];
      [|apply fail_keeps; now rewrite Hst].
    cbv zeta.
    apply (tx_block_keeps (others_same (Update_Page id body) (store w)) (UPDATE "pages" _)
             (fun t sq => gorm.save_row gorm.PageModel t _ sq) StatusOK OnePage w1);
      [now rewrite Hst|].
    rewrite Hst. intros sq' a db'. cbn [others_same]. row_frame.
  - unfold DeletePage.
    apply (by_id_keeps (others_same (Delete_Page id) (store w))); [exact Hrefl|].
    intros x w1 Hst.
    apply (tx_block_keeps (others_same (Delete_Page id) (store w)) (DELETE "pages" _)
             (fun _ sq => gorm.delete_row gorm.PageModel x sq) StatusOK
             (fun _ => H_message "Page deleted successfully") w1);
      [now rewrite Hst|].
    rewrite Hst. intros sq' a db'. cbn [others_same]. row_frame.
  - unfold CreatePost. destruct (ShouldBindJSON Post_required body) as [post|msg];
      [|now apply fail_keeps].
    destruct (is_empty (Post.Title post)); [now apply fail_keeps|].
    destruct (is_empty (Post.Content post)); [now apply fail_keeps|].
    apply (tx_block_keeps (others_same (Create_Post body) (store w)) (INSERT "posts")
             (fun t sq => gorm.insert_row gorm.PostModel t post sq) StatusCreated OnePost w Hrefl).
    intros sq' a db'. cbn [others_same]. apply insert_post_pages.
  - unfold UpdatePost.
    apply (by_id_keeps (others_same (Update_Post id body) (store w))); [exact Hrefl|].
    intros x w1 Hst. destruct (ShouldBindJSON Post_required body) as [upd|msg];
      [|apply fail_keeps; now rewrite Hst].
    cbv zeta.
    apply (tx_block_keeps (others_same (Update_Post id body) (store w)) (UPDATE "posts" _)
             (fun t sq => gorm.save_row gorm.PostModel t _ sq) StatusOK OnePost w1);
      [now rewrite Hst|].
    rewrite Hst. intros sq' a db'. cbn [others_same]. apply save_post_pages.
  - unfold DeletePost.
    apply (by_id_keeps (others_same (Delete_Post id) (store w))); [exact Hrefl|].
    intros x w1 Hst.
    apply (tx_block_keeps (others_same (Delete_Post id) (store w)) (DELETE "posts" _)
             (fun _ sq => gorm.delete_row gorm.PostModel x sq) StatusOK
             (fun _ => H_message "Post deleted successfully") w1);
      [now rewrite Hst|].
    rewrite Hst. intros sq' a db'. cbn [others_same]. row_frame.
  - unfold CreateMedia. destruct (ShouldBindJSON (Media_required u y) body) as [m|msg];
      [|now apply fail_keeps].
    destruct (is_empty (Media.URL m)); [now apply fail_keeps|].
    destruct (is_empty (Media.Type_ m)); [now apply fail_keeps|].
    apply (tx_block_keeps (others_same (Create_Media u y body) (store w)) (INSERT "media")
             (fun t sq => gorm.insert_row gorm.MediaModel t m sq) StatusCreated OneMedia w Hrefl).
    intros sq' a db'. cbn [others_same]. row_frame.
  - unfold DeleteMedia.
    apply (by_id_keeps (others_same (Delete_Media id) (store w))); [exact Hrefl|].
    intros x w1 Hst.
    apply (tx_block_keeps (others_same (Delete_Media id) (store w)) (DELETE "media" _)
             (fun _ sq => gorm.delete_row gorm.MediaModel x sq) StatusOK
             (fun _ => H_message "Media deleted successfully") w1);
      [now rewrite Hst|].
    rewrite Hst. intros sq' a db'. cbn [others_same]. row_frame.
Qed.

(** ** Start-up *)

Lemma release_only_in_production (e : app.Env) :
  String.eqb (if is_empty (app.Getenv e "ENV") then "development" else app.Getenv e "ENV")
             "production" = true ->
  app.Getenv e "ENV" = "production".
Proof.
  destruct (app.Getenv e "ENV") as [|a s] eqn:E; cbn [is_empty]; [discriminate|].
  apply String.eqb_eq.
Qed.

Ltac among :=
  rewrite ?list_elem_of_In in *; cbn [In app] in *;
  intuition (try discriminate; try congruence).

Ltac start_up e tac :=
  let env := fresh "env" in
  let c := fresh "c" in let d := fresh "d" in let n := fresh "n" in
  let u := fresh "u" in let r := fresh "r" in
  destruct e as [env c d n u r];
  unfold app.ready, app.main, app.runMigrations in *;
  cbn [app.Getenv app.ConnectDB app.DB_ app.migrate_New app.Up app.Run] in *;
  destruct c as [?|]; [tac|];
  destruct d as [?|]; [tac|];
  destruct n as [?|]; [cbn [fst snd app] in *; tac|];
  destruct u as [| |?]; cbn [fst snd app] in *;
  try destruct (String.eqb (if is_empty (env "ENV") then _ else _) "production");
  destruct r as [?|]; cbn [app] in *; tac.

(** X16.  [main] starts the server exactly when the database connection,
    its SQL handle and the migrations went through, a migration run that
    found nothing to change counting as gone through; the routes are then
    set up right before the server runs and after the migration instance
    has been closed; and gin is put in release mode only when [ENV] is
    [production]. *)
Theorem serves_when_ready (e : app.Env) :
  (app.RouterRun ∈ app.main e <-> app.ready e) /\
  (app.ready e ->
     exists before after,
       app.main e = (before ++ [app.InitializeRoutes; app.RouterRun] ++ after)%list /\
       app.MigrateClose ∈ before) /\
  (app.SetReleaseMode ∈ app.main e -> app.Getenv e "ENV" = "production").
Proof.
  split; [|split].
  - start_up e among.
  - intros Hready.
    start_up e ltac:(first
      [ exfalso; among; fail
      | eexists (_ :: _ :: _ :: _ :: _ :: _ :: _ :: [])%list, _;
        split; [reflexivity|among]
      | eexists (_ :: _ :: _ :: _ :: _ :: _ :: [])%list, _;
        split; [reflexivity|among] ]).
  - pose proof (release_only_in_production e) as Hrel. intros Hin.
    destruct (String.eqb _ "production") eqn:Hmode in Hrel; [exact (Hrel eq_refl)|].
    exfalso. clear Hrel.
    destruct e as [env [?|] [?|] [?|] [| |?] [?|]];
      unfold app.main, app.runMigrations in *;
      cbn [app.Getenv app.ConnectDB app.DB_ app.migrate_New app.Up app.Run fst snd] in *;
      try rewrite Hmode in Hin; cbn [fst snd app] in *; among.
Qed.

(** X17.  The two deferred closes of the start-up.  Once the migration
    instance has been created it is closed on every path, also when the
    migration run fails.  The SQL handle is closed only when the server ran
    and [router.Run] came back without error: whenever the process ends
    through [log.Fatalf], after a failed migration or a failed server run
    too, the handle that was opened is not closed. *)
Theorem deferred_closes (e : app.Env) :
  (app.ConnectDB e = None -> app.DB_ e = None ->
     (app.MigrateClose ∈ app.main e <-> app.migrate_New e = None)) /\
  (app.SqlClose ∈ app.main e <-> app.ready e /\ app.Run e = None) /\
  (forall msg, app.Fatalf msg ∈ app.main e -> app.SqlClose ∉ app.main e).
Proof.
  split; [|split].
  - intros Hc Hd. start_up e among.
  - start_up e among.
  - intros msg Hin Hcl. start_up e among.
Qed.

Lemma deferred_closes_witness :
  let e := app.mkEnv (fun _ => "") None None None (app.UpError "dirty database") None in
  app.MigrateClose ∈ app.main e /\ app.SqlClose ∉ app.main e.
Proof.
  pose proof (deferred_closes
                (app.mkEnv (fun _ => "") None None None (app.UpError "dirty database") None))
    as (Hm & _ & Hf).
  split.
  - apply (Hm eq_refl eq_refl). reflexivity.
  - apply (Hf ("Failed to run migrations: failed to run migrations: dirty database")).
    vm_compute. repeat constructor.
Defined.

(** ** What was updated can be fetched *)

(** A handler that starts with a lookup, on a store that works. *)
Lemma by_id_working {R} (m : gorm.Model R) (id : N) (what : string) (k : R -> M unit)
    (db : DB) (sq : Seqs) (t : Z) :
  let w1 := with_log [(SELECT_BY_ID (gorm.table m) id, Good)] (request db sq [] t) in
  exec (do r <- gorm.First m id;
        match r with
        | Error ErrRecordNotFound => fail StatusNotFound what
        | Error err => fail StatusInternalServerError (Error_ err)
        | Ok x => k x
        end) (request db sq [] t) =
  match gorm.rows m db !! id with
  | None => exec (fail StatusNotFound what) w1
  | Some r0 => exec (k (gorm.with_key m id r0)) w1
  end.
Proof.
  unfold exec, gorm.First, bind, call, get, ret, peek, advance, record, request. cbn.
  destruct (gorm.rows m db !! id); reflexivity.
Qed.

Lemma save_page_stored (t : Z) (sq sq' : Seqs) (db db' : DB) (p p' : Page.t) :
  gorm.save_row gorm.PageModel t p sq db = (sq', Ok (p', db')) ->
  pages db' !! Page.ID p' = Some p'.
Proof.
  unfold gorm.save_row. destruct (gorm.key gorm.PageModel p =? 0);
    [apply insert_page_stored|].
  cbn [gorm.key gorm.PageModel gorm.rows gorm.with_rows gorm.auto_update
       gorm.columns_of gorm.associations].
  intros [= <- <- <-]. cbn. apply lookup_insert_eq.
Qed.

Lemma save_post_stored (t : Z) (sq sq' : Seqs) (db db' : DB) (p p' : Post.t) :
  gorm.save_row gorm.PostModel t p sq db = (sq', Ok (p', db')) ->
  posts db' !! Post.ID p' = Some (Post.with_Media None p').
Proof.
  unfold gorm.save_row. destruct (gorm.key gorm.PostModel p =? 0);
    [apply insert_post_stored|].
  cbn [gorm.key gorm.PostModel gorm.rows gorm.with_rows gorm.auto_update
       gorm.columns_of gorm.associations].
  match goal with
  | |- context [gorm.save_post_media ?a ?b ?c ?d] =>
      destruct (gorm.save_post_media a b c d) as [sq2 [p2 db2]] eqn:E
  end.
  apply save_post_media_posts in E as (Hposts & Hsame & Hid).
  intros [= <- <- <-]. rewrite Hposts, Hid, Hsame. cbn. apply lookup_insert_eq.
Qed.

(** X18.  On a store that works, whatever an update handler answers with
    200 can be fetched: the get-by-id handler, asked for the id in that
    answer, answers 200 with the same page, and with the same post but for
    its media list. *)
Theorem updated_is_found (op : Operation) (db : DB) (sq : Seqs) (t t' : Z) (x : Payload) :
  is_update op = true ->
  let w1 := exec (handle op) (request db sq [] t) in
  sent w1 = [(StatusOK, x)] ->
  exists y,
    sent (exec (fetch x) (request (store w1) (seqs w1) [] t')) = [(StatusOK, y)] /\
    sans_media y = sans_media x.
Proof.
  intros Hop w1 Hsent. subst w1.
  destruct op as [|id body| | |id body| | |]; try discriminate Hop; cbn [handle] in *.
  - unfold UpdatePage in Hsent |- *. rewrite by_id_working in Hsent |- *.
    cbn [gorm.rows gorm.PageModel gorm.with_key gorm.table] in Hsent |- *.
    destruct (pages db !! id) as [r0|]; [|vm_compute in Hsent; discriminate Hsent].
    destruct (ShouldBindJSON Page_required body) as [upd|msg];
      [|vm_compute in Hsent; discriminate Hsent].
    cbv zeta in Hsent |- *.
    match type of Hsent with
    | sent ?w = _ => remember w as w1 eqn:Hw1
    end.
    match type of Hw1 with
    | context [gorm.Save gorm.PageModel ?r] =>
        pose proof (tx_block_commits (UPDATE "pages" (Page.ID r))
                      (fun t sq => gorm.save_row gorm.PageModel t r sq) StatusOK OnePage
                      (with_log [(SELECT_BY_ID "pages" id, Good)] (request db sq [] t))
                      eq_refl eq_refl) as Hrun;
        cbv zeta in Hrun;
        change (w1 = exec (tx_block (UPDATE "pages" (Page.ID r))
                             (fun t sq => gorm.save_row gorm.PageModel t r sq)
                             StatusOK OnePage)
                          (with_log [(SELECT_BY_ID "pages" id, Good)] (request db sq [] t)))
          in Hw1;
        rewrite <- Hw1 in Hrun;
        cbn [clock store seqs sent request with_log] in Hrun;
        destruct (gorm.save_row gorm.PageModel t r sq db) as [sq' [[p' db']|e]] eqn:Hsave
    end;
      destruct Hrun as (Hst & Hsq & Hsn); rewrite Hsn in Hsent; [|discriminate Hsent].
    injection Hsent as <-. apply save_page_stored in Hsave. cbn [fetch].
    rewrite Hst, (GetPage_found _ _ _ _ _ Hsave).
    eexists. split; [reflexivity|]. destruct p'; reflexivity.
  - unfold UpdatePost in Hsent |- *. rewrite by_id_working in Hsent |- *.
    cbn [gorm.rows gorm.PostModel gorm.with_key gorm.table] in Hsent |- *.
    destruct (posts db !! id) as [r0|]; [|vm_compute in Hsent; discriminate Hsent].
    destruct (ShouldBindJSON Post_required body) as [upd|msg];
      [|vm_compute in Hsent; discriminate Hsent].
    cbv zeta in Hsent |- *.
    match type of Hsent with
    | sent ?w = _ => remember w as w1 eqn:Hw1
    end.
    match type of Hw1 with
    | context [gorm.Save gorm.PostModel ?r] =>
        pose proof (tx_block_commits (UPDATE "posts" (Post.ID r))
                      (fun t sq => gorm.save_row gorm.PostModel t r sq) StatusOK OnePost
                      (with_log [(SELECT_BY_ID "posts" id, Good)] (request db sq [] t))
                      eq_refl eq_refl) as Hrun;
        cbv zeta in Hrun;
        change (w1 = exec (tx_block (UPDATE "posts" (Post.ID r))
                             (fun t sq => gorm.save_row gorm.PostModel t r sq)
                             StatusOK OnePost)
                          (with_log [(SELECT_BY_ID "posts" id, Good)] (request db sq [] t)))
          in Hw1;
        rewrite <- Hw1 in Hrun;
        cbn [clock store seqs sent request with_log] in Hrun;
        destruct (gorm.save_row gorm.PostModel t r sq db) as [sq' [[p' db']|e]] eqn:Hsave
    end;
      destruct Hrun as (Hst & Hsq & Hsn); rewrite Hsn in Hsent; [|discriminate Hsent].
    injection Hsent as <-. apply save_post_stored in Hsave. cbn [fetch].
    rewrite Hst, (GetPost_found _ _ _ _ _ Hsave).
    eexists. split; [reflexivity|]. destruct p'; reflexivity.
Qed.

Lemma updated_is_found_witness :
  let w1 := exec (handle (Update_Page 2 (Json (Page.mk 0 "Second" "Edition" 0 0))))
                 (request two_pages used [] 9) in
  sent w1 = [(StatusOK, OnePage (Page.mk 2 "Second" "Edition" 6 9))] /\
  exists y,
    sent (exec (GetPage 2) (request (store w1) (seqs w1) [] 10)) = [(StatusOK, y)] /\
    sans_media y = OnePage (Page.mk 2 "Second" "Edition" 6 9).
Proof.
  split; [vm_compute; reflexivity|].
  exact (updated_is_found (Update_Page 2 (Json (Page.mk 0 "Second" "Edition" 0 0)))
           two_pages used 9 10 (OnePage (Page.mk 2 "Second" "Edition" 6 9))
           eq_refl eq_refl).
Defined.

(** ** The calls a handler makes *)


Lemma within_still {A} (n : nat) (f : World -> Res A * World) :
  (forall w, log (snd (f w)) = log w) -> within n f.
Proof.
  intros H w r w' E. specialize (H w). rewrite E in H. cbn in H.
  exists []. split; [now rewrite app_nil_r|cbn; lia].
Qed.

Lemma within_ret {A} (n : nat) (a : A) : within n (ret a).
Proof. apply within_still. reflexivity. Qed.

Lemma within_get (n : nat) : within n get.
Proof. apply within_still. reflexivity. Qed.

Lemma within_JSON (n : nat) (status : nat) (body : Payload) : within n (JSON status body).
Proof. apply within_still. intros w. unfold JSON. destruct (peek w); reflexivity. Qed.

Lemma within_call (c : Call) : within 1 (call c).
Proof.
  intros w r w'. unfold call, record, advance.
  destruct (peek w); intros [= <- <-]; cbn; eexists; (split; [reflexivity|cbn; lia]).
Qed.

Lemma within_bind {A B} (a b : nat) (m : M A) (k : A -> M B) :
  within a m -> (forall x, within b (k x)) -> within (a + b) (bind m k).
Proof.
  intros Hm Hk w r w'. unfold bind.
  destruct (m w) as [[x|] w1] eqn:E; destruct (Hm _ _ _ E) as (new & Hl & Hn).
  - intros E2. destruct (Hk x _ _ _ E2) as (new2 & Hl2 & Hn2).
    exists (new ++ new2)%list. split.
    + rewrite Hl2, Hl. symmetry. apply app_assoc.
    + rewrite length_app. lia.
  - intros [= <- <-]. exists new. split; [exact Hl|lia].
Qed.

Lemma within_defer (a b : nat) (h body : M unit) :
  within a body -> within b h -> within (a + b) (defer_recover h body).
Proof.
  intros Hb Hh w r w'. unfold defer_recover.
  destruct (body w) as [[[]|] w1] eqn:E; destruct (Hb _ _ _ E) as (new & Hl & Hn).
  - intros [= <- <-]. exists new. split; [exact Hl|lia].
  - intros E2. destruct (Hh _ _ _ E2) as (new2 & Hl2 & Hn2).
    exists (new ++ new2)%list. split.
    + rewrite Hl2, Hl. symmetry. apply app_assoc.
    + rewrite length_app. lia.
Qed.

Lemma within_in_tx {A} (n : nat) (f : Z -> Seqs -> DB -> Seqs * result (A * DB))
    (o : Outcome) : within n (gorm.in_tx f o).
Proof.
  apply within_still. intros w. unfold gorm.in_tx.
  destruct o, (tx w) as [|work| |]; try reflexivity;
    destruct (f (clock w) (seqs w) work) as [sq [[a work']|e]]; reflexivity.
Qed.

Lemma within_First {R} (m : gorm.Model R) (id : N) : within 1 (gorm.First m id).
Proof.
  unfold gorm.First. apply (within_bind 1 0); [apply within_call|]. intros o.
  apply (within_bind 0 0); [apply within_get|]. intros w.
  destruct o; try apply within_ret; destruct (gorm.rows m (store w) !! id); apply within_ret.
Qed.

Lemma within_Find {R} (m : gorm.Model R) (conds : list Cond) : within 1 (gorm.Find m conds).
Proof.
  unfold gorm.Find. apply (within_bind 1 0); [apply within_call|]. intros o.
  apply (within_bind 0 0); [apply within_get|]. intros w.
  destruct o; try apply within_ret; destruct (gorm.compile m conds); apply within_ret.
Qed.

Lemma within_Preload_Media (ps : list Post.t) : within 2 (gorm.Preload_Media ps).
Proof.
  unfold gorm.Preload_Media. destruct ps as [|p ps]; [apply within_ret|].
  cbv zeta. apply (within_bind 1 1); [apply within_call|]. intros o.
  apply (within_bind 0 1); [apply within_get|]. intros w.
  destruct o; try apply within_ret;
    (apply (within_bind 1 0);
     [ destruct (map snd _); [apply within_ret|];
       apply (within_bind 1 0); [apply within_call|]; intros []; apply within_ret
     | intros [ms|e]; apply within_ret ]).
Qed.

Lemma within_Find_Preload_Media (conds : list Cond) :
  within 3 (gorm.Find_Preload_Media conds).
Proof.
  unfold gorm.Find_Preload_Media. apply (within_bind 1 2); [apply within_Find|].
  intros [ps|e]; [apply within_Preload_Media|apply within_ret].
Qed.

Lemma within_First_Preload_Media (id : N) : within 3 (gorm.First_Preload_Media id).
Proof.
  unfold gorm.First_Preload_Media. apply (within_bind 1 2); [apply within_First|].
  intros [p|e]; [|apply within_ret].
  apply (within_bind 2 0); [apply within_Preload_Media|].
  intros [[|p' [|? ?]]|e]; apply within_ret.
Qed.

Lemma within_Begin : within 1 gorm.Begin.
Proof.
  unfold gorm.Begin. apply (within_bind 1 0); [apply within_call|]. intros o.
  apply within_still. intros w. destruct o; reflexivity.
Qed.

Lemma within_Commit : within 1 gorm.Commit.
Proof.
  unfold gorm.Commit. apply (within_bind 1 0); [apply within_call|]. intros o.
  apply within_still. intros w. destruct (tx w), o; reflexivity.
Qed.

Lemma within_Rollback : within 1 gorm.Rollback.
Proof.
  unfold gorm.Rollback. apply (within_bind 1 0); [apply within_call|]. intros o.
  apply within_still. intros w. destruct (tx w), o; reflexivity.
Qed.

Lemma within_rollback_on_panic : within 1 rollback_on_panic.
Proof.
  unfold rollback_on_panic. apply (within_bind 1 0); [apply within_Rollback|].
  intros _. apply within_ret.
Qed.

(** The transactional block: the statement, then commit or rollback, and
    the rollback of the deferred closure. *)
Lemma within_tx_block {A} (c : Call) (f : Z -> Seqs -> DB -> Seqs * result (A * DB))
    (status : nat) (payload : A -> Payload) :
  within 4 (tx_block c f status payload).
Proof.
  unfold tx_block. apply (within_bind 1 3); [apply within_Begin|]. intros _.
  apply (within_defer 2 1); [|apply within_rollback_on_panic].
  apply (within_bind 1 1).
  - apply (within_bind 1 0); [apply within_call|]. intros o. apply within_in_tx.
  - intros [a|e].
    + apply (within_bind 1 0); [apply within_Commit|]. intros [?|?]; apply within_JSON.
    + apply (within_bind 1 0); [apply within_Rollback|]. intros _. apply within_JSON.
Qed.

Ltac count :=
  first [ apply within_JSON
        | apply (within_tx_block (INSERT _))
        | apply (within_tx_block (UPDATE _ _))
        | apply (within_tx_block (DELETE _ _))
        | apply (within_bind 3 0);
          [ first [apply within_Find_Preload_Media | apply within_First_Preload_Media]
          | intros ? ]
        | apply (within_bind 1 2); [first [apply within_First | apply within_Find]|intros ?]
        | apply (within_bind 1 4); [apply within_First|intros ?]
        | match goal with
          | |- within _ (match ?x with _ => _ end) => destruct x
          end ].

Lemma within_serve (r : Read) : within 3 (serve r).
Proof.
  destruct r; cbn [serve];
    unfold GetPages, GetPage, GetPosts, GetPost, GetMedia, GetMediaByID, fail; cbv zeta;
    repeat count.
Qed.

Lemma within_handle (op : Operation) :
  within (if is_create op then 4 else 5) (handle op).
Proof.
  destruct op; cbn [handle is_create];
    unfold CreatePage, UpdatePage, DeletePage, CreatePost, UpdatePost, DeletePost,
      CreateMedia, DeleteMedia, fail; cbv zeta; repeat count.
Qed.

(** X19.  Whatever the store holds and whatever goes wrong, a handler makes
    a bounded number of calls on the storage handle, whatever the number of
    rows: a read handler at most three, a create handler at most four, an
    update or delete handler at most five. *)
Theorem calls_bounded (req : Request) (w : World) :
  let w' := exec (run req) w in
  exists new, log w' = (log w ++ new)%list /\ (length new <= budget req)%nat.
Proof.
  intros w'. destruct (exec_as (run req) w) as [r E]. fold w' in E.
  destruct req as [rd|op]; cbn [run budget] in *.
  - exact (within_serve rd _ _ _ E).
  - exact (within_handle op _ _ _ E).
Qed.

(** ** Required fields that stay filled *)

Lemma by_id_keeps_row {R} (P : DB -> Prop) (m : gorm.Model R) (id : N) (what : string)
    (k : R -> M unit) (w : World) :
  P (store w) ->
  (forall x0 w1, gorm.rows m (store w) !! id = Some x0 -> store w1 = store w ->
                 P (store (exec (k (gorm.with_key m id x0)) w1))) ->
  P (store (exec (do r <- gorm.First m id;
                  match r with
                  | Error ErrRecordNotFound => fail StatusNotFound what
                  | Error err => fail StatusInternalServerError (Error_ err)
                  | Ok x => k x
                  end) w)).
Proof.
  intros Hsame Hk. rewrite exec_bind.
  destruct (gorm.First m id w) as [r w1] eqn:E.
  apply First_run in E as ((Hst & _) & _ & _ & _ & Hr).
  destruct r as [[x|[]]|]; try (apply fail_keeps); try (now rewrite Hst).
  destruct Hr as (_ & x0 & Hx0 & ->). apply Hk; assumption.
Qed.

Lemma kept_refl (op : Operation) (db : DB) : kept op db db.
Proof. split; auto. Qed.


Lemma filled_insert {A} (f g : A -> string) (rows : gmap N A) (k : N) (v : A) :
  (forall id p, rows !! id = Some p -> is_empty (f p) = false /\ is_empty (g p) = false) ->
  is_empty (f v) = false -> is_empty (g v) = false ->
  forall id p, <[k := v]> rows !! id = Some p ->
    is_empty (f p) = false /\ is_empty (g p) = false.
Proof.
  intros Hrows Hf Hg id p Hp. apply lookup_insert_Some in Hp as [[_ <-]|[_ Hp]]; eauto.
Qed.

Lemma filled_delete {A} (f g : A -> string) (rows : gmap N A) (k : N) :
  (forall id p, rows !! id = Some p -> is_empty (f p) = false /\ is_empty (g p) = false) ->
  forall id p, delete k rows !! id = Some p ->
    is_empty (f p) = false /\ is_empty (g p) = false.
Proof.
  intros Hrows id p Hp. apply lookup_delete_Some in Hp as [_ Hp]. eauto.
Qed.

Ltac row_kept :=
  unfold gorm.save_row, gorm.delete_row; unfold gorm.insert_row;
  cbn [gorm.key gorm.PageModel gorm.MediaModel gorm.PostModel gorm.nextval gorm.rows
       gorm.with_rows gorm.with_key gorm.auto_create gorm.auto_update gorm.columns_of
       gorm.associations];
  repeat match goal with
         | |- context [if ?b =? 0 then _ else _] => destruct (b =? 0)
         | |- context [match ?x !! ?k with _ => _ end] => destruct (x !! k)
         end;
  cbn [fst snd]; intros H; inversion H; subst; clear H.

Lemma save_post_media_tables (t : Z) (p p' : Post.t) (sq sq' : Seqs) (db db' : DB) :
  gorm.save_post_media t p sq db = (sq', (p', db')) ->
  pages db' = pages db /\ posts db' = posts db.
Proof.
  intros E. split; [exact (save_post_media_pages _ _ _ _ _ _ _ E)|].
  apply save_post_media_posts in E as (H & _). exact H.
Qed.

Lemma insert_post_kept (t : Z) (p a : Post.t) (sq sq' : Seqs) (st db' : DB) :
  is_empty (Post.Title p) = false -> is_empty (Post.Content p) = false ->
  gorm.insert_row gorm.PostModel t p sq st = (sq', Ok (a, db')) ->
  titles_filled st -> titles_filled db'.
Proof.
  intros Ht Hc. unfold gorm.insert_row.
  cbn [gorm.key gorm.PostModel gorm.nextval gorm.rows gorm.with_rows gorm.with_key
       gorm.auto_create gorm.columns_of gorm.associations].
  destruct (Post.ID p =? 0); cbn [fst snd];
    match goal with |- context [posts st !! ?k] => destruct (posts st !! k) end;
    try discriminate;
    match goal with
    | |- context [gorm.save_post_media ?a ?b ?c ?d] =>
        destruct (gorm.save_post_media a b c d) as [sq2 [p2 db2]] eqn:E
    end;
    apply save_post_media_tables in E as (Hpages & Hposts);
    intros [= <- <- <-] [Hp Hq]; (split; [rewrite Hpages; exact Hp|]);
    rewrite Hposts; cbn; apply (filled_insert Post.Title Post.Content); auto.
Qed.

Lemma save_post_kept (t : Z) (p a : Post.t) (sq sq' : Seqs) (st db' : DB) :
  is_empty (Post.Title p) = false -> is_empty (Post.Content p) = false ->
  gorm.save_row gorm.PostModel t p sq st = (sq', Ok (a, db')) ->
  titles_filled st -> titles_filled db'.
Proof.
  intros Ht Hc. unfold gorm.save_row.
  destruct (gorm.key gorm.PostModel p =? 0); [now apply insert_post_kept|].
  cbn [gorm.key gorm.PostModel gorm.rows gorm.with_rows gorm.auto_update
       gorm.columns_of gorm.associations].
  match goal with
  | |- context [gorm.save_post_media ?a ?b ?c ?d] =>
      destruct (gorm.save_post_media a b c d) as [sq2 [p2 db2]] eqn:E
  end.
  apply save_post_media_tables in E as (Hpages & Hposts).
  intros [= <- <- <-] [Hp Hq]. split; [rewrite Hpages; exact Hp|].
  rewrite Hposts. cbn. apply (filled_insert Post.Title Post.Content); auto.
Qed.

(** X20.  Whatever goes wrong, no write handler empties a required field of
    a page or a post: if no stored page or post has an empty title or
    content before the request, none has after it.  The same holds of the
    url and type of the stored media for every handler but the two that
    save a post. *)
Theorem required_stay_filled (op : Operation) (db : DB) (sq : Seqs)
    (faults : list Outcome) (t : Z) :
  let db' := store (exec (handle op) (request db sq faults t)) in
  (titles_filled db -> titles_filled db') /\
  (saves_post op = false -> urls_filled db -> urls_filled db').
Proof.
  intros db'. subst db'. set (w := request db sq faults t).
  change (kept op (store w) (store (exec (handle op) w))).
  pose proof (kept_refl op (store w)) as Hrefl. clearbody w.
  destruct op as [body|id body|id|body|id body|id|u y body|id]; cbn [handle].
  - unfold CreatePage. destruct (ShouldBindJSON Page_required body) as [page|msg];
      [|now apply fail_keeps].
    destruct (is_empty (Page.Title page)) eqn:Ht; [now apply fail_keeps|].
    destruct (is_empty (Page.Content page)) eqn:Hc; [now apply fail_keeps|].
    apply (tx_block_keeps (kept (Create_Page body) (store w)) (INSERT "pages")
             (fun t sq => gorm.insert_row gorm.PageModel t page sq) StatusCreated OnePage w Hrefl).
    intros sq' a db'. row_kept;
      (split; [|auto]; intros [Hp Hq]; split; [|exact Hq]; cbn;
       apply (filled_insert Page.Title Page.Content); auto).
  - unfold UpdatePage.
    apply (by_id_keeps_row (kept (Update_Page id body) (store w))); [exact Hrefl|].
    intros x0 w1 Hx0 Hst. destruct (ShouldBindJSON Page_required body) as [upd|msg];
      [|apply fail_keeps; now rewrite Hst].
    cbv zeta.
    apply (tx_block_keeps (kept (Update_Page id body) (store w)) (UPDATE "pages" _)
             (fun t sq => gorm.save_row gorm.PageModel t _ sq) StatusOK OnePage w1);
      [now rewrite Hst|].
    rewrite Hst. cbn [gorm.with_key gorm.PageModel]. intros sq' a db'.
    row_kept;
      (split; [|auto]; intros [Hp Hq]; split; [|exact Hq]; cbn;
       destruct (Hp _ _ Hx0) as [Hx1 Hx2];
       apply (filled_insert Page.Title Page.Content); auto;
       cbn; destruct (is_empty (Page.Title upd)) eqn:E1,
                     (is_empty (Page.Content upd)) eqn:E2; cbn; auto).
  - unfold DeletePage.
    apply (by_id_keeps_row (kept (Delete_Page id) (store w))); [exact Hrefl|].
    intros x0 w1 Hx0 Hst.
    apply (tx_block_keeps (kept (Delete_Page id) (store w)) (DELETE "pages" _)
             (fun _ sq => gorm.delete_row gorm.PageModel _ sq) StatusOK
             (fun _ => H_message "Page deleted successfully") w1);
      [now rewrite Hst|].
    rewrite Hst. intros sq' a db'. row_kept.
    split; [|auto]. intros [Hp Hq]. split; [|exact Hq]. cbn.
    apply (filled_delete Page.Title Page.Content). exact Hp.
  - unfold CreatePost. destruct (ShouldBindJSON Post_required body) as [post|msg];
      [|now apply fail_keeps].
    destruct (is_empty (Post.Title post)) eqn:Ht; [now apply fail_keeps|].
    destruct (is_empty (Post.Content post)) eqn:Hc; [now apply fail_keeps|].
    apply (tx_block_keeps (kept (Create_Post body) (store w)) (INSERT "posts")
             (fun t sq => gorm.insert_row gorm.PostModel t post sq) StatusCreated OnePost w Hrefl).
    intros sq' a db' Hins. split; [|discriminate].
    exact (insert_post_kept _ _ _ _ _ _ _ Ht Hc Hins).
  - unfold UpdatePost.
    apply (by_id_keeps_row (kept (Update_Post id body) (store w))); [exact Hrefl|].
    intros x0 w1 Hx0 Hst. destruct (ShouldBindJSON Post_required body) as [upd|msg];
      [|apply fail_keeps; now rewrite Hst].
    cbv zeta.
    apply (tx_block_keeps (kept (Update_Post id body) (store w)) (UPDATE "posts" _)
             (fun t sq => gorm.save_row gorm.PostModel t _ sq) StatusOK OnePost w1);
      [now rewrite Hst|].
    rewrite Hst. cbn [gorm.with_key gorm.PostModel]. intros sq' a db' Hsave.
    split; [|discriminate]. intros Hfilled.
    destruct (proj2 Hfilled _ _ Hx0) as [Hx1 Hx2].
    refine (save_post_kept _ _ _ _ _ _ _ _ _ Hsave Hfilled);
      destruct (is_empty (Post.Title upd)) eqn:E1,
               (is_empty (Post.Content upd)) eqn:E2,
               (is_empty (Post.Author upd)) eqn:E3; cbn; auto.
  - unfold DeletePost.
    apply (by_id_keeps_row (kept (Delete_Post id) (store w))); [exact Hrefl|].
    intros x0 w1 Hx0 Hst.
    apply (tx_block_keeps (kept (Delete_Post id) (store w)) (DELETE "posts" _)
             (fun _ sq => gorm.delete_row gorm.PostModel _ sq) StatusOK
             (fun _ => H_message "Post deleted successfully") w1);
      [now rewrite Hst|].
    rewrite Hst. intros sq' a db'. row_kept.
    split; [|auto]. intros [Hp Hq]. split; [exact Hp|]. cbn.
    apply (filled_delete Post.Title Post.Content). exact Hq.
  - unfold CreateMedia. destruct (ShouldBindJSON (Media_required u y) body) as [m|msg];
      [|now apply fail_keeps].
    destruct (is_empty (Media.URL m)) eqn:Ht; [now apply fail_keeps|].
    destruct (is_empty (Media.Type_ m)) eqn:Hc; [now apply fail_keeps|].
    apply (tx_block_keeps (kept (Create_Media u y body) (store w)) (INSERT "media")
             (fun t sq => gorm.insert_row gorm.MediaModel t m sq) StatusCreated OneMedia w Hrefl).
    intros sq' a db'. row_kept;
      (split; [auto|]; intros _ Hm; unfold urls_filled; cbn;
       apply (filled_insert Media.URL Media.Type_); auto).
  - unfold DeleteMedia.
    apply (by_id_keeps_row (kept (Delete_Media id) (store w))); [exact Hrefl|].
    intros x0 w1 Hx0 Hst.
    apply (tx_block_keeps (kept (Delete_Media id) (store w)) (DELETE "media" _)
             (fun _ sq => gorm.delete_row gorm.MediaModel _ sq) StatusOK
             (fun _ => H_message "Media deleted successfully") w1);
      [now rewrite Hst|].
    rewrite Hst. intros sq' a db'. row_kept.
    split; [auto|]. intros _ Hm. unfold urls_filled. cbn.
    apply (filled_delete Media.URL Media.Type_). exact Hm.
Qed.

(** ** The calls of a write that goes through *)

(** The transactional block on a store that works, call by call. *)
Lemma tx_block_working {A} (c : Call) (f : Z -> Seqs -> DB -> Seqs * result (A * DB))
    (status : nat) (payload : A -> Payload) (w : World) :
  plan w = [] -> tx w = Idle ->
  let w' := exec (tx_block c f status payload) w in
  tx w' = Closed /\
  match f (clock w) (seqs w) (store w) with
  | (_, Ok (a, _)) =>
      log w' = (log w ++ [(BEGIN, Good); (c, Good); (COMMIT, Good)])%list /\
      sent w' = (sent w ++ [(status, payload a)])%list
  | (_, Error e) =>
      log w' = (log w ++ [(BEGIN, Good); (c, Good); (ROLLBACK, Good)])%list /\
      sent w' = (sent w ++ [(StatusInternalServerError,
                             HTTPError StatusInternalServerError (Error_ e))])%list
  end.
Proof.
  destruct w as [st sq t lg pl ck sn]. cbn. intros -> ->.
  unfold tx_block, rollback_on_panic, fail, defer_recover,
    gorm.Begin, gorm.Commit, gorm.Rollback, gorm.in_tx, JSON,
    exec, bind, call, modify, get, ret, peek, advance, record.
  cbn. destruct (f ck sq st) as [sq' [[a work']|e]]; cbn;
    rewrite <- !app_assoc; cbn; auto.
Qed.

Ltac went_through Herr c f status payload w0 :=
  let Hrun := fresh "Hrun" in
  let w1 := fresh "w" in
  let Hw1 := fresh "Hw" in
  pose proof (tx_block_working c f status payload w0 eq_refl eq_refl) as Hrun;
  cbv zeta in Hrun;
  match type of Herr with
  | errors_of ?w = [] => remember w as w1 eqn:Hw1
  end;
  change (w1 = exec (tx_block c f status payload) w0) in Hw1;
  try rewrite <- Hw1 in Hrun;
  cbn [clock store seqs sent log request with_log app] in Hrun;
  destruct Hrun as [Htx Hrun];
  match type of Hrun with
  | match ?x with _ => _ end => destruct x as [? [[? ?]|?]]
  end;
  destruct Hrun as [Hlog Hsent];
  [ exists c; split; [reflexivity|]; split; [exact Htx|]; rewrite Hlog; eauto
  | unfold errors_of in Herr; rewrite Hsent in Herr; discriminate Herr ].

(** X21.  On a store that works, a write request that is answered without
    an error has made exactly these calls on the handle, in this order: the
    lookup (an update or a delete only), [BEGIN], its one statement and
    [COMMIT]; and the transaction is over. *)
Theorem write_protocol (op : Operation) (db : DB) (sq : Seqs) (t : Z) :
  let w' := exec (handle op) (request db sq [] t) in
  errors_of w' = [] ->
  exists stmt,
    is_statement stmt = true /\ tx w' = Closed /\
    (log w' = [(BEGIN, Good); (stmt, Good); (COMMIT, Good)] \/
     exists tb id,
       log w' = [(SELECT_BY_ID tb id, Good); (BEGIN, Good); (stmt, Good); (COMMIT, Good)]).
Proof.
  intros w' Herr. subst w'.
  destruct op as [[|p]|id body|id|[|p]|id body|id|u y [|m]|id]; cbn [handle] in *;
    try (vm_compute in Herr; discriminate Herr).
  - destruct (is_empty (Page.Title p)) eqn:Ht.
    { unfold CreatePage, ShouldBindJSON, Page_required in Herr.
      cbn [forallb] in Herr; rewrite ?Ht in Herr; vm_compute in Herr; discriminate Herr. }
    destruct (is_empty (Page.Content p)) eqn:Hc.
    { unfold CreatePage, ShouldBindJSON, Page_required in Herr.
      cbn [forallb] in Herr; rewrite ?Ht, ?Hc in Herr; vm_compute in Herr;
        discriminate Herr. }
    rewrite (CreatePage_valid p Ht Hc) in Herr |- *.
    went_through Herr (INSERT "pages") (fun t sq => gorm.insert_row gorm.PageModel t p sq)
      StatusCreated OnePage (request db sq [] t).
  - unfold UpdatePage in Herr |- *. rewrite by_id_working in Herr |- *.
    cbn [gorm.rows gorm.PageModel gorm.with_key gorm.table] in Herr |- *.
    destruct (pages db !! id) as [r0|]; [|vm_compute in Herr; discriminate Herr].
    destruct (ShouldBindJSON Page_required body) as [upd|msg];
      [|vm_compute in Herr; discriminate Herr].
    cbv zeta in Herr |- *.
    match type of Herr with
    | context [gorm.Save gorm.PageModel ?r] =>
        went_through Herr (UPDATE "pages" (Page.ID r))
          (fun t sq => gorm.save_row gorm.PageModel t r sq) StatusOK OnePage
          (with_log [(SELECT_BY_ID "pages" id, Good)] (request db sq [] t))
    end.
  - unfold DeletePage in Herr |- *. rewrite by_id_working in Herr |- *.
    cbn [gorm.rows gorm.PageModel gorm.with_key gorm.table] in Herr |- *.
    destruct (pages db !! id) as [r0|]; [|vm_compute in Herr; discriminate Herr].
    went_through Herr (DELETE "pages" (Page.ID (Page.with_ID id r0)))
      (fun (_ : Z) sq => gorm.delete_row gorm.PageModel (Page.with_ID id r0) sq) StatusOK
      (fun _ : unit => H_message "Page deleted successfully")
      (with_log [(SELECT_BY_ID "pages" id, Good)] (request db sq [] t)).
  - destruct (is_empty (Post.Title p)) eqn:Ht.
    { unfold CreatePost, ShouldBindJSON, Post_required in Herr.
      cbn [forallb] in Herr; rewrite ?Ht in Herr; vm_compute in Herr; discriminate Herr. }
    destruct (is_empty (Post.Content p)) eqn:Hc.
    { unfold CreatePost, ShouldBindJSON, Post_required in Herr.
      cbn [forallb] in Herr; rewrite ?Ht, ?Hc in Herr; vm_compute in Herr;
        discriminate Herr. }
    rewrite (CreatePost_valid p Ht Hc) in Herr |- *.
    went_through Herr (INSERT "posts") (fun t sq => gorm.insert_row gorm.PostModel t p sq)
      StatusCreated OnePost (request db sq [] t).
  - unfold UpdatePost in Herr |- *. rewrite by_id_working in Herr |- *.
    cbn [gorm.rows gorm.PostModel gorm.with_key gorm.table] in Herr |- *.
    destruct (posts db !! id) as [r0|]; [|vm_compute in Herr; discriminate Herr].
    destruct (ShouldBindJSON Post_required body) as [upd|msg];
      [|vm_compute in Herr; discriminate Herr].
    cbv zeta in Herr |- *.
    match type of Herr with
    | context [gorm.Save gorm.PostModel ?r] =>
        went_through Herr (UPDATE "posts" (Post.ID r))
          (fun t sq => gorm.save_row gorm.PostModel t r sq) StatusOK OnePost
          (with_log [(SELECT_BY_ID "posts" id, Good)] (request db sq [] t))
    end.
  - unfold DeletePost in Herr |- *. rewrite by_id_working in Herr |- *.
    cbn [gorm.rows gorm.PostModel gorm.with_key gorm.table] in Herr |- *.
    destruct (posts db !! id) as [r0|]; [|vm_compute in Herr; discriminate Herr].
    went_through Herr (DELETE "posts" (Post.ID (Post.with_ID id r0)))
      (fun (_ : Z) sq => gorm.delete_row gorm.PostModel (Post.with_ID id r0) sq) StatusOK
      (fun _ : unit => H_message "Post deleted successfully")
      (with_log [(SELECT_BY_ID "posts" id, Good)] (request db sq [] t)).
  - destruct (is_empty (Media.URL m)) eqn:Ht.
    { unfold CreateMedia, ShouldBindJSON, Media_required in Herr.
      destruct u, y, (is_empty (Media.Type_ m)) eqn:Hc;
        cbn [forallb app negb andb] in Herr; rewrite ?Ht, ?Hc in Herr;
        cbn [forallb app negb andb] in Herr; rewrite ?Ht, ?Hc in Herr;
        vm_compute in Herr; discriminate Herr. }
    destruct (is_empty (Media.Type_ m)) eqn:Hc.
    { unfold CreateMedia, ShouldBindJSON, Media_required in Herr.
      destruct u, y;
        cbn [forallb app negb andb] in Herr; rewrite ?Ht, ?Hc in Herr;
        cbn [forallb app negb andb] in Herr; rewrite ?Ht, ?Hc in Herr;
        vm_compute in Herr; discriminate Herr. }
    rewrite (CreateMedia_valid u y m Ht Hc) in Herr |- *.
    went_through Herr (INSERT "media") (fun t sq => gorm.insert_row gorm.MediaModel t m sq)
      StatusCreated OneMedia (request db sq [] t).
  - unfold DeleteMedia in Herr |- *. rewrite by_id_working in Herr |- *.
    cbn [gorm.rows gorm.MediaModel gorm.with_key gorm.table] in Herr |- *.
    destruct (media db !! id) as [r0|]; [|vm_compute in Herr; discriminate Herr].
    went_through Herr (DELETE "media" (Media.ID (Media.with_ID id r0)))
      (fun (_ : Z) sq => gorm.delete_row gorm.MediaModel (Media.with_ID id r0) sq) StatusOK
      (fun _ : unit => H_message "Media deleted successfully")
      (with_log [(SELECT_BY_ID "media" id, Good)] (request db sq [] t)).
Qed.

Lemma write_protocol_witness :
  let w' := exec (handle (Delete_Page 1)) (request two_pages used [] 9) in
  errors_of w' = [] /\
  exists stmt,
    is_statement stmt = true /\ tx w' = Closed /\
    (log w' = [(BEGIN, Good); (stmt, Good); (COMMIT, Good)] \/
     exists tb id,
       log w' = [(SELECT_BY_ID tb id, Good); (BEGIN, Good); (stmt, Good); (COMMIT, Good)]).
Proof.
  split; [reflexivity|].
  exact (write_protocol (Delete_Page 1) two_pages used 9 eq_refl).
Defined.
